(** * StreamSaver: chunked upload sessions, ordered merge and live append

    A shallow embedding of [server.js].  Every route handler becomes a
    function from the server state and a request to a new state and a
    response.  The state holds what the handlers share: the two in-memory
    maps ([sessions], [liveStreams]) and the two directories they write to
    ([uploads/tmp] and [uploads/final]).

    Modelling conventions.
    - A handler runs to completion before the next request is looked at:
      the interleaving of [await] points between requests is not modelled.
    - Requests are described as the handlers see them, after [express.json]
      and multer have parsed the body.  multer's [fileSize] limit is kept as
      the guard [upload_single] in front of the two chunk routes.
    - A number that a handler has taken from a request is a [jsnum]: an
      integer or [NaN].  [NaN] is written to JSON as [null]; both fail
      every [===] against a length and every [i < x], so one constructor
      stands for the two.  For the index of a chunk, [Number] itself is
      embedded as well, on the text of the form field, and
      [upload_chunk_field] is the chunk route on that text; it is
      [upload_chunk] on every field that [Number] turns into an integer or
      into [NaN].  A fraction or [Infinity] passes the check of the index
      too, but names a chunk file that the staging area of the model does
      not hold: there the model gives no result.
    - The id of an upload session is taken as the name of its directory
      below [uploads/tmp].  This is what [path.join] makes of an id of
      [crypto.randomUUID], and of every id that [plain_id] accepts; an id
      with a separator or a dot segment, which [path.join] would resolve
      to some other directory, is outside the model.
    - A string is a list of code units below 256; file contents are bytes.
    - What the handlers read from their environment ([Date.now()],
      [crypto.randomUUID()] and the time stamp the file system puts on a
      written file) comes with each request as an [env].
    - Of the possible storage failures one is modelled, the one that
      [mergeChunks] has a listener for: a chunk file that does not
      exist, which rejects the promise of the handler.  Every other file
      operation succeeds.  In particular the output stream of
      [mergeChunks] does not fail: it is given no ['error'] listener, so
      an error of it would not reach the callback of [writer.end] alone
      but end the process, which no result of a handler describes.
    - The upload code of the browser client, [public/app.js], is embedded
      as well.  Its requests go through [fetch], which hands a request to
      the server and the answer back, or loses one of the two. *)

From stdpp Require Import gmap strings list fin_maps sorting pretty.
From Stdlib Require Import ZArith Lia Ascii SpecFloat.

Open Scope Z_scope.

(** ** Data *)

Abbreviation bytes := (list Byte.byte).

Inductive jsnum :=
| JNum (z : Z)
| JNaN.

(** The object built by [POST /api/uploads/init]; [meta.json] holds the same
    fields. *)
Record session := mkSession {
  uploadId : string;
  originalName : string;
  totalSize : Z;
  totalChunks : jsnum;
  mimeType : string;
  createdAt : Z;
  receivedChunks : list Z
}.

(** The object built by [POST /api/streams/init].  [writer] is an append
    handle on [FINAL_ROOT/finalName]; what is written through it lands in
    the file of that name, so the name stands for the handle. *)
Record liveStream := mkLive {
  streamId : string;
  finalName : string;
  liveMimeType : string;
  chunkCount : Z;
  bytesWritten : Z;
  startedAt : Z
}.

(** A file of [uploads/final]: its contents and [mtime] (milliseconds). *)
Record file := mkFile {
  contents : bytes;
  mtime : Z
}.

(** The directory [uploads/tmp/<uploadId>]: [meta.json] when it has been
    written, and the files [chunk-<i>.part] by their index. *)
Record sessionDir := mkDir {
  meta_json : option session;
  parts : gmap Z bytes
}.

Record server := mkServer {
  sessions : gmap string session;
  liveStreams : gmap string liveStream;
  tmp_root : gmap string sessionDir;
  final_root : gmap string file
}.

Definition empty_server : server := mkServer ∅ ∅ ∅ ∅.

Record env := mkEnv {
  now : Z;            (* Date.now(), new Date() *)
  uuid : string;      (* crypto.randomUUID() *)
  stamp : Z           (* mtime given to the files written by this request *)
}.

Record fileInfo := mkInfo {
  name : string;
  sizeBytes : Z;
  modifiedAt : Z
}.

Inductive request :=
| UploadInit (filename : option string) (size : option Z)
             (chunks : option jsnum) (mime : option string)
| UploadStatus (id : string)
| UploadChunk (id : string) (index : jsnum) (chunk : option bytes)
| StreamInit (filename : option string) (mime : option string)
| StreamChunk (id : string) (chunk : option bytes)
| StreamFinish (id : string)
| ListFiles.

Inductive response :=
| UploadCreated (id : string)                                   (* 201 *)
| UploadStatusOk (id : string) (total : jsnum)
                 (received : list Z) (complete : bool)          (* 200 *)
| ChunkAccepted (id : string) (index : Z) (received : Z)
                (total : jsnum) (complete : bool)
                (output : option string)                        (* 202 *)
| StreamCreated (id : string) (file : string)                   (* 201 *)
| LiveAccepted (id : string) (received : Z) (written : Z)       (* 202 *)
| LiveFinished (id : string) (output : string)
               (written : Z) (chunks : Z)                       (* 200 *)
| FileList (files : list fileInfo)                              (* 200 *)
| BadRequest (error : string)                                   (* 400 *)
| NotFound (error : string)                                     (* 404 *)
| PayloadRefused                 (* multer: LIMIT_FILE_SIZE, no handler run *)
| Rejected.                      (* the handler's promise is rejected *)

(** ** Helpers of [server.js] *)

(** [/[^a-zA-Z0-9._-]/] *)
Definition safe_char (c : Ascii.ascii) : bool :=
  let n := Z.of_nat (Ascii.nat_of_ascii c) in
  ((97 <=? n) && (n <=? 122)) || ((65 <=? n) && (n <=? 90))
  || ((48 <=? n) && (n <=? 57))
  || (n =? 46) || (n =? 95) || (n =? 45).

Fixpoint replace_unsafe (s : string) : string :=
  match s with
  | EmptyString => EmptyString
  | String c s' =>
      String (if safe_char c then c else "_"%char) (replace_unsafe s')
  end.

(** [(name || 'video.bin').replace(/[^a-zA-Z0-9._-]/g, '_')] *)
Definition safeName (name : option string) : string :=
  replace_unsafe
    match name with
    | Some EmptyString | None => "video.bin"
    | Some s => s
    end.

(** [fsp.mkdir(dir, { recursive: true })] *)
Definition mkdir_p (id : string) (tmp : gmap string sessionDir)
  : gmap string sessionDir :=
  match tmp !! id with
  | Some _ => tmp
  | None => <[id := mkDir None ∅]> tmp
  end.

(** [meta.json] is kept as the object [JSON.parse] reads back from it. *)
Definition writeSessionMeta (id : string) (meta : session)
    (tmp : gmap string sessionDir) : gmap string sessionDir :=
  let tmp := mkdir_p id tmp in
  match tmp !! id with
  | Some d => <[id := mkDir (Some meta) (parts d)]> tmp
  | None => tmp
  end.

(** [None] when reading [meta.json] throws. *)
Definition readSessionMeta (id : string) (tmp : gmap string sessionDir)
  : option session :=
  d ← tmp !! id; meta_json d.

(** [fsp.writeFile(chunkPath, req.file.buffer)] after the [mkdir]. *)
Definition write_chunk (id : string) (i : Z) (buf : bytes)
    (tmp : gmap string sessionDir) : gmap string sessionDir :=
  match tmp !! id with
  | Some d => <[id := mkDir (meta_json d) (<[i := buf]> (parts d))]> tmp
  | None => tmp
  end.

(** [fs.createReadStream(chunk-<i>.part)] in the directory of [id]. *)
Definition read_chunk (tmp : gmap string sessionDir) (id : string) (i : Z)
  : option bytes :=
  d ← tmp !! id; parts d !! i.

(** [`${Date.now()}-${safeName(name)}`] *)
Definition final_name (e : env) (name : option string) : string :=
  pretty (now e) +:+ "-" +:+ safeName name.

(** The number of turns of [for (let i = 0; i < meta.totalChunks; i += 1)]. *)
Definition turns (total : jsnum) : nat :=
  match total with
  | JNum z => Z.to_nat z
  | JNaN => 0%nat
  end.

(** The loop of [mergeChunks] from index [i] on, [n] turns left: the bytes
    piped into the writer, and whether every reader ended without error. *)
Fixpoint pipe_chunks (read : Z → option bytes) (n : nat) (i : Z)
    (written : bytes) : bytes * bool :=
  match n with
  | O => (written, true)
  | S n' =>
      match read i with
      | Some b => pipe_chunks read n' (i + 1) (written ++ b)
      | None => (written, false)
      end
  end.

Definition set_final (s : server) (fin : gmap string file) : server :=
  mkServer (sessions s) (liveStreams s) (tmp_root s) fin.

Definition set_tmp (s : server) (tmp : gmap string sessionDir) : server :=
  mkServer (sessions s) (liveStreams s) tmp (final_root s).

Definition set_sessions (s : server) (m : gmap string session) : server :=
  mkServer m (liveStreams s) (tmp_root s) (final_root s).

Definition set_live (s : server) (m : gmap string liveStream) : server :=
  mkServer (sessions s) m (tmp_root s) (final_root s).

(** [mergeChunks(meta)]: the output file is opened with flag [w], the chunk
    files are piped into it in index order, then the stream is ended.  The
    result is [None] when a reader fails and the promise is rejected; what
    was piped before stays in the output file. *)
Definition mergeChunks (e : env) (meta : session) (s : server)
  : server * option string :=
  let finalName := final_name e (Some (originalName meta)) in
  let '(written, read_ok) :=
    pipe_chunks (read_chunk (tmp_root s) (uploadId meta))
                (turns (totalChunks meta)) 0 [] in
  let s' := set_final s (<[finalName := mkFile written (stamp e)]> (final_root s)) in
  if read_ok then (s', Some finalName) else (s', None).

(** [session.receivedChunks.length === session.totalChunks] *)
Definition all_received (received : list Z) (total : jsnum) : bool :=
  match total with
  | JNum z => bool_decide (Z.of_nat (length received) = z)
  | JNaN => false
  end.

(** [sessions.get(uploadId)], and on a miss [readSessionMeta] followed by
    [sessions.set]; [None] is the [catch] branch. *)
Definition find_session (id : string) (s : server)
  : option (session * server) :=
  match sessions s !! id with
  | Some x => Some (x, s)
  | None =>
      match readSessionMeta id (tmp_root s) with
      | Some x => Some (x, set_sessions s (<[id := x]> (sessions s)))
      | None => None
      end
  end.

(** [multer({ limits: { fileSize: 50 * 1024 * 1024 } }).single('chunk')] *)
Definition fileSize_limit : Z := 50 * 1024 * 1024.

Definition upload_single (chunk : option bytes) : bool :=
  match chunk with
  | Some buf => bool_decide (Z.of_nat (length buf) ≤ fileSize_limit)
  | None => true
  end.

(** ** Route handlers *)

(** [POST /api/uploads/init] *)
Definition upload_init (e : env) (filename : option string) (size : option Z)
    (chunks : option jsnum) (mime : option string) (s : server)
  : server * response :=
  match filename with
  | None | Some EmptyString => (s, BadRequest "filename is required")
  | Some _ =>
      let id := uuid e in
      let x := mkSession id (safeName filename) (default 0 size)
                 (default (JNum 1) chunks)
                 (default "application/octet-stream"%string mime)
                 (now e) [] in
      let s := set_sessions s (<[id := x]> (sessions s)) in
      (set_tmp s (writeSessionMeta id x (tmp_root s)), UploadCreated id)
  end.

(** [GET /api/uploads/:uploadId/status] *)
Definition upload_status (id : string) (s : server) : server * response :=
  match find_session id s with
  | None => (s, NotFound "upload session not found")
  | Some (x, s) =>
      (s, UploadStatusOk id (totalChunks x) (receivedChunks x)
            (all_received (receivedChunks x) (totalChunks x)))
  end.

(** [includes], [push] and [sort((a, b) => a - b)] *)
Definition record_chunk (i : Z) (received : list Z) : list Z :=
  if bool_decide (i ∈ received) then received
  else merge_sort Z.le (received ++ [i]).

Definition set_received (x : session) (received : list Z) : session :=
  mkSession (uploadId x) (originalName x) (totalSize x) (totalChunks x)
            (mimeType x) (createdAt x) received.

(** Lines 149-158 of the chunk route: the chunk file is written and its
    index recorded.  [session] is the object [sessions] holds, so the map
    sees the new list at once. *)
Definition store_chunk (id : string) (i : Z) (buf : bytes) (x : session)
    (s : server) : session * server :=
  let tmp := write_chunk id i buf (mkdir_p id (tmp_root s)) in
  let x := set_received x (record_chunk i (receivedChunks x)) in
  (x, mkServer (<[id := x]> (sessions s)) (liveStreams s) tmp (final_root s)).

(** [Number.isNaN(chunkIndex) || chunkIndex < 0] gives [None]. *)
Definition chunk_index (index : jsnum) : option Z :=
  match index with
  | JNum i => if bool_decide (i < 0) then None else Some i
  | JNaN => None
  end.

(** [POST /api/uploads/:uploadId/chunk] *)
Definition upload_chunk (e : env) (id : string) (index : jsnum)
    (chunk : option bytes) (s : server) : server * response :=
  if negb (upload_single chunk) then (s, PayloadRefused) else
  match chunk with
  | None => (s, BadRequest "chunk file is required")
  | Some buf =>
      match chunk_index index with
      | None => (s, BadRequest "valid chunk index is required")
      | Some i =>
          match find_session id s with
          | None => (s, NotFound "upload session not found")
          | Some (x, s) =>
              let '(x, s) := store_chunk id i buf x s in
              let received := Z.of_nat (length (receivedChunks x)) in
              if all_received (receivedChunks x) (totalChunks x) then
                match mergeChunks e x s with
                | (s, None) => (s, Rejected)
                | (s, Some out) =>
                    (* fsp.rm(sessionDir), sessions.delete(uploadId) *)
                    (mkServer (delete id (sessions s)) (liveStreams s)
                       (delete id (tmp_root s)) (final_root s),
                     ChunkAccepted id i received (totalChunks x) true
                       (Some out))
                end
              else
                (set_tmp s (writeSessionMeta id x (tmp_root s)),
                 ChunkAccepted id i received (totalChunks x) false None)
          end
      end
  end.

(** ** [Number(index)]

    Line 129 of the chunk route applies [Number] to the text of the form
    field [index].  For a string this is [StringToNumber] of ECMAScript,
    which is embedded here for strings of code units below 256. *)
(** A JavaScript number is a binary64 value of IEEE 754: a [spec_float] at
    precision 53 whose exponents end at 1024. *)
Definition number : Type := spec_float.

Definition prec64 : Z := 53.
Definition emax64 : Z := 1024.

(** [StrWhiteSpaceChar]: the white space and line terminator code points.
    Below 256 these are TAB, LF, VT, FF, CR, SP and NBSP. *)
Definition StrWhiteSpaceChar (a : ascii) : bool :=
  existsb (N.eqb (N_of_ascii a)) [9; 10; 11; 12; 13; 32; 160]%N.

Fixpoint skip_white (l : list ascii) : list ascii :=
  match l with
  | a :: l' => if StrWhiteSpaceChar a then skip_white l' else l
  | [] => []
  end.

(** The text between the leading and the trailing white space. *)
Definition trimmed (l : list ascii) : list ascii :=
  rev (skip_white (rev (skip_white l))).

(** The value of a digit: [0-9], [a-f] and [A-F]. *)
Definition digit_value (a : ascii) : option N :=
  let c := N_of_ascii a in
  if (48 <=? c)%N && (c <=? 57)%N then Some (c - 48)%N
  else if (97 <=? c)%N && (c <=? 102)%N then Some (c - 87)%N
  else if (65 <=? c)%N && (c <=? 70)%N then Some (c - 55)%N
  else None.

(** The longest prefix of [l] made of digits of [base]: the number it
    denotes when it continues the digits that gave [acc], the count of its
    digits added to [n], and the rest of [l]. *)
Fixpoint numeral (base : N) (l : list ascii) (acc : N) (n : nat)
  : N * nat * list ascii :=
  match l with
  | a :: l' =>
      match digit_value a with
      | Some d =>
          if (d <? base)%N then numeral base l' (acc * base + d)%N (S n)
          else (acc, n, l)
      | None => (acc, n, l)
      end
  | [] => (acc, n, [])
  end.

(** The number value of the real [m * 10 ^ d]: the nearest binary64, a tie
    going to the even mantissa; [+0] for 0, and for what is too small;
    [Infinity] for what is too large. *)
Definition round_decimal (m : N) (d : Z) : number :=
  match m with
  | N0 => S754_zero false
  | Npos p =>
      match d with
      | Zneg k =>
          SFdiv prec64 emax64 (S754_finite false p 0)
            (S754_finite false (10 ^ k)%positive 0)
      | _ => binary_normalize prec64 emax64 (Zpos p * 10 ^ d) 0 false
      end
  end.

(** [ExponentPart], optional, up to the end of the text. *)
Definition ExponentPart (l : list ascii) : option Z :=
  match l with
  | [] => Some 0
  | a :: l' =>
      if bool_decide (a = "e"%char ∨ a = "E"%char) then
        let '(neg, ds) :=
          match l' with
          | "+"%char :: ds => (false, ds)
          | "-"%char :: ds => (true, ds)
          | _ => (false, l')
          end in
        match numeral 10 ds 0 0 with
        | (v, S _, []) => Some (if neg : bool then - Z.of_N v else Z.of_N v)
        | _ => None
        end
      else None
  end.

(** [StrUnsignedDecimalLiteral]: [Infinity], or digits with an optional
    fraction and an optional exponent, at least one digit before the
    exponent. *)
Definition StrUnsignedDecimalLiteral (l : list ascii) : option number :=
  if decide (l = String.list_ascii_of_string "Infinity") then
    Some (S754_infinity false)
  else
    let '(int, n1, rest) := numeral 10 l 0 0 in
    let '(m, n2, rest) :=
      match rest with
      | "."%char :: frac => numeral 10 frac int 0
      | _ => (int, 0%nat, rest)
      end in
    if (n1 + n2 =? 0)%nat then None else
    ex ← ExponentPart rest; Some (round_decimal m (ex - Z.of_nat n2)).

(** [NonDecimalIntegerLiteral]: digits of base 2, 8 or 16 after their
    prefix, without a sign. *)
Definition NonDecimalIntegerLiteral (base : N) (l : list ascii)
  : option number :=
  match numeral base l 0 0 with
  | (v, S _, []) => Some (binary_normalize prec64 emax64 (Z.of_N v) 0 false)
  | _ => None
  end.

(** [StrNumericLiteral] *)
Definition StrNumericLiteral (l : list ascii) : option number :=
  match l with
  | "0"%char :: ("x" | "X")%char :: ds => NonDecimalIntegerLiteral 16 ds
  | "0"%char :: ("o" | "O")%char :: ds => NonDecimalIntegerLiteral 8 ds
  | "0"%char :: ("b" | "B")%char :: ds => NonDecimalIntegerLiteral 2 ds
  | "+"%char :: ds => StrUnsignedDecimalLiteral ds
  | "-"%char :: ds => SFopp <$> StrUnsignedDecimalLiteral ds
  | _ => StrUnsignedDecimalLiteral l
  end.

(** [StringToNumber]: white space alone is [+0], a numeric literal between
    white space is its value, everything else is [NaN]. *)
Definition StringToNumber (s : string) : number :=
  match trimmed (String.list_ascii_of_string s) with
  | [] => S754_zero false
  | l => default S754_nan (StrNumericLiteral l)
  end.

(** [Number(x)] for a field of a form: a string, or [undefined] when the
    form has no such field. *)
Definition Number (x : option string) : number :=
  match x with
  | Some s => StringToNumber s
  | None => S754_nan
  end.

Definition Number_isNaN (x : number) : bool :=
  match x with
  | S754_nan => true
  | _ => false
  end.

(** [x < 0] *)
Definition negative (x : number) : bool := SFltb x (S754_zero false).

(** The integer that a number is, if it is one. *)
Definition integral (x : number) : option Z :=
  match x with
  | S754_zero _ => Some 0
  | S754_finite s m (Zneg k) =>
      if (Zpos m mod 2 ^ Zpos k =? 0) then
        Some ((if s then -1 else 1) * (Zpos m / 2 ^ Zpos k))
      else None
  | S754_finite s m e => Some ((if s then -1 else 1) * (Zpos m * 2 ^ e))
  | _ => None
  end.

(** [POST /api/uploads/:uploadId/chunk] on the form as multer hands it
    over: [index] is the text of the field of that name, if the form has
    one.  Lines 128-147 are repeated on the number that [Number] makes of
    it.  What follows them is [upload_chunk] when the number is an integer.
    A fraction or [Infinity] passes line 135 as well; the chunk file it
    names is not one that the staging area of this model holds, and the
    result is [None]. *)
Definition upload_chunk_field (e : env) (id : string) (index : option string)
    (chunk : option bytes) (s : server) : option (server * response) :=
  let chunkIndex := Number index in
  if negb (upload_single chunk) then Some (s, PayloadRefused) else
  match chunk with
  | None => Some (s, BadRequest "chunk file is required")
  | Some _ =>
      if Number_isNaN chunkIndex || negative chunkIndex then
        Some (s, BadRequest "valid chunk index is required")
      else
        match find_session id s with
        | None => Some (s, NotFound "upload session not found")
        | Some _ =>
            i ← integral chunkIndex;
            Some (upload_chunk e id (JNum i) chunk s)
        end
  end.

(** [fs.createWriteStream(finalPath, { flags: 'a' })]: the file is created
    when it does not exist and left as it is otherwise. *)
Definition open_append (e : env) (f : string) (fin : gmap string file)
  : gmap string file :=
  match fin !! f with
  | Some _ => fin
  | None => <[f := mkFile [] (stamp e)]> fin
  end.

(** [state.writer.write(req.file.buffer, cb)] *)
Definition append_file (e : env) (f : string) (buf : bytes)
    (fin : gmap string file) : gmap string file :=
  match fin !! f with
  | Some old => <[f := mkFile (contents old ++ buf) (stamp e)]> fin
  | None => <[f := mkFile buf (stamp e)]> fin
  end.

(** [POST /api/streams/init] *)
Definition stream_init (e : env) (filename : option string)
    (mime : option string) (s : server) : server * response :=
  let id := uuid e in
  let f := final_name e (Some (default "live.webm"%string filename)) in
  let st := mkLive id f (default "video/webm"%string mime) 0 0 (now e) in
  (mkServer (sessions s) (<[id := st]> (liveStreams s)) (tmp_root s)
     (open_append e f (final_root s)),
   StreamCreated id f).

(** [POST /api/streams/:streamId/chunk] *)
Definition stream_chunk (e : env) (id : string) (chunk : option bytes)
    (s : server) : server * response :=
  if negb (upload_single chunk) then (s, PayloadRefused) else
  match liveStreams s !! id with
  | None => (s, NotFound "live stream session not found")
  | Some st =>
      match chunk with
      | None => (s, BadRequest "chunk is required")
      | Some buf =>
          let st := mkLive (streamId st) (finalName st) (liveMimeType st)
                      (chunkCount st + 1)
                      (bytesWritten st + Z.of_nat (length buf))
                      (startedAt st) in
          (mkServer (sessions s) (<[id := st]> (liveStreams s)) (tmp_root s)
             (append_file e (finalName st) buf (final_root s)),
           LiveAccepted id (chunkCount st) (bytesWritten st))
      end
  end.

(** [POST /api/streams/:streamId/finish] *)
Definition stream_finish (id : string) (s : server) : server * response :=
  match liveStreams s !! id with
  | None => (s, NotFound "live stream session not found")
  | Some st =>
      (set_live s (delete id (liveStreams s)),
       LiveFinished id (finalName st) (bytesWritten st) (chunkCount st))
  end.

(** [(a, b) => b.modifiedAt.localeCompare(a.modifiedAt)] is negative or zero:
    [a] may stand before [b].  The two operands are ISO-8601 renderings of
    the [mtime]s, of one width, so they compare as the time stamps do. *)
Definition newer_first (a b : fileInfo) : Prop := modifiedAt b ≤ modifiedAt a.

Global Instance newer_first_dec : RelDecision newer_first.
Proof. intros a b. unfold newer_first. apply _. Defined.

Definition file_info (entry : string * file) : fileInfo :=
  mkInfo entry.1 (Z.of_nat (length (contents entry.2))) (mtime entry.2).

(** [GET /api/files]; [uploads/final] holds regular files only, so
    [entry.isFile()] keeps every entry of [readdir]. *)
Definition list_files (s : server) : list fileInfo :=
  merge_sort newer_first (file_info <$> map_to_list (final_root s)).

(** One request. *)
Definition step (e : env) (r : request) (s : server) : server * response :=
  match r with
  | UploadInit filename size chunks mime =>
      upload_init e filename size chunks mime s
  | UploadStatus id => upload_status id s
  | UploadChunk id index chunk => upload_chunk e id index chunk s
  | StreamInit filename mime => stream_init e filename mime s
  | StreamChunk id chunk => stream_chunk e id chunk s
  | StreamFinish id => stream_finish id s
  | ListFiles => (s, FileList (list_files s))
  end.

(** A sequence of requests, each with its environment; the responses come
    back in request order. *)
Fixpoint run (rs : list (env * request)) (s : server)
  : server * list response :=
  match rs with
  | [] => (s, [])
  | (e, r) :: rs' =>
      let '(s1, o) := step e r s in
      let '(s2, os) := run rs' s1 in
      (s2, o :: os)
  end.

(** ** Scenarios *)

(** Payloads of the examples: the bytes of an ASCII string. *)
Definition ascii_bytes (s : string) : bytes := String.list_byte_of_string s.

(** The requests that submit the chunks [P k] of session [id], one for each
    [(e, k)] of [order], in that order. *)
Definition submissions (id : string) (P : nat → bytes)
    (order : list (env * nat)) : list (env * request) :=
  (λ ek, (ek.1, UploadChunk id (JNum (Z.of_nat ek.2)) (Some (P ek.2))))
    <$> order.

(** The payloads of chunks [0 .. N-1], one after the other. *)
Definition in_index_order (P : nat → bytes) (N : nat) : bytes :=
  concat (P <$> seq 0 N).

(** The [complete] field of the answer to a chunk submission. *)
Definition complete_flag (o : response) : option bool :=
  match o with
  | ChunkAccepted _ _ _ _ c _ => Some c
  | _ => None
  end.

(** The outcomes of the chunk route that lie behind the call of
    [mergeChunks]: completion, and the rejected promise. *)
Definition merge_entered (o : response) : bool :=
  match o with
  | ChunkAccepted _ _ _ _ true _ | Rejected => true
  | _ => false
  end.

(** Session [id] is in [sessions] with the fields of [x0], the indices [ks]
    are the ones recorded as received, and the chunk file of each [k] of
    [ks] holds [P k]. *)
Definition staged (id : string) (x0 : session) (P : nat → bytes)
    (ks : list nat) (s : server) : Prop :=
  ∃ r, sessions s !! id = Some (set_received x0 r)
       ∧ r ≡ₚ Z.of_nat <$> ks
       ∧ ∀ k, k ∈ ks → read_chunk (tmp_root s) id (Z.of_nat k) = Some (P k).

(** The answers to [submissions id P order] for a session of [N] chunks
    named [oname], [got] of which were received before. *)
Fixpoint chunk_responses (id : string) (oname : string) (N : nat)
    (got : nat) (order : list (env * nat)) : list response :=
  match order with
  | [] => []
  | (e, k) :: rest =>
      let complete := bool_decide (S got = N) in
      ChunkAccepted id (Z.of_nat k) (Z.of_nat (S got)) (JNum (Z.of_nat N))
        complete
        (if complete then Some (final_name e (Some oname)) else None)
      :: chunk_responses id oname N (S got) rest
  end.

(** The upload of section 8 of the specification: [clip.mp4] in the three
    chunks [AAA], [BB] and [C]. *)
Definition clip_chunk (k : nat) : bytes :=
  match k with
  | 0%nat => ascii_bytes "AAA"
  | 1%nat => ascii_bytes "BB"
  | _ => ascii_bytes "C"
  end.

Definition at_time (t : Z) (id : string) : env := mkEnv t id t.

(** The session object that a route finds for [id]: the one in [sessions],
    else the one read back from [meta.json]. *)
Definition known (id : string) (s : server) : option session :=
  match sessions s !! id with
  | Some x => Some x
  | None => readSessionMeta id (tmp_root s)
  end.

(** A request that would put a new session under [id]: an [init] whose
    [randomUUID()] returns [id]. *)
Definition reuses_id (id : string) (er : env * request) : Prop :=
  match er.2 with
  | UploadInit _ _ _ _ => uuid er.1 = id
  | _ => False
  end.

(** A request of one of the two routes that look session [id] up. *)
Definition addresses (id : string) (r : request) : Prop :=
  match r with
  | UploadStatus id' | UploadChunk id' _ _ => id' = id
  | _ => False
  end.

(** The requests that append the payloads of [ps] to live stream [id]. *)
Definition appends (id : string) (ps : list (env * bytes))
  : list (env * request) :=
  (λ ep, (ep.1, StreamChunk id (Some ep.2))) <$> ps.

(** The answers to [appends id ps] when [count] chunks and [written] bytes
    went before. *)
Fixpoint live_responses (id : string) (count written : Z)
    (ps : list (env * bytes)) : list response :=
  match ps with
  | [] => []
  | (_, p) :: rest =>
      let count := count + 1 in
      let written := written + Z.of_nat (length p) in
      LiveAccepted id count written :: live_responses id count written rest
  end.

(** The [mtime] of a file last written at [t0] after the appends [ps]. *)
Definition last_stamp (t0 : Z) (ps : list (env * bytes)) : Z :=
  match last ps with
  | Some (e, _) => stamp e
  | None => t0
  end.

(** Two uploads of [clip.mp4], one chunk each, whose merges read the same
    [Date.now()]. *)
Definition two_uploads_same_ms : list (env * request) :=
  [(at_time 1000 "u1", UploadInit (Some "clip.mp4"%string) None
                         (Some (JNum 1)) None);
   (at_time 1001 "u2", UploadInit (Some "clip.mp4"%string) None
                         (Some (JNum 1)) None);
   (at_time 2000 "", UploadChunk "u1" (JNum 0) (Some (ascii_bytes "AAA")));
   (at_time 2000 "", UploadChunk "u2" (JNum 0) (Some (ascii_bytes "BB")))].

(** Decimal digits, for the leading part of a file name. *)
Definition is_digit (c : ascii) : bool :=
  let n := Z.of_nat (nat_of_ascii c) in (48 <=? n) && (n <=? 57).

Fixpoint digits (s : string) : bool :=
  match s with
  | EmptyString => true
  | String c s' => is_digit c && digits s'
  end.

(** No live stream has its append handle on file [f]. *)
Definition no_writer (f : string) (s : server) : Prop :=
  ∀ id st, liveStreams s !! id = Some st → finalName st ≠ f.

(** A declared [totalChunks] that no number of received chunks equals:
    [NaN], zero or a negative number. *)
Definition no_count (total : jsnum) : Prop :=
  match total with
  | JNum z => z ≤ 0
  | JNaN => True
  end.

(** The chunk payload that a request puts under an index of session [id]:
    the map [m] of the payloads so far, after request [er]. *)
Definition note_payload (id : string) (m : gmap Z bytes)
    (er : env * request) : gmap Z bytes :=
  match er.2 with
  | UploadChunk id' (JNum k) (Some b) =>
      if decide (id' = id) then <[k := b]> m else m
  | _ => m
  end.

(** The latest payload submitted for each index of session [id] in [rs]. *)
Definition payloads (id : string) (m : gmap Z bytes)
    (rs : list (env * request)) : gmap Z bytes :=
  foldl (note_payload id) m rs.

(** Request [er] does not create session [id] anew, and when it submits a
    chunk for [id] the chunk has a payload that multer lets through and an
    index from 0 to [N - 1]. *)
Definition in_range_for (id : string) (N : nat) (er : env * request) : Prop :=
  ¬ reuses_id id er
  ∧ match er.2 with
    | UploadChunk id' index chunk =>
        id' = id →
        ∃ k b, index = JNum k ∧ 0 ≤ k < Z.of_nat N ∧ chunk = Some b
               ∧ upload_single (Some b) = true
    | _ => True
    end.

(** Session [id] is in [sessions] with the fields of [x0], records the
    indices of [m], and the chunk file of each holds the payload of [m]. *)
Definition staged_map (id : string) (x0 : session) (m : gmap Z bytes)
    (s : server) : Prop :=
  ∃ r, sessions s !! id = Some (set_received x0 r)
       ∧ r ≡ₚ elements (dom m)
       ∧ ∀ k b, m !! k = Some b → read_chunk (tmp_root s) id k = Some b.

(** Requests that follow [init] of [u1] (three chunks): chunk 2, another
    upload from start to end, chunk 0 twice with different bytes, and a
    status request. *)
Definition mixed_requests : list (env * request) :=
  [(at_time 1001 "", UploadChunk "u1" (JNum 2) (Some (ascii_bytes "C")));
   (at_time 1002 "u2", UploadInit (Some "other.bin"%string) None
                         (Some (JNum 1)) None);
   (at_time 1003 "", UploadChunk "u1" (JNum 0) (Some (ascii_bytes "XXX")));
   (at_time 1004 "", UploadChunk "u2" (JNum 0) (Some (ascii_bytes "ZZ")));
   (at_time 1005 "", UploadStatus "u1");
   (at_time 1006 "", UploadChunk "u1" (JNum 0) (Some (ascii_bytes "AAA")))].

(** The payloads that the requests [rs] append to live stream [id], in
    request order: those of its chunk requests that multer lets through. *)
Fixpoint appended (id : string) (rs : list (env * request)) : list bytes :=
  match rs with
  | [] => []
  | (_, StreamChunk id' (Some b)) :: rs' =>
      if bool_decide (id' = id) && upload_single (Some b)
      then b :: appended id rs'
      else appended id rs'
  | _ :: rs' => appended id rs'
  end.

(** Request [er] reads a clock value other than the one of [e0], does not
    finish stream [id] and does not initialise a stream under the same id. *)
Definition apart_from (id : string) (e0 : env) (er : env * request) : Prop :=
  now er.1 ≠ now e0
  ∧ match er.2 with
    | StreamInit _ _ => uuid er.1 ≠ id
    | StreamFinish id' => id' ≠ id
    | _ => True
    end.

(** Live stream [id] is open on file [f], has counted the payloads [ps],
    the file holds them, and no other stream is open on [f]. *)
Definition streaming (id f : string) (ps : list bytes) (s : server) : Prop :=
  (∃ st, liveStreams s !! id = Some st ∧ finalName st = f
         ∧ chunkCount st = Z.of_nat (length ps)
         ∧ bytesWritten st = Z.of_nat (length (concat ps)))
  ∧ (∃ file, final_root s !! f = Some file ∧ contents file = concat ps)
  ∧ ∀ id' st', id' ≠ id → liveStreams s !! id' = Some st' →
               finalName st' ≠ f.

(** Requests that follow the [init] of live stream [s1]: two appends, with
    a whole upload and a second live stream in between. *)
Definition mixed_live_requests : list (env * request) :=
  [(at_time 1001 "", StreamChunk "s1" (Some (ascii_bytes "AAA")));
   (at_time 1002 "u1", UploadInit (Some "live.webm"%string) None None None);
   (at_time 1003 "", UploadChunk "u1" (JNum 0) (Some (ascii_bytes "ZZ")));
   (at_time 1004 "s2", StreamInit None None);
   (at_time 1005 "", StreamChunk "s2" (Some (ascii_bytes "YY")));
   (at_time 1006 "", StreamChunk "s1" (Some (ascii_bytes "BB")));
   (at_time 1007 "", StreamFinish "s2")].

(** ** The browser client, [public/app.js]

    The client code that uploads a file: [initSession], [getSessionStatus],
    [sendChunk], [uploadFile], the two click handlers and
    [refreshSavedFiles].  It awaits every request before it sends the next,
    so its requests reach the server one at a time.  The progress bar is
    left out.  Only the answers with a status from 200 to 299 are [ok]:
    a payload that multer refuses and a handler whose promise is rejected
    are taken to end in an answer that is not. *)

Definition CHUNK_SIZE : Z := 4 * 1024 * 1024.
Definition MAX_RETRIES : nat := 3.

(** A [File] of the file input. *)
Record File := mkPicked {
  fileName : string;
  fileType : string;
  fileBytes : bytes
}.

Definition fileSize (f : File) : Z := Z.of_nat (length (fileBytes f)).

(** [Math.ceil(file.size / CHUNK_SIZE)].  [CHUNK_SIZE] is a power of two, so
    the floating-point quotient is exact. *)
Definition chunk_count (size : Z) : Z := (size + CHUNK_SIZE - 1) / CHUNK_SIZE.

(** [file.slice(start, end)] for [start] and [end] that are not negative. *)
Definition slice (f : File) (start stop : Z) : bytes :=
  take (Z.to_nat (stop - start)) (drop (Z.to_nat start) (fileBytes f)).

(** The blob that [sendChunk] cuts out for [index]. *)
Definition chunk_blob (f : File) (index : Z) : bytes :=
  let start := index * CHUNK_SIZE in
  let stop := Z.min (start + CHUNK_SIZE) (fileSize f) in
  slice f start stop.

(** What becomes of one [fetch]: the request is served and answered; it
    does not reach the server; or it is served and the answer is lost.  In
    the last two cases the promise of [fetch] is rejected. *)
Inductive link := Delivered | RequestLost | ResponseLost.

(** The server and the number of requests sent to it so far.  Request
    number [k] is served in the environment [(net k).1] and travels over
    [(net k).2]. *)
Record world := mkWorld {
  srv : server;
  sent : nat
}.

Definition fetch (net : nat → env * link) (r : request) (w : world)
  : world * option response :=
  let n := sent w in
  match (net n).2 with
  | Delivered =>
      let '(s, o) := step (net n).1 r (srv w) in (mkWorld s (S n), Some o)
  | RequestLost => (mkWorld (srv w) (S n), None)
  | ResponseLost => (mkWorld (step (net n).1 r (srv w)).1 (S n), None)
  end.

(** The errors that the upload code throws or passes on. *)
Inductive message :=
| InitFailed                  (* 'Failed to initialize upload session' *)
| SessionNotFound             (* 'Upload session not found. Start a new upload.' *)
| ChunkFailed (index : Z)     (* `Chunk ${index} failed` *)
| FetchFailed.                (* the error of a rejected [fetch] *)

(** The texts given to [setStatus]. *)
Inductive statusText :=
| NoStatus
| PickFileFirst               (* 'Pick a video file first.' *)
| NeedFileAndSession          (* 'Need selected file + remembered upload session to resume.' *)
| Uploading (chunk total : Z) (attempt : nat)
| UploadComplete (output : option string)
| UploadFinished              (* 'Upload finished.' *)
| Failed (m : message).       (* setStatus(error.message) *)

(** What the page keeps: the status line, the two entries of
    [localStorage], and the list of saved files it shows. *)
Record client := mkClient {
  status : statusText;
  lastUploadId : option string;
  lastFileName : option string;
  savedFiles : list fileInfo
}.

Definition setStatus (t : statusText) (c : client) : client :=
  mkClient t (lastUploadId c) (lastFileName c) (savedFiles c).

(** [refreshSavedFiles()]; the route answers with the list of files only.
    [Some m] is the error thrown. *)
Definition refreshSavedFiles (net : nat → env * link) (w : world) (c : client)
  : world * client * option message :=
  match fetch net ListFiles w with
  | (w, Some (FileList files)) =>
      (w, mkClient (status c) (lastUploadId c) (lastFileName c) files, None)
  | (w, Some _) => (w, c, None)
  | (w, None) => (w, c, Some FetchFailed)
  end.

(** [initSession(file)].  [response.ok] holds of the answers with a status
    from 200 to 299; of these the [init] route sends [UploadCreated] only. *)
Definition initSession (net : nat → env * link) (f : File) (w : world)
    (c : client) : world * client * (message + string) :=
  let totalChunks := chunk_count (fileSize f) in
  let mime := match fileType f with
              | EmptyString => "application/octet-stream"%string
              | t => t
              end in
  match fetch net (UploadInit (Some (fileName f)) (Some (fileSize f))
                     (Some (JNum totalChunks)) (Some mime)) w with
  | (w, Some (UploadCreated id)) =>
      (w, mkClient (status c) (Some id) (Some (fileName f)) (savedFiles c),
       inr id)
  | (w, Some _) => (w, c, inl InitFailed)
  | (w, None) => (w, c, inl FetchFailed)
  end.

(** [getSessionStatus(uploadId)], as far as its caller reads the answer:
    [status.receivedChunks]. *)
Definition getSessionStatus (net : nat → env * link) (id : string)
    (w : world) : world * (message + list Z) :=
  match fetch net (UploadStatus id) w with
  | (w, Some (UploadStatusOk _ _ received _)) => (w, inr received)
  | (w, Some _) => (w, inl SessionNotFound)
  | (w, None) => (w, inl FetchFailed)
  end.

(** [sendChunk(uploadId, file, index, totalChunks)]: the answer's [complete]
    and [output].  The form field [totalChunks] is not read by the server. *)
Definition sendChunk (net : nat → env * link) (id : string) (f : File)
    (index : Z) (w : world) : world * (message + bool * option string) :=
  match fetch net (UploadChunk id (JNum index) (Some (chunk_blob f index))) w
  with
  | (w, Some (ChunkAccepted _ _ _ _ complete output)) =>
      (w, inr (complete, output))
  | (w, Some _) => (w, inl (ChunkFailed index))
  | (w, None) => (w, inl FetchFailed)
  end.

(** How the body of the [for] loop of [uploadFile] is left. *)
Inductive flow :=
| Next                        (* on to the next index *)
| Return
| Throw (m : message).

(** [while (!done && attempts < MAX_RETRIES)] for one index; [left] is
    [MAX_RETRIES - attempts].  When [refreshSavedFiles] throws, [done] is
    set already: unless the error is thrown on, the loop is left and the
    next index follows. *)
Fixpoint send_retrying (net : nat → env * link) (id : string) (f : File)
    (index total : Z) (left attempts : nat) (w : world) (c : client)
  : world * client * flow :=
  match left with
  | O => (w, c, Next)
  | S left' =>
      let attempts := S attempts in
      let c := setStatus (Uploading (index + 1) total attempts) c in
      match sendChunk net id f index w with
      | (w, inr (complete, output)) =>
          if complete then
            let c := setStatus (UploadComplete output) c in
            let c := mkClient (status c) None (lastFileName c)
                       (savedFiles c) in
            match refreshSavedFiles net w c with
            | (w, c, None) => (w, c, Return)
            | (w, c, Some m) =>
                if bool_decide (MAX_RETRIES ≤ attempts)%nat
                then (w, c, Throw m) else (w, c, Next)
            end
          else (w, c, Next)
      | (w, inl m) =>
          if bool_decide (MAX_RETRIES ≤ attempts)%nat then (w, c, Throw m)
          else send_retrying net id f index total left' attempts w c
      end
  end.

(** [for (let index = 0; index < totalChunks; index += 1)] from [index] on;
    [left] is [totalChunks - index]. *)
Fixpoint upload_from (net : nat → env * link) (id : string) (f : File)
    (total : Z) (uploadedSet : gset Z) (left : nat) (index : Z) (w : world)
    (c : client) : world * client * option message :=
  match left with
  | O => (w, setStatus UploadFinished c, None)
  | S left' =>
      if bool_decide (index ∈ uploadedSet)
      then upload_from net id f total uploadedSet left' (index + 1) w c
      else
        match send_retrying net id f index total MAX_RETRIES 0 w c with
        | (w, c, Next) =>
            upload_from net id f total uploadedSet left' (index + 1) w c
        | (w, c, Return) => (w, c, None)
        | (w, c, Throw m) => (w, c, Some m)
        end
  end.

(** [uploadFile(file, uploadId, uploadedSet)]; [session?.totalChunks] and
    the quotient after [||] are the same number. *)
Definition uploadFile (net : nat → env * link) (f : File)
    (uploadId : option string) (uploadedSet : gset Z) (w : world)
    (c : client) : world * client * option message :=
  let total := chunk_count (fileSize f) in
  match uploadId with
  | Some (String _ _ as id) =>
      upload_from net id f total uploadedSet (Z.to_nat total) 0 w c
  | _ =>
      match initSession net f w c with
      | (w, c, inr id) =>
          upload_from net id f total uploadedSet (Z.to_nat total) 0 w c
      | (w, c, inl m) => (w, c, Some m)
      end
  end.

(** The click handler of the start button. *)
Definition start_click (net : nat → env * link) (picked : option File)
    (w : world) (c : client) : world * client :=
  match picked with
  | None => (w, setStatus PickFileFirst c)
  | Some f =>
      match uploadFile net f None ∅ w c with
      | (w, c, None) => (w, c)
      | (w, c, Some m) => (w, setStatus (Failed m) c)
      end
  end.

(** The click handler of the resume button. *)
Definition resume_click (net : nat → env * link) (picked : option File)
    (w : world) (c : client) : world * client :=
  match picked, lastUploadId c with
  | Some f, Some (String _ _ as id) =>
      match getSessionStatus net id w with
      | (w, inr received) =>
          match uploadFile net f (Some id) (list_to_set received) w c with
          | (w, c, None) => (w, c)
          | (w, c, Some m) => (w, setStatus (Failed m) c)
          end
      | (w, inl m) => (w, setStatus (Failed m) c)
      end
  | _, _ => (w, setStatus NeedFileAndSession c)
  end.

(** A page that has just been loaded, with an empty [localStorage]. *)
Definition new_client : client := mkClient NoStatus None None [].

(** Every request is served and answered, in environment [e k]. *)
Definition reliable (e : nat → env) : nat → env * link :=
  λ k, (e k, Delivered).

(** The blob of chunk [k] of file [f]. *)
Definition blob_of (f : File) (k : nat) : bytes := chunk_blob f (Z.of_nat k).

(** A file of six bytes, and a network that loses the second and the third
    request on their way to the server. *)
Definition clip_file : File :=
  mkPicked "clip.mp4" "video/mp4" (ascii_bytes "AAABBC").

Definition lossy_net : nat → env * link :=
  λ k, (at_time (1000 + Z.of_nat k) "u1",
        match k with
        | 1%nat | 2%nat => RequestLost
        | _ => Delivered
        end).

(** The chunk files after a resumed upload: for an index the server had, the
    stored bytes [P k]; for the others the blob of the picked file. *)
Definition resumed (f : File) (P : nat → bytes) (ks : list nat) (k : nat)
  : bytes :=
  if decide (k ∈ ks) then P k else blob_of f k.

(** A network that loses the answer to request number [lost] and delivers
    everything else; request [k] is served at time [1000 + k]. *)
Definition answer_lost (lost : nat) : nat → env * link :=
  λ k, (at_time (1000 + Z.of_nat k) "u1",
        if decide (k = lost) then ResponseLost else Delivered).

(** The answers with a status of 400, 404, or multer's refusal. *)
Definition refused (o : response) : bool :=
  match o with
  | BadRequest _ | NotFound _ | PayloadRefused => true
  | _ => false
  end.

(** The chunk files 0 to [k - 1] of directory [id], one after the other:
    what [mergeChunks] has piped into the output file when the reader of
    chunk [k] fails. *)
Definition piped (tmp : gmap string sessionDir) (id : string) (k : nat)
  : bytes :=
  concat ((λ j, default [] (read_chunk tmp id (Z.of_nat j))) <$> seq 0 k).

(** An id that names a directory of its own under [uploads/tmp]: it is
    made of lower-case letters, digits and dashes, as the ids of
    [crypto.randomUUID()] are.  For such an id [path.join(TMP_ROOT, id)]
    is the directory [TMP_ROOT/id], and two of them name two
    directories. *)
Definition plain_char (c : ascii) : bool :=
  let n := Z.of_nat (nat_of_ascii c) in
  ((97 <=? n) && (n <=? 122)) || ((48 <=? n) && (n <=? 57)) || (n =? 45).

Fixpoint plain_chars (s : string) : bool :=
  match s with
  | EmptyString => true
  | String c s' => plain_char c && plain_chars s'
  end.

Definition plain_id (id : string) : bool :=
  match id with
  | EmptyString => false
  | _ => plain_chars id
  end.

(** The upload id that a request looks up, or creates, is plain. *)
Definition plain_request (er : env * request) : bool :=
  match er.2 with
  | UploadInit _ _ _ _ => plain_id (uuid er.1)
  | UploadStatus id | UploadChunk id _ _ => plain_id id
  | _ => true
  end.

(** A file of two chunks: [CHUNK_SIZE] bytes [A] and one byte [B]. *)
Definition two_chunk_file : File :=
  mkPicked "clip.mp4" "video/mp4"
    (replicate (Z.to_nat CHUNK_SIZE) Byte.x41 ++ [Byte.x42]).

(** A server that holds an upload of two chunks, the first of which has
    arrived with the three bytes [OLD]. *)
Definition half_uploaded : server :=
  (run [(at_time 900 "u1", UploadInit (Some "clip.mp4"%string) (Some 4194305)
                             (Some (JNum 2)) None);
        (at_time 901 "", UploadChunk "u1" (JNum 0)
                           (Some (ascii_bytes "OLD")))]
     empty_server).1.

(** * Properties *)

(** ** The list of received indices *)

Section record_chunk.
Implicit Types (i : Z) (l : list Z).

Lemma record_chunk_perm i l :
i ∉ l → record_chunk i l ≡ₚ i :: l.
Proof.
intros Hi. unfold record_chunk. rewrite bool_decide_eq_false_2 by done.
rewrite merge_sort_Permutation. symmetry. apply Permutation_cons_append.
Qed.

Lemma record_chunk_known i l : i ∈ l → record_chunk i l = l.
Proof. intros Hi. unfold record_chunk. by rewrite bool_decide_eq_true_2. Qed.

Lemma record_chunk_elem i l : i ∈ record_chunk i l.
Proof.
destruct (decide (i ∈ l)) as [Hi|Hi].
- by rewrite record_chunk_known.
- rewrite record_chunk_perm by done. left.
Qed.

Lemma record_chunk_idemp i l :
record_chunk i (record_chunk i l) = record_chunk i l.
Proof. apply record_chunk_known, record_chunk_elem. Qed.


Lemma record_chunk_length i l :
length (record_chunk i l) =
if bool_decide (i ∈ l) then length l else S (length l).
Proof.
case_bool_decide as Hi.
- by rewrite record_chunk_known.
- by rewrite record_chunk_perm.
Qed.

Lemma record_chunk_nonempty i l : record_chunk i l ≠ [].
Proof.
intros Hnil. pose proof (record_chunk_elem i l) as Hi.
rewrite Hnil in Hi. by apply not_elem_of_nil in Hi.
Qed.

Lemma record_chunk_sorted i l :
Sorted Z.le l → Sorted Z.le (record_chunk i l).
Proof.
intros Hl. unfold record_chunk. case_bool_decide; [done|].
apply (Sorted_merge_sort Z.le).
Qed.
End record_chunk.

(** ** The staging directories *)

Lemma mkdir_p_is_Some id tmp : is_Some (mkdir_p id tmp !! id).
Proof.
  unfold mkdir_p. destruct (tmp !! id) eqn:E.
  - rewrite E. eauto.
  - rewrite lookup_insert_eq. eauto.
Qed.

Lemma mkdir_p_other id id' tmp : id ≠ id' → mkdir_p id tmp !! id' = tmp !! id'.
Proof.
  intros Hne. unfold mkdir_p. destruct (tmp !! id); [done|].
  by rewrite lookup_insert_ne.
Qed.

Lemma mkdir_p_exists id tmp d : tmp !! id = Some d → mkdir_p id tmp = tmp.
Proof. intros E. unfold mkdir_p. by rewrite E. Qed.

Lemma read_chunk_mkdir_p id id' i tmp :
  read_chunk (mkdir_p id tmp) id' i = read_chunk tmp id' i.
Proof.
  unfold read_chunk. destruct (decide (id = id')) as [<-|Hne].
  - unfold mkdir_p. destruct (tmp !! id) eqn:E; [by rewrite E|].
    rewrite lookup_insert_eq. simpl. apply lookup_empty.
  - by rewrite mkdir_p_other.
Qed.

Lemma read_chunk_write_same id i buf tmp :
  is_Some (tmp !! id) → read_chunk (write_chunk id i buf tmp) id i = Some buf.
Proof.
  intros [d E]. unfold read_chunk, write_chunk. rewrite E.
  rewrite lookup_insert_eq. simpl. by rewrite lookup_insert_eq.
Qed.

Lemma read_chunk_write_other id id' i j buf tmp :
  (id, i) ≠ (id', j) →
  read_chunk (write_chunk id i buf tmp) id' j = read_chunk tmp id' j.
Proof.
  intros Hne. unfold read_chunk, write_chunk.
  destruct (tmp !! id) as [d|] eqn:E; [|done].
  destruct (decide (id = id')) as [<-|Hid].
  - rewrite lookup_insert_eq, E. simpl.
    rewrite lookup_insert_ne; [done|congruence].
  - by rewrite lookup_insert_ne.
Qed.

Lemma read_chunk_writeSessionMeta id id' x j tmp :
  read_chunk (writeSessionMeta id x tmp) id' j = read_chunk tmp id' j.
Proof.
  unfold writeSessionMeta.
  destruct (mkdir_p_is_Some id tmp) as [d E]. rewrite E.
  rewrite <- (read_chunk_mkdir_p id id' j tmp).
  unfold read_chunk. destruct (decide (id = id')) as [<-|Hid].
  - by rewrite lookup_insert_eq, E.
  - by rewrite lookup_insert_ne.
Qed.


Lemma write_chunk_same id i buf tmp :
  read_chunk tmp id i = Some buf → write_chunk id i buf tmp = tmp.
Proof.
  unfold read_chunk, write_chunk. intros Hr.
  destruct (tmp !! id) as [[m ps]|] eqn:E; [|done]. simpl in *.
  rewrite (insert_id ps i buf Hr). by apply insert_id.
Qed.


Lemma readSessionMeta_is_Some id tmp x :
  readSessionMeta id tmp = Some x → is_Some (tmp !! id).
Proof. unfold readSessionMeta. destruct (tmp !! id); [eauto|done]. Qed.

Lemma read_chunk_is_Some id tmp i b :
  read_chunk tmp id i = Some b → is_Some (tmp !! id).
Proof. unfold read_chunk. destruct (tmp !! id); [eauto|done]. Qed.

(** ** The chunk route, case by case *)

Lemma chunk_index_Some index i :
  chunk_index index = Some i ↔ index = JNum i ∧ 0 ≤ i.
Proof.
  destruct index as [z|]; simpl.
  - case_bool_decide as Hz; split.
    + done.
    + intros [[= ->] ?]. lia.
    + intros [= ->]. split; [done|lia].
    + by intros [[= ->] _].
  - split; [done|]. by intros [? _].
Qed.

Lemma chunk_index_None index :
  chunk_index index = None ↔ index = JNaN ∨ ∃ i, index = JNum i ∧ i < 0.
Proof.
  destruct index as [z|]; simpl.
  - case_bool_decide as Hz; split.
    + intros _. right. eauto.
    + done.
    + done.
    + intros [|(i & [= <-] & ?)]; [done|lia].
  - split; [by left|done].
Qed.

Lemma find_session_lookup id s x s0 :
  find_session id s = Some (x, s0) →
  sessions s0 !! id = Some x ∧ tmp_root s0 = tmp_root s
  ∧ final_root s0 = final_root s ∧ liveStreams s0 = liveStreams s.
Proof.
  unfold find_session. intros Hf.
  destruct (sessions s !! id) as [y|] eqn:E.
  - injection Hf as <- <-. done.
  - destruct (readSessionMeta id (tmp_root s)) as [y|]; [|done].
    injection Hf as <- <-. simpl. by rewrite lookup_insert_eq.
Qed.

Lemma find_session_registered id s x :
  sessions s !! id = Some x → find_session id s = Some (x, s).
Proof. intros E. unfold find_session. by rewrite E. Qed.

Lemma find_session_None id s :
  find_session id s = None ↔
  sessions s !! id = None ∧ readSessionMeta id (tmp_root s) = None.
Proof.
  unfold find_session. destruct (sessions s !! id).
  - split; [done|]. by intros [? _].
  - destruct (readSessionMeta id (tmp_root s)); [|done].
    split; [done|]. by intros [_ ?].
Qed.

(** The route once multer, the payload check and the index check are
    passed and the session is found. *)
Lemma upload_chunk_found e id i buf s x s0 :
  upload_single (Some buf) = true → 0 ≤ i →
  find_session id s = Some (x, s0) →
  upload_chunk e id (JNum i) (Some buf) s =
  let '(x, s) := store_chunk id i buf x s0 in
  let received := Z.of_nat (length (receivedChunks x)) in
  if all_received (receivedChunks x) (totalChunks x) then
    match mergeChunks e x s with
    | (s, None) => (s, Rejected)
    | (s, Some out) =>
        (mkServer (delete id (sessions s)) (liveStreams s)
           (delete id (tmp_root s)) (final_root s),
         ChunkAccepted id i received (totalChunks x) true (Some out))
    end
  else
    (set_tmp s (writeSessionMeta id x (tmp_root s)),
     ChunkAccepted id i received (totalChunks x) false None).
Proof.
  intros Hm Hi Hf. unfold upload_chunk. rewrite Hm. simpl negb. cbv iota.
  assert (chunk_index (JNum i) = Some i) as -> by by apply chunk_index_Some.
  by rewrite Hf.
Qed.

Lemma mergeChunks_state e x s :
  sessions (mergeChunks e x s).1 = sessions s
  ∧ liveStreams (mergeChunks e x s).1 = liveStreams s
  ∧ tmp_root (mergeChunks e x s).1 = tmp_root s.
Proof.
  unfold mergeChunks. destruct (pipe_chunks _ _ _ _) as [w ok].
  by destruct ok.
Qed.

(** ** Refused submissions *)


Lemma upload_chunk_refused e id index chunk s :
  upload_single chunk = true →
  (chunk = None →
     upload_chunk e id index chunk s = (s, BadRequest "chunk file is required"))
  ∧ (is_Some chunk → chunk_index index = None →
     upload_chunk e id index chunk s
     = (s, BadRequest "valid chunk index is required"))
  ∧ (is_Some chunk → is_Some (chunk_index index) → known id s = None →
     upload_chunk e id index chunk s = (s, NotFound "upload session not found")).
Proof.
  intros Hm. unfold upload_chunk. rewrite Hm. simpl negb. cbv iota.
  split; [|split].
  - by intros ->.
  - intros [buf ->] ->. done.
  - intros [buf ->] [i ->] Hk.
    assert (find_session id s = None) as ->; [|done].
    unfold known in Hk. destruct (sessions s !! id) eqn:Hs; [done|].
    by apply find_session_None.
Qed.

Lemma negative_integral x i :
  integral x = Some i → negative x = bool_decide (i < 0).
Proof.
  destruct x as [sg|sg| |sg m ex]; cbn [integral]; try done.
  - intros [= <-]. by destruct sg.
  - assert (negative (S754_finite sg m ex) = sg) as -> by by destruct sg.
    destruct ex as [|k|k].
    + intros [= <-]. destruct sg; symmetry;
        [apply bool_decide_eq_true_2|apply bool_decide_eq_false_2]; lia.
    + intros [= <-]. pose proof (Z.pow_pos_nonneg 2 (Z.pos k)).
      destruct sg; symmetry;
        [apply bool_decide_eq_true_2|apply bool_decide_eq_false_2]; nia.
    + destruct (Z.eqb_spec (Z.pos m mod 2 ^ Z.pos k) 0) as [Hmod|]; [|done].
      intros [= <-].
      assert (0 < 2 ^ Z.pos k) as Hpow by (apply Z.pow_pos_nonneg; lia).
      pose proof (Z.div_mod (Z.pos m) (2 ^ Z.pos k) ltac:(lia)) as Hdm.
      rewrite Hmod in Hdm.
      destruct sg; symmetry;
        [apply bool_decide_eq_true_2|apply bool_decide_eq_false_2]; nia.
Qed.

Lemma integral_not_NaN x i : integral x = Some i → Number_isNaN x = false.
Proof. by destruct x. Qed.

(** The route on the field and the route on the number agree: for a field
    that [Number] turns into an integer or into [NaN], the answer and the
    state are those of [upload_chunk] at that number. *)
Lemma upload_chunk_field_integer e id index chunk s i :
  integral (Number index) = Some i →
  upload_chunk_field e id index chunk s
  = Some (upload_chunk e id (JNum i) chunk s).
Proof.
  intros Hi. unfold upload_chunk_field.
  rewrite (integral_not_NaN _ _ Hi), (negative_integral _ _ Hi), Hi.
  cbn [orb mbind option_bind].
  destruct (negb (upload_single chunk)) eqn:Hm.
  { unfold upload_chunk. by rewrite Hm. }
  destruct chunk as [buf|].
  2: { unfold upload_chunk. by rewrite Hm. }
  destruct (bool_decide (i < 0)) eqn:Hneg.
  { unfold upload_chunk. rewrite Hm. cbn [chunk_index]. by rewrite Hneg. }
  destruct (find_session id s) eqn:Hf; [done|].
  unfold upload_chunk. rewrite Hm. cbn [chunk_index]. by rewrite Hneg, Hf.
Qed.

Lemma upload_chunk_field_NaN e id index chunk s :
  Number_isNaN (Number index) = true →
  upload_chunk_field e id index chunk s
  = Some (upload_chunk e id JNaN chunk s).
Proof.
  intros Hi. unfold upload_chunk_field, upload_chunk. rewrite Hi.
  destruct (negb (upload_single chunk)); [done|]. by destruct chunk.
Qed.

Lemma skip_white_blank l :
  forallb StrWhiteSpaceChar l = true → skip_white l = [].
Proof.
  induction l as [|a l IH]; [done|]. cbn [forallb skip_white].
  intros [Ha Hl]%andb_true_iff. rewrite Ha. by apply IH.
Qed.

(** [Number] of a field that holds white space only, or nothing, is [+0]. *)
Lemma Number_blank t :
  forallb StrWhiteSpaceChar (String.list_ascii_of_string t) = true →
  Number (Some t) = S754_zero false.
Proof.
  intros Hb. unfold Number, StringToNumber, trimmed.
  by rewrite (skip_white_blank _ Hb).
Qed.




(** ** Submitting a chunk again *)

Lemma set_received_same x : set_received x (receivedChunks x) = x.
Proof. by destruct x. Qed.

Lemma store_chunk_again id i buf x s :
  sessions s !! id = Some x → i ∈ receivedChunks x →
  read_chunk (tmp_root s) id i = Some buf →
  store_chunk id i buf x s = (x, s).
Proof.
  intros Hx Hi Hr. unfold store_chunk.
  rewrite (record_chunk_known _ _ Hi), set_received_same.
  destruct (read_chunk_is_Some _ _ _ _ Hr) as [d Hd].
  rewrite (mkdir_p_exists _ _ _ Hd), (write_chunk_same _ _ _ _ Hr).
  rewrite (insert_id _ _ _ Hx). by destruct s.
Qed.


Lemma store_chunk_spec id i buf x s x' s' :
  store_chunk id i buf x s = (x', s') →
  x' = set_received x (record_chunk i (receivedChunks x))
  ∧ sessions s' = <[id := x']> (sessions s)
  ∧ liveStreams s' = liveStreams s
  ∧ tmp_root s' = write_chunk id i buf (mkdir_p id (tmp_root s))
  ∧ final_root s' = final_root s.
Proof. unfold store_chunk. by intros [= <- <-]. Qed.

Lemma read_chunk_stored id i buf tmp :
  read_chunk (write_chunk id i buf (mkdir_p id tmp)) id i = Some buf.
Proof. apply read_chunk_write_same, mkdir_p_is_Some. Qed.

Lemma upload_chunk_too_large e id index chunk s :
  upload_single chunk = false →
  upload_chunk e id index chunk s = (s, PayloadRefused).
Proof. intros Hm. unfold upload_chunk. by rewrite Hm. Qed.

Lemma upload_chunk_no_payload e id index s :
  upload_chunk e id index None s = (s, BadRequest "chunk file is required").
Proof. done. Qed.

Lemma upload_chunk_bad_index e id index buf s :
  upload_single (Some buf) = true → chunk_index index = None →
  upload_chunk e id index (Some buf) s
  = (s, BadRequest "valid chunk index is required").
Proof. intros Hm Hi. unfold upload_chunk. by rewrite Hm, Hi. Qed.

Lemma upload_chunk_unknown e id i buf s :
  upload_single (Some buf) = true → 0 ≤ i → find_session id s = None →
  upload_chunk e id (JNum i) (Some buf) s
  = (s, NotFound "upload session not found").
Proof.
  intros Hm Hi Hf. unfold upload_chunk. rewrite Hm. simpl negb. cbv iota.
  assert (chunk_index (JNum i) = Some i) as -> by by apply chunk_index_Some.
  by rewrite Hf.
Qed.



(** After a failed merge the same submission enters [mergeChunks] again,
    on the same session object and the same chunk files. *)
Lemma upload_chunk_after_rejected e1 e2 id i buf x0 s0 x sm :
  upload_single (Some buf) = true → 0 ≤ i →
  store_chunk id i buf x0 s0 = (x, sm) →
  all_received (receivedChunks x) (totalChunks x) = true →
  let s3 := (mergeChunks e1 x sm).1 in
  upload_chunk e2 id (JNum i) (Some buf) s3 =
  match mergeChunks e2 x s3 with
  | (s, None) => (s, Rejected)
  | (s, Some out) =>
      (mkServer (delete id (sessions s)) (liveStreams s)
         (delete id (tmp_root s)) (final_root s),
       ChunkAccepted id i (Z.of_nat (length (receivedChunks x)))
         (totalChunks x) true (Some out))
  end.
Proof.
  intros Hm Hi Hst Hall s3.
  apply store_chunk_spec in Hst as (Hx & Hss & Hls & Htmp & Hfin).
  pose proof (mergeChunks_state e1 x sm) as (Hms & Hml & Hmt). fold s3 in Hms, Hmt.
  assert (sessions s3 !! id = Some x) as Hreg.
  { rewrite Hms, Hss. apply lookup_insert_eq. }
  assert (read_chunk (tmp_root s3) id i = Some buf) as Hread.
  { rewrite Hmt, Htmp. apply read_chunk_stored. }
  assert (i ∈ receivedChunks x) as Hin.
  { rewrite Hx. simpl. apply record_chunk_elem. }
  rewrite (upload_chunk_found e2 _ _ _ _ _ _ Hm Hi
             (find_session_registered _ _ _ Hreg)).
  by rewrite (store_chunk_again _ _ _ _ _ Hreg Hin Hread), Hall.
Qed.




(** ** Sanitised names *)

Lemma safe_char_underscore : safe_char "_" = true.
Proof. reflexivity. Qed.

Lemma replace_unsafe_idemp s : replace_unsafe (replace_unsafe s) = replace_unsafe s.
Proof.
  induction s as [|c s IH]; [done|]. simpl. rewrite IH. f_equal.
  destruct (safe_char c) eqn:Hc; [by rewrite Hc|done].
Qed.

Lemma replace_unsafe_nonempty s : s ≠ "" → replace_unsafe s ≠ "".
Proof. by destruct s. Qed.

Lemma safeName_nonempty name : safeName name ≠ "".
Proof. by destruct name as [[|c s]|]. Qed.

Lemma safeName_idemp name : safeName (Some (safeName name)) = safeName name.
Proof.
  pose proof (safeName_nonempty name) as Hne.
  unfold safeName at 1. destruct (safeName name) as [|c s] eqn:E; [done|].
  rewrite <- E. unfold safeName. apply replace_unsafe_idemp.
Qed.

Lemma safeName_safe name : 
  Forall (λ c, safe_char c = true) (String.list_ascii_of_string (safeName name)).
Proof.
  unfold safeName.
  generalize (match name with Some EmptyString | None => "video.bin"%string
              | Some s => s end) as s.
  induction s as [|c s IH]; simpl; constructor; [|done].
  by destruct (safe_char c) eqn:Hc.
Qed.

(** ** The merge loop *)

Lemma pipe_chunks_all read P n : ∀ start written,
  (∀ j, (j < n)%nat → read (Z.of_nat (start + j)) = Some (P (start + j)%nat)) →
  pipe_chunks read n (Z.of_nat start) written
  = (written ++ concat (P <$> seq start n), true).
Proof.
  induction n as [|n IH]; intros start written Hread; simpl.
  - by rewrite app_nil_r.
  - pose proof (Hread 0%nat ltac:(lia)) as H0.
    rewrite Nat.add_0_r in H0. rewrite H0.
    replace (Z.of_nat start + 1) with (Z.of_nat (S start)) by lia.
    rewrite IH, app_assoc; [done|].
    intros j Hj. replace (S start + j)%nat with (start + S j)%nat by lia.
    apply Hread. lia.
Qed.

Lemma pipe_chunks_missing read n : ∀ start written k,
  (k < n)%nat → read (start + Z.of_nat k) = None →
  (pipe_chunks read n start written).2 = false.
Proof.
  induction n as [|n IH]; intros start written k Hk Hnone; [lia|]. simpl.
  destruct (read start) as [b|] eqn:Hb; [|done].
  destruct k as [|k]; [rewrite Z.add_0_r in Hnone; congruence|].
  apply (IH _ _ k); [lia|]. rewrite <- Hnone. f_equal. lia.
Qed.

(** [mergeChunks] when every chunk file is there. *)
Lemma mergeChunks_ok e x s N P :
  totalChunks x = JNum (Z.of_nat N) →
  (∀ k, (k < N)%nat →
        read_chunk (tmp_root s) (uploadId x) (Z.of_nat k) = Some (P k)) →
  let out := final_name e (Some (originalName x)) in
  mergeChunks e x s
  = (set_final s (<[out := mkFile (in_index_order P N) (stamp e)]> (final_root s)),
     Some out).
Proof.
  intros HN Hread out. unfold mergeChunks. rewrite HN. simpl turns.
  rewrite Nat2Z.id.
  change 0 with (Z.of_nat 0).
  rewrite (pipe_chunks_all _ P); [done|]. intros j Hj. by apply Hread.
Qed.

(** ** A staged upload, chunk by chunk *)

Section staged_upload.
Context (id : string) (x0 : session) (P : nat → bytes) (N : nat).
Hypothesis Htotal : totalChunks x0 = JNum (Z.of_nat N).
Hypothesis Hid : uploadId x0 = id.
Hypothesis Hsize : ∀ k, upload_single (Some (P k)) = true.

Lemma staged_fresh_index ks r k :
r ≡ₚ Z.of_nat <$> ks → k ∉ ks → Z.of_nat k ∉ r.
Proof.
intros Hr Hk Hin. rewrite Hr in Hin.
apply list_elem_of_fmap in Hin as (k' & Heq & Hin).
apply Nat2Z.inj in Heq as ->. done.
Qed.

Lemma staged_store ks s r k :
sessions s !! id = Some (set_received x0 r) →
r ≡ₚ Z.of_nat <$> ks →
(∀ j, j ∈ ks → read_chunk (tmp_root s) id (Z.of_nat j) = Some (P j)) →
k ∉ ks →
∃ r' sm,
  store_chunk id (Z.of_nat k) (P k) (set_received x0 r) s
  = (set_received x0 r', sm)
  ∧ r' ≡ₚ Z.of_nat <$> (k :: ks)
  ∧ sessions sm = <[id := set_received x0 r']> (sessions s)
  ∧ liveStreams sm = liveStreams s
  ∧ final_root sm = final_root s
  ∧ tmp_root sm = write_chunk id (Z.of_nat k) (P k) (mkdir_p id (tmp_root s))
  ∧ ∀ j, j ∈ k :: ks → read_chunk (tmp_root sm) id (Z.of_nat j) = Some (P j).
Proof.
intros Hreg Hr Hparts Hk.
exists (record_chunk (Z.of_nat k) r), (store_chunk id (Z.of_nat k) (P k)
                                        (set_received x0 r) s).2.
split; [done|]. split.
{ rewrite record_chunk_perm by eauto using staged_fresh_index.
  by rewrite Hr. }
do 4 (split; [done|]). simpl.
intros j [->|Hj]%elem_of_cons.
- apply read_chunk_stored.
- rewrite read_chunk_write_other, read_chunk_mkdir_p; [by apply Hparts|].
  intros [= Heq%Nat2Z.inj]. by subst.
Qed.

(** A new index that does not complete the upload. *)
Lemma staged_step e ks s k :
staged id x0 P ks s → k ∉ ks → S (length ks) ≠ N →
∃ s',
  upload_chunk e id (JNum (Z.of_nat k)) (Some (P k)) s
  = (s', ChunkAccepted id (Z.of_nat k) (Z.of_nat (S (length ks)))
           (JNum (Z.of_nat N)) false None)
  ∧ staged id x0 P (k :: ks) s'
  ∧ final_root s' = final_root s
  ∧ liveStreams s' = liveStreams s.
Proof.
intros (r & Hreg & Hr & Hparts) Hk Hlen.
destruct (staged_store ks s r k Hreg Hr Hparts Hk)
  as (r' & sm & Hst & Hr' & Hss & Hls & Hfin & Htmp & Hparts').
rewrite (upload_chunk_found e _ _ _ _ _ _ (Hsize k) (Nat2Z.is_nonneg k)
           (find_session_registered _ _ _ Hreg)), Hst.
assert (length r' = S (length ks)) as Hlen'.
{ by rewrite Hr', length_fmap. }
simpl. rewrite Htotal, Hlen'. unfold all_received.
rewrite bool_decide_eq_false_2 by lia.
eexists. split; [done|]. split; [|done].
exists r'. simpl. split; [|split; [done|]].
- rewrite Hss. apply lookup_insert_eq.
- intros j Hj. rewrite read_chunk_writeSessionMeta. by apply Hparts'.
Qed.

(** The index that completes the upload. *)
Lemma staged_last e ks s k :
staged id x0 P ks s → k ∉ ks → S (length ks) = N →
(∀ j, (j < N)%nat → j ∈ k :: ks) →
let out := final_name e (Some (originalName x0)) in
∃ s',
  upload_chunk e id (JNum (Z.of_nat k)) (Some (P k)) s
  = (s', ChunkAccepted id (Z.of_nat k) (Z.of_nat N)
           (JNum (Z.of_nat N)) true (Some out))
  ∧ final_root s'
    = <[out := mkFile (in_index_order P N) (stamp e)]> (final_root s)
  ∧ sessions s' !! id = None
  ∧ tmp_root s' !! id = None
  ∧ liveStreams s' = liveStreams s.
Proof.
intros (r & Hreg & Hr & Hparts) Hk Hlen Hall out.
destruct (staged_store ks s r k Hreg Hr Hparts Hk)
  as (r' & sm & Hst & Hr' & Hss & Hls & Hfin & Htmp & Hparts').
rewrite (upload_chunk_found e _ _ _ _ _ _ (Hsize k) (Nat2Z.is_nonneg k)
           (find_session_registered _ _ _ Hreg)), Hst.
assert (length r' = N) as Hlen'.
{ by rewrite Hr', length_fmap. }
simpl. rewrite Htotal, Hlen'. unfold all_received.
rewrite bool_decide_eq_true_2 by (by rewrite Hlen').
rewrite (mergeChunks_ok e _ sm N P); [|done|].
2:{ intros j Hj. simpl. rewrite Hid. apply Hparts', Hall, Hj. }
eexists. split; [done|]. simpl.
rewrite Hfin, !lookup_delete_eq. done.
Qed.

(** The chunks of [order] are the ones still missing: the last of them
  completes the upload, and the merged file holds the payloads in index
  order. *)
Lemma staged_run order : ∀ ks s,
staged id x0 P ks s →
NoDup (order.*2 ++ ks) →
(length order + length ks = N)%nat →
(∀ j, (j < N)%nat → j ∈ order.*2 ++ ks) →
∀ e_last k_last, last order = Some (e_last, k_last) →
let out := final_name e_last (Some (originalName x0)) in
∃ s',
  run (submissions id P order) s
  = (s', chunk_responses id (originalName x0) N (length ks) order)
  ∧ final_root s'
    = <[out := mkFile (in_index_order P N) (stamp e_last)]> (final_root s)
  ∧ sessions s' !! id = None
  ∧ tmp_root s' !! id = None
  ∧ liveStreams s' = liveStreams s.
Proof.
induction order as [|[e k] rest IH]; intros ks s Hst Hnd Hlen Hall
  e_last k_last Hlast out; [done|].
simpl in Hnd, Hlen, Hall. apply NoDup_cons in Hnd as [Hk Hnd].
assert (k ∉ ks) as Hk' by (intros ?; apply Hk, elem_of_app; auto).
destruct (decide (rest = [])) as [->|Hrest].
- injection Hlast as -> ->. simpl in Hlen.
  destruct (staged_last e_last ks s k_last Hst Hk' ltac:(lia) Hall)
    as (s' & Hrun & Hfin & Hss & Htmp & Hls).
  exists s'. simpl. rewrite Hrun. simpl.
  rewrite bool_decide_eq_true_2 by lia.
  replace (S (length ks)) with N by lia. done.
- assert (S (length ks) ≠ N) as Hne
    by (destruct rest; [done|simpl in Hlen; lia]).
  assert (last rest = Some (e_last, k_last)) as Hlast'
    by (destruct rest; [done|exact Hlast]).
  destruct (staged_step e ks s k Hst Hk' Hne)
    as (s1 & Hrun & Hst1 & Hfin1 & Hls1).
  destruct (IH (k :: ks) s1 Hst1) with (e_last := e_last) (k_last := k_last)
    as (s' & Hrun' & Hfin & Hss & Htmp & Hls).
  + eapply NoDup_Permutation_proper;
      [|apply NoDup_cons_2; [exact Hk|exact Hnd]].
    symmetry. apply Permutation_middle.
  + simpl. lia.
  + intros j Hj. specialize (Hall j Hj).
    rewrite elem_of_app, elem_of_cons.
    rewrite elem_of_cons, elem_of_app in Hall. tauto.
  + done.
  + exists s'. change (submissions id P ((e, k) :: rest)) with
      ((e, UploadChunk id (JNum (Z.of_nat k)) (Some (P k)))
         :: submissions id P rest).
    cbn [run step]. rewrite Hrun, Hrun'. simpl.
    rewrite bool_decide_eq_false_2 by done.
    rewrite Hfin, Hfin1, Hls, Hls1. done.
Qed.
End staged_upload.

Lemma chunk_responses_flags id oname N order : ∀ got,
  (length order + got = N)%nat → order ≠ [] →
  complete_flag <$> chunk_responses id oname N got order
  = replicate (length order - 1) (Some false) ++ [Some true]
  ∧ merge_entered <$> chunk_responses id oname N got order
    = replicate (length order - 1) false ++ [true].
Proof.
  induction order as [|[e k] rest IH]; intros got Hlen Hne; [done|].
  cbn [chunk_responses]. rewrite !fmap_cons.
  destruct (decide (rest = [])) as [->|Hrest].
  - simpl in *. by rewrite bool_decide_eq_true_2 by lia.
  - destruct (IH (S got) ltac:(simpl in Hlen; lia) Hrest) as [-> ->].
    rewrite bool_decide_eq_false_2
      by (destruct rest; [done|simpl in Hlen; lia]).
    destruct rest as [|ek rest]; [done|]. simpl.
    by rewrite Nat.sub_0_r.
Qed.

Lemma chunk_responses_last id oname N order : ∀ got e k,
  (length order + got = N)%nat → last order = Some (e, k) →
  last (chunk_responses id oname N got order)
  = Some (ChunkAccepted id (Z.of_nat k) (Z.of_nat N) (JNum (Z.of_nat N)) true
            (Some (final_name e (Some oname)))).
Proof.
  induction order as [|[e' k'] rest IH]; intros got e k Hlen Hlast; [done|].
  destruct rest as [|ek rest].
  - injection Hlast as -> ->. simpl in *.
    rewrite bool_decide_eq_true_2 by lia. by replace (S got) with N by lia.
  - rewrite <- (IH (S got) e k); [by destruct ek|simpl in *; lia|done].
Qed.

Lemma final_name_safe e name :
  final_name e (Some (safeName name)) = final_name e name.
Proof. unfold final_name. by rewrite safeName_idemp. Qed.

Lemma upload_init_ok e fn size chunks mime s :
  fn ≠ "" →
  let x := mkSession (uuid e) (safeName (Some fn)) (default 0 size)
             (default (JNum 1) chunks)
             (default "application/octet-stream"%string mime) (now e) [] in
  upload_init e (Some fn) size chunks mime s
  = (mkServer (<[uuid e := x]> (sessions s)) (liveStreams s)
       (writeSessionMeta (uuid e) x (tmp_root s)) (final_root s),
     UploadCreated (uuid e)).
Proof. by destruct fn. Qed.

Lemma submissions_ext id P Q order :
  (∀ k, k ∈ order.*2 → P k = Q k) →
  submissions id P order = submissions id Q order.
Proof.
  intros Hext. unfold submissions. apply list_fmap_ext.
  intros i [e k] Hi. simpl. rewrite Hext; [done|].
  apply list_elem_of_fmap. exists (e, k). split; [done|].
  by apply list_elem_of_lookup_2 in Hi.
Qed.

Lemma in_index_order_ext P Q N :
  (∀ k, (k < N)%nat → P k = Q k) → in_index_order P N = in_index_order Q N.
Proof.
  intros Hext. unfold in_index_order. f_equal. apply list_fmap_ext.
  intros i k Hi. apply Hext. apply lookup_seq in Hi. lia.
Qed.

(** A whole upload: [init], then the [N] chunks in the order of [order]. *)
Lemma upload_all s e0 fn size mime N P order e_last k_last :
  fn ≠ "" →
  order.*2 ≡ₚ seq 0 N →
  last order = Some (e_last, k_last) →
  (∀ k, (k < N)%nat → upload_single (Some (P k)) = true) →
  let id := uuid e0 in
  let s1 := (upload_init e0 (Some fn) size (Some (JNum (Z.of_nat N))) mime s).1 in
  let out := final_name e_last (Some fn) in
  ∃ s',
    run (submissions id P order) s1
    = (s', chunk_responses id (safeName (Some fn)) N 0 order)
    ∧ final_root s'
      = <[out := mkFile (in_index_order P N) (stamp e_last)]> (final_root s)
    ∧ sessions s' !! id = None
    ∧ tmp_root s' !! id = None
    ∧ liveStreams s' = liveStreams s.
Proof.
  intros Hfn Hperm Hlast Hsize id s1 out. subst s1.
  rewrite upload_init_ok by done. simpl.
  set (x0 := mkSession _ _ _ _ _ _ _). set (s1 := mkServer _ _ _ _).
  set (Q := λ k, if decide (k < N)%nat then P k else []).
  assert (∀ k, k ∈ order.*2 → (k < N)%nat) as Hlt.
  { intros k Hk. rewrite Hperm in Hk. apply elem_of_seq in Hk. lia. }
  rewrite (submissions_ext id P Q), (in_index_order_ext P Q).
  2:{ intros k Hk. unfold Q. by rewrite decide_True. }
  2:{ intros k Hk. unfold Q. rewrite decide_True; [done|]. by apply Hlt. }
  destruct (staged_run id x0 Q N) with (order := order) (ks := @nil nat)
    (s := s1) (e_last := e_last) (k_last := k_last)
    as (s' & Hrun & Hfin & Hss & Htmp & Hls); try done.
  - intros k. unfold Q. case_decide; [by apply Hsize|done].
  - exists []. split; [apply lookup_insert_eq|]. split; [done|].
    intros k Hk. by apply not_elem_of_nil in Hk.
  - rewrite app_nil_r, Hperm. apply NoDup_seq.
  - rewrite Nat.add_0_r. rewrite <- (length_fmap snd order), Hperm.
    apply length_seq.
  - intros j Hj. rewrite app_nil_r, Hperm. apply elem_of_seq. lia.
  - exists s'. simpl in Hrun, Hfin. unfold out.
    rewrite <- (final_name_safe e_last (Some fn)). done.
Qed.

(** C1, as the code has it: once [init] has declared N >= 1 chunks and the
    chunks 0 .. N-1 have been submitted, each once, in whatever order (each
    within multer's size limit), the last submission is answered
    [complete: true] with the name of the merged file, and that file holds
    the payloads in ascending index order. *)
Theorem merged_artifact_in_index_order s e0 fn size mime N P order e_last k_last :
  fn ≠ "" →
  order.*2 ≡ₚ seq 0 N →
  last order = Some (e_last, k_last) →
  (∀ k, (k < N)%nat → Z.of_nat (length (P k)) ≤ fileSize_limit) →
  let id := uuid e0 in
  let s1 := (upload_init e0 (Some fn) size (Some (JNum (Z.of_nat N))) mime s).1 in
  let after := run (submissions id P order) s1 in
  let out := final_name e_last (Some fn) in
  (1 ≤ N)%nat
  ∧ last after.2
    = Some (ChunkAccepted id (Z.of_nat k_last) (Z.of_nat N)
              (JNum (Z.of_nat N)) true (Some out))
  ∧ final_root after.1 !! out
    = Some (mkFile (in_index_order P N) (stamp e_last))
  ∧ ∀ f, f ≠ out → final_root after.1 !! f = final_root s !! f.
Proof.
  intros Hfn Hperm Hlast Hsize id s1 after out.
  assert (length order = N) as Hlen.
  { by rewrite <- (length_fmap snd order), Hperm, length_seq. }
  destruct (upload_all s e0 fn size mime N P order e_last k_last)
    as (s' & Hrun & Hfin & _); try done.
  { intros k Hk. unfold upload_single. apply bool_decide_eq_true_2. auto. }
  subst after s1 id. rewrite Hrun. simpl. split; [|split; [|split]].
  - destruct order; [done|]. simpl in Hlen. lia.
  - rewrite (chunk_responses_last _ _ N order 0 e_last k_last) by (done || lia).
    by rewrite final_name_safe.
  - rewrite Hfin. apply lookup_insert_eq.
  - intros f Hf. rewrite Hfin. by apply lookup_insert_ne.
Qed.

Lemma clip_chunk_small k : Z.of_nat (length (clip_chunk k)) ≤ fileSize_limit.
Proof. destruct k as [|[|k]]; vm_compute; discriminate. Qed.

Lemma merged_artifact_in_index_order_witness :
  let order := [(at_time 1001 "", 2%nat); (at_time 1002 "", 0%nat);
                (at_time 1003 "", 1%nat)] in
  let s1 := (upload_init (at_time 1000 "u1") (Some "clip.mp4"%string) None
               (Some (JNum 3)) None empty_server).1 in
  final_root (run (submissions "u1" clip_chunk order) s1).1 !! "1003-clip.mp4"%string
  = Some (mkFile (ascii_bytes "AAABBC") 1003).
Proof.
  intros order s1.
  refine (proj1 (proj2 (proj2
    (merged_artifact_in_index_order empty_server (at_time 1000 "u1")
       "clip.mp4" None None 3 clip_chunk order (at_time 1003 "") 1 _ _ _ _)))).
  - discriminate.
  - apply (Permutation_trans (l' := [0%nat; 2%nat; 1%nat])).
    + apply perm_swap.
    + apply perm_skip, perm_swap.
  - reflexivity.
  - intros k _. apply clip_chunk_small.
Defined.

(** C1 as stated fails for N = 0: [init] with [totalChunks = 0] and all
    (zero) chunks submitted leaves [uploads/final] empty, although the
    status route reports the session complete.  No artifact exists, empty or
    otherwise. *)
Lemma zero_chunks_no_artifact :
  let s1 := (upload_init (at_time 1000 "u1") (Some "empty.bin"%string) (Some 0)
               (Some (JNum 0)) None empty_server).1 in
  let after := run (submissions "u1" clip_chunk []) s1 in
  (upload_status "u1" after.1).2 = UploadStatusOk "u1" (JNum 0) [] true
  ∧ ¬ ∃ out t, final_root after.1 !! out = Some (mkFile (in_index_order clip_chunk 0) t).
Proof.
  intros s1 after. split; [reflexivity|].
  intros (out & t & Hout). vm_compute in Hout. discriminate.
Qed.

Lemma upload_chunk_no_merge e id index chunk s :
  merge_entered (upload_chunk e id index chunk s).2 = false →
  final_root (upload_chunk e id index chunk s).1 = final_root s.
Proof.
  unfold upload_chunk. destruct (upload_single chunk); [|done]. cbn [negb].
  destruct chunk as [buf|]; [|done].
  destruct (chunk_index index) as [i|]; [|done].
  destruct (find_session id s) as [[x s0]|] eqn:Hf; [|done].
  apply find_session_lookup in Hf as (_ & _ & Hfin & _).
  destruct (store_chunk id i buf x s0) as [x1 s1] eqn:Hst.
  apply store_chunk_spec in Hst as (_ & _ & _ & _ & Hfin1).
  destruct (all_received _ _).
  - by destruct (mergeChunks e x1 s1) as [s2 [out|]].
  - intros _. cbn. by rewrite Hfin1.
Qed.

(** While no submission of [order] has entered [mergeChunks], nothing has
    been written to [uploads/final]. *)
Lemma submissions_before_merge id P order : ∀ s j,
  Forall (λ o, merge_entered o = false)
    (take j (run (submissions id P order) s).2) →
  final_root (run (take j (submissions id P order)) s).1 = final_root s.
Proof.
  induction order as [|[e k] rest IH]; intros s [|j] Hno;
    [done|done|done|].
  change (submissions id P ((e, k) :: rest)) with
    ((e, UploadChunk id (JNum (Z.of_nat k)) (Some (P k)))
       :: submissions id P rest) in *.
  cbn [run take step] in *.
  pose proof (upload_chunk_no_merge e id (JNum (Z.of_nat k)) (Some (P k)) s)
    as Hone.
  destruct (upload_chunk e id (JNum (Z.of_nat k)) (Some (P k)) s) as [s1 o].
  specialize (IH s1 j).
  destruct (run (submissions id P rest) s1) as [s2 os]. cbn [fst snd take] in *.
  apply Forall_cons in Hno as [Ho Hno].
  destruct (run (take j (submissions id P rest)) s1) as [s3 os3].
  cbn [fst] in *. rewrite IH by done. by apply Hone.
Qed.

(** C2: for a session of N >= 1 chunks whose chunks 0 .. N-1 are submitted
    once each, in any order (payloads within multer's limit): the
    [complete] flags of the N answers are N-1 times [false], then [true];
    [mergeChunks] is entered by the last submission and by no other;
    [uploads/final] is as it was after every shorter run of the
    submissions, and after the last it has gained one file, which holds the
    payloads in index order; the session is then gone from [sessions] and
    its directory from [uploads/tmp]; and submitting the completing chunk
    once more is answered 404 and leaves the state as it is, so no second
    merge runs and no promise is rejected. *)
Theorem completion_happens_once s e0 fn size mime N P order e_last k_last
    e_again :
  fn ≠ "" →
  order.*2 ≡ₚ seq 0 N →
  last order = Some (e_last, k_last) →
  (∀ k, (k < N)%nat → Z.of_nat (length (P k)) ≤ fileSize_limit) →
  let id := uuid e0 in
  let s1 := (upload_init e0 (Some fn) size (Some (JNum (Z.of_nat N))) mime s).1 in
  let after := run (submissions id P order) s1 in
  let again := UploadChunk id (JNum (Z.of_nat k_last)) (Some (P k_last)) in
  length after.2 = N
  ∧ complete_flag <$> after.2 = replicate (N - 1) (Some false) ++ [Some true]
  ∧ merge_entered <$> after.2 = replicate (N - 1) false ++ [true]
  ∧ (∀ j, (j < N)%nat →
       final_root (run (take j (submissions id P order)) s1).1 = final_root s)
  ∧ final_root after.1
    = <[final_name e_last (Some fn)
        := mkFile (in_index_order P N) (stamp e_last)]> (final_root s)
  ∧ sessions after.1 !! id = None
  ∧ tmp_root after.1 !! id = None
  ∧ step e_again again after.1
    = (after.1, NotFound "upload session not found").
Proof.
  intros Hfn Hperm Hlast Hsize id s1 after again.
  assert (length order = N) as Hlen.
  { by rewrite <- (length_fmap snd order), Hperm, length_seq. }
  assert (∀ k, (k < N)%nat → upload_single (Some (P k)) = true) as Hsize'.
  { intros k Hk. unfold upload_single. apply bool_decide_eq_true_2. auto. }
  assert (final_root s1 = final_root s) as Hfin1.
  { subst s1. by rewrite upload_init_ok. }
  destruct (upload_all s e0 fn size mime N P order e_last k_last)
    as (s' & Hrun & Hfin & Hss & Htmp & _); try done.
  destruct (chunk_responses_flags (uuid e0) (safeName (Some fn)) N order 0)
    as [Hflags Hmerges]; [lia|by destruct order|].
  rewrite Hlen in Hflags, Hmerges.
  assert (length (run (submissions id P order) s1).2 = N) as Hlen2.
  { subst s1 id. rewrite Hrun. cbn [snd].
    rewrite <- (length_fmap complete_flag), Hflags, length_app,
      length_replicate.
    simpl. destruct order; [done|]. simpl in Hlen. lia. }
  split; [exact Hlen2|].
  split; [subst after s1 id; by rewrite Hrun|].
  split; [subst after s1 id; by rewrite Hrun|].
  split.
  { intros j Hj. rewrite <- Hfin1. apply submissions_before_merge.
    apply Forall_forall. intros o Ho.
    assert (merge_entered o ∈ take j (replicate (N - 1) false ++ [true]))
      as Hin.
    { rewrite <- Hmerges. subst s1 id. rewrite Hrun in Ho. cbn [snd] in Ho.
      rewrite <- fmap_take. by apply list_elem_of_fmap_2. }
    rewrite take_app_le in Hin by (rewrite length_replicate; lia).
    apply elem_of_take in Hin as (i & Hi & _).
    by apply lookup_replicate in Hi as [-> _]. }
  subst after s1 id. rewrite Hrun. cbn [fst snd].
  do 3 (split; [done|]).
  simpl. apply upload_chunk_unknown.
  + apply Hsize'. assert (k_last ∈ order.*2) as Hk.
    { apply list_elem_of_fmap. exists (e_last, k_last). split; [done|].
      by apply last_Some_elem_of. }
    rewrite Hperm in Hk. apply elem_of_seq in Hk. lia.
  + lia.
  + apply find_session_None. split; [done|].
    unfold readSessionMeta. by rewrite Htmp.
Qed.

Lemma completion_happens_once_witness :
  let order := [(at_time 1001 "", 2%nat); (at_time 1002 "", 0%nat);
                (at_time 1003 "", 1%nat)] in
  let s1 := (upload_init (at_time 1000 "u1") (Some "clip.mp4"%string) None
               (Some (JNum 3)) None empty_server).1 in
  let after := run (submissions "u1" clip_chunk order) s1 in
  complete_flag <$> after.2 = [Some false; Some false; Some true]
  ∧ final_root (run (take 2 (submissions "u1" clip_chunk order)) s1).1 = ∅
  ∧ final_root after.1
    = {[ "1003-clip.mp4"%string := mkFile (ascii_bytes "AAABBC") 1003 ]}
  ∧ step (at_time 1004 "") (UploadChunk "u1" (JNum 1) (Some (clip_chunk 1)))
      after.1
    = (after.1, NotFound "upload session not found").
Proof.
  intros order s1 after.
  pose proof (completion_happens_once empty_server (at_time 1000 "u1")
       "clip.mp4" None None 3 clip_chunk order (at_time 1003 "") 1
       (at_time 1004 "")) as H.
  destruct H as (_ & Hflags & _ & Hbefore & Hfin & _ & _ & Hagain).
  - discriminate.
  - apply (Permutation_trans (l' := [0%nat; 2%nat; 1%nat])).
    + apply perm_swap.
    + apply perm_skip, perm_swap.
  - reflexivity.
  - intros k _. apply clip_chunk_small.
  - split; [exact Hflags|]. split; [apply (Hbefore 2%nat); lia|].
    split; [exact Hfin|exact Hagain].
Defined.

(** C2 as stated fails for N = 0.  The session is declared with no chunk:
    there is no submission, so no answer carries a [complete] flag and
    [mergeChunks] is not entered, not once; the status route reports the
    session complete from the start.  A chunk submitted all the same is
    answered [complete: false] without a merge. *)
Lemma no_chunks_no_completion :
  let s1 := (upload_init (at_time 1000 "u1") (Some "empty.bin"%string) (Some 0)
               (Some (JNum 0)) None empty_server).1 in
  let after := run (submissions "u1" clip_chunk []) s1 in
  let late := upload_chunk (at_time 1001 "") "u1" (JNum 0)
                (Some (clip_chunk 0)) after.1 in
  merge_entered <$> after.2 = []
  ∧ final_root after.1 = ∅
  ∧ (upload_status "u1" after.1).2 = UploadStatusOk "u1" (JNum 0) [] true
  ∧ complete_flag late.2 = Some false
  ∧ merge_entered late.2 = false
  ∧ final_root late.1 = ∅.
Proof. intros s1 after late. by vm_compute. Qed.

(** ** What a request leaves alone *)

Lemma known_find_session id s : fst <$> find_session id s = known id s.
Proof.
  unfold find_session, known. destruct (sessions s !! id); [done|].
  by destruct (readSessionMeta id (tmp_root s)).
Qed.

Lemma find_session_known id s x s0 :
  find_session id s = Some (x, s0) → known id s = Some x.
Proof. intros Hf. by rewrite <- known_find_session, Hf. Qed.

Lemma known_find id s x :
  known id s = Some x → ∃ s0, find_session id s = Some (x, s0).
Proof.
  rewrite <- known_find_session.
  destruct (find_session id s) as [[y s0]|]; [|done].
  intros [= <-]. eauto.
Qed.

Lemma known_frame id s s' :
  sessions s' !! id = sessions s !! id →
  tmp_root s' !! id = tmp_root s !! id →
  known id s' = known id s.
Proof. intros Hs Ht. unfold known, readSessionMeta. by rewrite Hs, Ht. Qed.

Lemma writeSessionMeta_other id id' x tmp :
  id ≠ id' → writeSessionMeta id x tmp !! id' = tmp !! id'.
Proof.
  intros Hne. unfold writeSessionMeta.
  destruct (mkdir_p_is_Some id tmp) as [d E]. rewrite E.
  by rewrite lookup_insert_ne, mkdir_p_other.
Qed.

Lemma write_chunk_other id id' i buf tmp :
  id ≠ id' → write_chunk id i buf tmp !! id' = tmp !! id'.
Proof.
  intros Hne. unfold write_chunk. destruct (tmp !! id); [|done].
  by rewrite lookup_insert_ne.
Qed.

Lemma find_session_frame id id' s x s0 :
  find_session id' s = Some (x, s0) → id' ≠ id →
  sessions s0 !! id = sessions s !! id.
Proof.
  unfold find_session. intros Hf Hne.
  destruct (sessions s !! id'); [by injection Hf as _ <-|].
  destruct (readSessionMeta id' (tmp_root s)); [|done].
  injection Hf as _ <-. simpl. by rewrite lookup_insert_ne.
Qed.

Lemma upload_chunk_frame e id id' index chunk s :
  id' ≠ id →
  sessions (upload_chunk e id' index chunk s).1 !! id = sessions s !! id
  ∧ tmp_root (upload_chunk e id' index chunk s).1 !! id = tmp_root s !! id.
Proof.
  intros Hne.
  destruct (upload_single chunk) eqn:Hm;
    [|by rewrite upload_chunk_too_large].
  destruct chunk as [buf|]; [|done].
  destruct (chunk_index index) as [i|] eqn:Hi;
    [|by rewrite upload_chunk_bad_index].
  apply chunk_index_Some in Hi as [-> Hi].
  destruct (find_session id' s) as [[x0 s0]|] eqn:Hf;
    [|by rewrite upload_chunk_unknown].
  rewrite (upload_chunk_found e _ _ _ _ _ _ Hm Hi Hf).
  pose proof (find_session_frame _ _ _ _ _ Hf Hne) as Hs0.
  apply find_session_lookup in Hf as (_ & Ht0 & _ & _).
  destruct (store_chunk id' i buf x0 s0) as [x sm] eqn:Hst.
  apply store_chunk_spec in Hst as (_ & Hss & _ & Htmp & _).
  assert (sessions sm !! id = sessions s !! id) as Hsm.
  { by rewrite Hss, lookup_insert_ne. }
  assert (tmp_root sm !! id = tmp_root s !! id) as Htm.
  { by rewrite Htmp, write_chunk_other, mkdir_p_other, Ht0. }
  destruct (all_received (receivedChunks x) (totalChunks x)).
  - pose proof (mergeChunks_state e x sm) as (Hms & _ & Hmt).
    destruct (mergeChunks e x sm) as [s3 [out|]]; simpl in *.
    + rewrite !lookup_delete_ne by done. by rewrite Hms, Hmt.
    + by rewrite Hms, Hmt.
  - simpl. by rewrite writeSessionMeta_other.
Qed.

(** A request that neither looks [id] up nor creates it leaves the session
    object and the directory of [id] as they are. *)
Lemma step_frame e r s id :
  ¬ addresses id r → ¬ reuses_id id (e, r) →
  sessions (step e r s).1 !! id = sessions s !! id
  ∧ tmp_root (step e r s).1 !! id = tmp_root s !! id.
Proof.
  intros Haddr Hnew. destruct r as [fn sz ch mi|id'|id' index chunk|fn mi|id' chunk|id'|];
    simpl in *.
  - destruct fn as [[|c fn]|]; [done| |done].
    rewrite upload_init_ok by done. simpl.
    by rewrite lookup_insert_ne, writeSessionMeta_other.
  - unfold upload_status.
    destruct (find_session id' s) as [[x s0]|] eqn:Hf; [|done]. simpl.
    rewrite (find_session_frame _ _ _ _ _ Hf Haddr).
    by apply find_session_lookup in Hf as (_ & -> & _ & _).
  - by apply upload_chunk_frame.
  - done.
  - unfold stream_chunk. destruct (negb (upload_single chunk)); [done|].
    destruct (liveStreams s !! id'); [|done]. by destruct chunk.
  - unfold stream_finish. by destruct (liveStreams s !! id').
  - done.
Qed.

(** ** A session that declares no chunk *)

Lemma all_received_zero r : r ≠ [] → all_received r (JNum 0) = false.
Proof.
  intros Hr. unfold all_received. apply bool_decide_eq_false_2.
  destruct r; [done|]. simpl. lia.
Qed.

Lemma upload_chunk_zero e id index chunk s x :
  known id s = Some x → totalChunks x = JNum 0 →
  merge_entered (upload_chunk e id index chunk s).2 = false
  ∧ final_root (upload_chunk e id index chunk s).1 = final_root s
  ∧ (∃ x', known id (upload_chunk e id index chunk s).1 = Some x'
           ∧ totalChunks x' = JNum 0)
  ∧ (∀ id' i n t c o,
       (upload_chunk e id index chunk s).2 = ChunkAccepted id' i n t c o →
       1 ≤ n ∧ t = JNum 0 ∧ c = false ∧ o = None).
Proof.
  intros Hk Hz.
  assert (∀ out, merge_entered out = false → complete_flag out = None →
            upload_chunk e id index chunk s = (s, out) →
            merge_entered (upload_chunk e id index chunk s).2 = false
            ∧ final_root (upload_chunk e id index chunk s).1 = final_root s
            ∧ (∃ x', known id (upload_chunk e id index chunk s).1 = Some x'
                     ∧ totalChunks x' = JNum 0)
            ∧ (∀ id' i n t c o,
                 (upload_chunk e id index chunk s).2
                 = ChunkAccepted id' i n t c o →
                 1 ≤ n ∧ t = JNum 0 ∧ c = false ∧ o = None)) as Hrefused.
  { intros out Hm Hc ->. cbn [fst snd].
    split; [done|]. split; [done|]. split; [by exists x|].
    intros id' i n t c o ->. discriminate Hc. }
  destruct (upload_single chunk) eqn:Hm.
  2:{ eapply Hrefused; [| |by apply upload_chunk_too_large]; done. }
  destruct chunk as [buf|].
  2:{ eapply Hrefused; [| |apply upload_chunk_no_payload]; done. }
  destruct (chunk_index index) as [i|] eqn:Hi.
  2:{ eapply Hrefused; [| |by apply upload_chunk_bad_index]; done. }
  clear Hrefused.
  apply chunk_index_Some in Hi as [-> Hi].
  destruct (known_find _ _ _ Hk) as [s0 Hf].
  rewrite (upload_chunk_found e _ _ _ _ _ _ Hm Hi Hf).
  apply find_session_lookup in Hf as (_ & _ & Hfin0 & _).
  destruct (store_chunk id i buf x s0) as [x' sm] eqn:Hst.
  apply store_chunk_spec in Hst as (Hx' & Hss & _ & Htmp & Hfin).
  assert (totalChunks x' = JNum 0) as Hz' by by rewrite Hx'.
  assert (receivedChunks x' ≠ []) as Hne.
  { rewrite Hx'. cbn [receivedChunks set_received]. apply record_chunk_nonempty. }
  rewrite Hz', all_received_zero by done. cbn [fst snd set_tmp final_root].
  split; [done|]. split; [by rewrite Hfin|]. split.
  - exists x'. split; [|done]. unfold known, set_tmp. cbn [sessions].
    by rewrite Hss, lookup_insert_eq.
  - intros id' i' n t c o [= <- <- <- <- <- <-].
    split; [|done]. destruct (receivedChunks x'); [done|].
    rewrite length_cons. lia.
Qed.

Lemma upload_status_known id s :
  known id (upload_status id s).1 = known id s.
Proof.
  unfold upload_status, find_session, known.
  destruct (sessions s !! id) as [x|] eqn:Hs; simpl; [by rewrite Hs|].
  destruct (readSessionMeta id (tmp_root s)) as [x|] eqn:Hr; simpl.
  - by rewrite lookup_insert_eq.
  - by rewrite Hs, Hr.
Qed.

Lemma step_zero e r s id x :
  ¬ reuses_id id (e, r) →
  known id s = Some x → totalChunks x = JNum 0 →
  ∃ x', known id (step e r s).1 = Some x' ∧ totalChunks x' = JNum 0.
Proof.
  intros Hnew Hk Hz.
  assert (Decision (addresses id r)) as [Haddr|Haddr]
    by (destruct r; simpl; apply _).
  - destruct r as [| id' | id' index chunk | | | |]; simpl in Haddr; try done;
      subst id'; simpl.
    + rewrite upload_status_known. eauto.
    + by destruct (upload_chunk_zero e id index chunk s x Hk Hz)
        as (_ & _ & ? & _).
  - destruct (step_frame e r s id Haddr Hnew) as [Hs Ht].
    rewrite (known_frame _ _ _ Hs Ht). eauto.
Qed.

Lemma run_zero rs : ∀ s id x,
  Forall (λ er, ¬ reuses_id id er) rs →
  known id s = Some x → totalChunks x = JNum 0 →
  ∃ x', known id (run rs s).1 = Some x' ∧ totalChunks x' = JNum 0.
Proof.
  induction rs as [|[e r] rs IH]; intros s id x Hrs Hk Hz; [simpl; eauto|].
  apply Forall_cons in Hrs as [Hr Hrs].
  destruct (step_zero e r s id x Hr Hk Hz) as (x1 & Hk1 & Hz1).
  simpl. destruct (step e r s) as [s1 o] eqn:Hstep. simpl in Hk1.
  destruct (IH s1 id x1 Hrs Hk1 Hz1) as (x2 & Hk2 & Hz2).
  destruct (run rs s1) as [s2 os]. simpl in *. eauto.
Qed.

(** C10: a session created with [totalChunks = 0] is reported complete by
    the status route at once, with no received chunk.  Whatever requests
    follow (none of them an [init] that draws the same id again), a chunk
    submission for that session never gets behind the completion test:
    [mergeChunks] is not entered, [uploads/final] is left as it was, and an
    accepted chunk is answered with a count of at least 1,
    [complete: false] and no output name. *)
Theorem zero_chunk_session_never_merges s e0 fn size mime rs e index chunk :
  fn ≠ "" →
  Forall (λ er, ¬ reuses_id (uuid e0) er) rs →
  let id := uuid e0 in
  let s1 := (upload_init e0 (Some fn) size (Some (JNum 0)) mime s).1 in
  let s2 := (run rs s1).1 in
  let submit := upload_chunk e id index chunk s2 in
  (upload_status id s1).2 = UploadStatusOk id (JNum 0) [] true
  ∧ merge_entered submit.2 = false
  ∧ final_root submit.1 = final_root s2
  ∧ (∀ id' i n t c o, submit.2 = ChunkAccepted id' i n t c o →
       1 ≤ n ∧ t = JNum 0 ∧ c = false ∧ o = None).
Proof.
  intros Hfn Hrs id s1 s2 submit.
  assert (known id s1 = Some (mkSession id (safeName (Some fn)) (default 0 size)
            (JNum 0) (default "application/octet-stream"%string mime)
            (now e0) [])) as Hk1.
  { subst s1. rewrite upload_init_ok by done. unfold known. simpl.
    by rewrite lookup_insert_eq. }
  split.
  - unfold upload_status.
    destruct (known_find _ _ _ Hk1) as [s0 ->]. done.
  - destruct (run_zero rs s1 id _ Hrs Hk1 eq_refl) as (x2 & Hk2 & Hz2).
    destruct (upload_chunk_zero e id index chunk s2 x2 Hk2 Hz2)
      as (Hm & Hfin & _ & Hacc).
    done.
Qed.

Lemma zero_chunk_session_never_merges_witness :
  let s1 := (upload_init (at_time 1000 "u1") (Some "empty.bin"%string)
               (Some 0) (Some (JNum 0)) None empty_server).1 in
  let rs := [(at_time 1001 "u2", UploadInit (Some "clip.mp4"%string) None
                                   (Some (JNum 1)) None);
             (at_time 1002 "", UploadChunk "u2" (JNum 0) (Some (clip_chunk 0)));
             (at_time 1003 "", UploadStatus "u1")] in
  let s2 := (run rs s1).1 in
  let submit := upload_chunk (at_time 1004 "") "u1" (JNum 0)
                  (Some (clip_chunk 0)) s2 in
  (upload_status "u1" s1).2 = UploadStatusOk "u1" (JNum 0) [] true
  ∧ merge_entered submit.2 = false
  ∧ final_root submit.1 = final_root s2.
Proof.
  intros s1 rs s2 submit.
  destruct (zero_chunk_session_never_merges empty_server (at_time 1000 "u1")
              "empty.bin" (Some 0) None rs (at_time 1004 "") (JNum 0)
              (Some (clip_chunk 0))) as (Hst & Hm & Hfin & _).
  - discriminate.
  - repeat constructor; simpl; try tauto. discriminate.
  - split; [exact Hst|]. split; [exact Hm|exact Hfin].
Defined.

(** ** A merge that fails *)

Lemma pipe_chunks_ok_all read n : ∀ start written,
  (pipe_chunks read n start written).2 = true →
  ∀ k, (k < n)%nat → is_Some (read (start + Z.of_nat k)).
Proof.
  induction n as [|n IH]; intros start written Hok k Hk; [lia|].
  simpl in Hok. destruct (read start) as [b|] eqn:Hb; [|done].
  destruct k as [|k]; [rewrite Z.add_0_r; eauto|].
  replace (start + Z.of_nat (S k)) with (start + 1 + Z.of_nat k) by lia.
  eapply IH; [exact Hok|lia].
Qed.

Lemma pipe_chunks_ok_iff read n start written :
  (pipe_chunks read n start written).2 = true
  ↔ ∀ k, (k < n)%nat → is_Some (read (start + Z.of_nat k)).
Proof.
  split; [apply pipe_chunks_ok_all|]. intros Hall.
  destruct (pipe_chunks read n start written).2 eqn:Hok; [done|].
  exfalso. revert start written Hall Hok.
  induction n as [|n IH]; intros start written Hall Hok; [done|].
  simpl in Hok. destruct (Hall 0%nat ltac:(lia)) as [b Hb].
  rewrite Z.add_0_r in Hb. rewrite Hb in Hok.
  apply (IH (start + 1) (written ++ b)); [|done].
  intros k Hk. replace (start + 1 + Z.of_nat k) with (start + Z.of_nat (S k)) by lia.
  apply Hall. lia.
Qed.

Lemma pipe_chunks_failed read n : ∀ start written,
  (pipe_chunks read n start written).2 = false →
  ∃ k, (k < n)%nat ∧ read (start + Z.of_nat k) = None.
Proof.
  induction n as [|n IH]; intros start written Hko; [done|].
  cbn [pipe_chunks] in Hko. destruct (read start) as [b|] eqn:Hb.
  - destruct (IH _ _ Hko) as (k & Hk & Hnone). exists (S k).
    split; [lia|]. rewrite <- Hnone. f_equal. lia.
  - exists 0%nat. split; [lia|]. by rewrite Z.add_0_r.
Qed.

(** [mergeChunks] is rejected exactly when one of the chunk files it reads
    is missing. *)
Lemma mergeChunks_fails e x s :
  (mergeChunks e x s).2 = None
  ↔ ∃ k, (k < turns (totalChunks x))%nat
         ∧ read_chunk (tmp_root s) (uploadId x) (Z.of_nat k) = None.
Proof.
  unfold mergeChunks.
  pose proof (pipe_chunks_ok_iff (read_chunk (tmp_root s) (uploadId x))
                (turns (totalChunks x)) 0 []) as Hiff.
  destruct (pipe_chunks _ _ _ _) as [w ok] eqn:Hpipe. cbn [snd] in Hiff.
  assert ((pipe_chunks (read_chunk (tmp_root s) (uploadId x))
             (turns (totalChunks x)) 0 []).2 = ok) as Hko by by rewrite Hpipe.
  destruct ok; cbn [snd].
  - split; [done|]. intros (k & Hk & Hnone).
    destruct (proj1 Hiff eq_refl k Hk) as [b Hb].
    rewrite Z.add_0_l in Hb. congruence.
  - split; [intros _|done].
    destruct (pipe_chunks_failed _ _ _ _ Hko) as (k & Hk & Hnone).
    rewrite Z.add_0_l in Hnone. eauto.
Qed.

(** When a reader fails, the output holds the chunk files before the first
    missing one. *)
Lemma pipe_chunks_partial tmp id n : ∀ start written,
  (pipe_chunks (read_chunk tmp id) n (Z.of_nat start) written).2 = false →
  ∃ k, (k < n)%nat
       ∧ read_chunk tmp id (Z.of_nat (start + k)) = None
       ∧ (∀ j, (j < k)%nat →
               is_Some (read_chunk tmp id (Z.of_nat (start + j))))
       ∧ (pipe_chunks (read_chunk tmp id) n (Z.of_nat start) written).1
         = written
           ++ concat ((λ j, default [] (read_chunk tmp id (Z.of_nat j)))
                        <$> seq start k).
Proof.
  induction n as [|n IH]; intros start written Hko; [done|].
  cbn [pipe_chunks] in *.
  destruct (read_chunk tmp id (Z.of_nat start)) as [b|] eqn:Hb.
  - replace (Z.of_nat start + 1) with (Z.of_nat (S start)) in * by lia.
    destruct (IH _ _ Hko) as (k & Hk & Hnone & Hbefore & Hout).
    exists (S k). split; [lia|].
    replace (start + S k)%nat with (S start + k)%nat by lia.
    split; [done|]. split.
    + intros [|j] Hj; [by rewrite Nat.add_0_r, Hb|].
      replace (start + S j)%nat with (S start + j)%nat by lia.
      apply Hbefore. lia.
    + rewrite Hout. cbn [seq fmap list_fmap concat]. rewrite Hb. cbn.
      by rewrite <- app_assoc.
  - exists 0%nat. split; [lia|]. rewrite Nat.add_0_r.
    split; [done|]. split; [lia|]. cbn. by rewrite app_nil_r.
Qed.

(** C3 on the code: a session of two chunks receives index 0 and then
    index 5.  Two distinct indices are recorded, so the count equals
    [totalChunks] and [mergeChunks] is entered; it reads [chunk-0.part],
    does not find [chunk-1.part], which was never written, and the promise
    is rejected.  The output file is left with the bytes of chunk 0. *)
Lemma merge_reads_missing_chunk :
  let s := (run [(at_time 1000 "u1", UploadInit (Some "clip.mp4"%string) None
                                       (Some (JNum 2)) None);
                 (at_time 1001 "", UploadChunk "u1" (JNum 0)
                                     (Some (ascii_bytes "AAA")))]
              empty_server).1 in
  let submit := upload_chunk (at_time 1002 "") "u1" (JNum 5)
                  (Some (ascii_bytes "BB")) s in
  submit.2 = Rejected
  ∧ (receivedChunks <$> sessions submit.1 !! "u1") = Some [0; 5]
  ∧ (totalChunks <$> sessions submit.1 !! "u1") = Some (JNum 2)
  ∧ read_chunk (tmp_root submit.1) "u1" 1 = None
  ∧ final_root submit.1 !! "1002-clip.mp4"%string
    = Some (mkFile (ascii_bytes "AAA") 1002).
Proof. vm_compute. done. Qed.

(** ** Live streams *)

Lemma stream_chunk_ok e id buf s st :
  upload_single (Some buf) = true →
  liveStreams s !! id = Some st →
  stream_chunk e id (Some buf) s
  = (mkServer (sessions s)
       (<[id := mkLive (streamId st) (finalName st) (liveMimeType st)
                  (chunkCount st + 1)
                  (bytesWritten st + Z.of_nat (length buf)) (startedAt st)]>
          (liveStreams s))
       (tmp_root s)
       (append_file e (finalName st) buf (final_root s)),
     LiveAccepted id (chunkCount st + 1)
       (bytesWritten st + Z.of_nat (length buf))).
Proof. intros Hm Hst. unfold stream_chunk. by rewrite Hm, Hst. Qed.

Lemma stream_chunk_unknown e id chunk s :
  upload_single chunk = true → liveStreams s !! id = None →
  stream_chunk e id chunk s = (s, NotFound "live stream session not found").
Proof. intros Hm Hst. unfold stream_chunk. by rewrite Hm, Hst. Qed.

Lemma last_stamp_cons t0 e p ps :
  last_stamp t0 ((e, p) :: ps) = last_stamp (stamp e) ps.
Proof.
  unfold last_stamp. destruct ps as [|[e' p'] ps]; [done|].
  change (last ((e, p) :: (e', p') :: ps)) with (last ((e', p') :: ps)).
  destruct (last ((e', p') :: ps)) as [[e1 p1]|] eqn:Hlast; [done|].
  by apply last_None in Hlast.
Qed.

(** The appends of [ps] to a stream whose file exists. *)
Lemma live_run id f ps : ∀ s st old,
  liveStreams s !! id = Some st → finalName st = f →
  final_root s !! f = Some old →
  Forall (λ ep, upload_single (Some ep.2) = true) ps →
  ∃ s',
    run (appends id ps) s
    = (s', live_responses id (chunkCount st) (bytesWritten st) ps)
    ∧ liveStreams s'
      = <[id := mkLive (streamId st) f (liveMimeType st)
                  (chunkCount st + Z.of_nat (length ps))
                  (bytesWritten st + Z.of_nat (length (concat ps.*2)))
                  (startedAt st)]> (liveStreams s)
    ∧ final_root s'
      = <[f := mkFile (contents old ++ concat ps.*2)
                 (last_stamp (mtime old) ps)]> (final_root s)
    ∧ sessions s' = sessions s ∧ tmp_root s' = tmp_root s.
Proof.
  induction ps as [|[e p] ps IH]; intros s st old Hst Hf Hold Hsize.
  - exists s. simpl. rewrite !Z.add_0_r, app_nil_r. unfold last_stamp. simpl.
    split; [done|]. split; [|split; [|done]].
    + rewrite insert_id; [done|]. rewrite Hst. by destruct st; simpl in *; subst.
    + rewrite insert_id; [done|]. rewrite Hold. by destruct old.
  - apply Forall_cons in Hsize as [Hp Hsize]. simpl in Hp.
    change (appends id ((e, p) :: ps))
      with ((e, StreamChunk id (Some p)) :: appends id ps).
    cbn [run step]. rewrite (stream_chunk_ok e id p s st Hp Hst).
    set (st1 := mkLive _ _ _ _ _ _). set (s1 := mkServer _ _ _ _).
    destruct (IH s1 st1 (mkFile (contents old ++ p) (stamp e)))
      as (s' & Hrun & Hlive & Hfin & Hss & Htmp); [| |  |done|].
    + subst s1. simpl. apply lookup_insert_eq.
    + subst st1. simpl. done.
    + subst s1. simpl. unfold append_file. rewrite Hf, Hold.
      apply lookup_insert_eq.
    + exists s'. rewrite Hrun. subst st1 s1. simpl in *.
      split; [done|]. split; [|split; [|done]].
      * rewrite Hlive, Hf, insert_insert_eq. do 2 f_equal; try lia.
        rewrite length_app, Nat2Z.inj_add, Z.add_assoc. reflexivity.
      * rewrite Hfin. unfold append_file. rewrite Hf, Hold, insert_insert_eq.
        by rewrite last_stamp_cons, app_assoc.
Qed.

(** A whole live stream: [init] under a file name that is new, the appends
    of [ps], and [finish]. *)
Lemma live_all s e0 fn mime ps :
  let id := uuid e0 in
  let f := final_name e0 (Some (default "live.webm"%string fn)) in
  final_root s !! f = None →
  Forall (λ ep, Z.of_nat (length ep.2) ≤ fileSize_limit) ps →
  let s1 := (stream_init e0 fn mime s).1 in
  ∃ s2,
    run (appends id ps) s1 = (s2, live_responses id 0 0 ps)
    ∧ final_root s2
      = <[f := mkFile (concat ps.*2) (last_stamp (stamp e0) ps)]> (final_root s)
    ∧ stream_finish id s2
      = (set_live s2 (delete id (liveStreams s2)),
         LiveFinished id f (Z.of_nat (length (concat ps.*2)))
           (Z.of_nat (length ps))).
Proof.
  intros id f Hfresh Hsize s1.
  assert (Forall (λ ep : env * bytes, upload_single (Some ep.2) = true) ps)
    as Hsize'.
  { eapply Forall_impl; [exact Hsize|]. intros ep Hep.
    by apply bool_decide_eq_true_2. }
  set (st0 := mkLive id f (default "video/webm"%string mime) 0 0 (now e0)).
  assert (final_root s1 = <[f := mkFile [] (stamp e0)]> (final_root s)) as Hfin1.
  { subst s1. cbn. unfold open_append. fold f. by rewrite Hfresh. }
  destruct (live_run id f ps s1 st0 (mkFile [] (stamp e0)))
    as (s2 & Hrun & Hlive & Hfin & _); [..|done|].
  { subst s1. cbn. apply lookup_insert_eq. }
  { done. }
  { rewrite Hfin1. apply lookup_insert_eq. }
  exists s2. split; [done|]. split.
  - rewrite Hfin, Hfin1, insert_insert_eq. done.
  - unfold stream_finish. rewrite Hlive, lookup_insert_eq. done.
Qed.

(** C6, as the code has it: a live stream whose file name is not yet in
    [uploads/final] when it is initialised, followed by the appends of the
    payloads [ps] (each within multer's limit) and by [finish], with no
    other request in between.  Every append is accepted; the file holds the
    payloads one after the other in call order; [finish] answers the file
    name, the total number of bytes and the number of appends, and takes the
    stream out of [liveStreams], after which an append or a second [finish]
    is answered 404 and changes nothing. *)
Theorem live_stream_appends_in_order s e0 fn mime ps :
  let id := uuid e0 in
  let f := final_name e0 (Some (default "live.webm"%string fn)) in
  final_root s !! f = None →
  Forall (λ ep, Z.of_nat (length ep.2) ≤ fileSize_limit) ps →
  let s1 := (stream_init e0 fn mime s).1 in
  let streamed := run (appends id ps) s1 in
  let fin := stream_finish id streamed.1 in
  (stream_init e0 fn mime s).2 = StreamCreated id f
  ∧ streamed.2 = live_responses id 0 0 ps
  ∧ final_root fin.1 !! f
    = Some (mkFile (concat ps.*2) (last_stamp (stamp e0) ps))
  ∧ fin.2 = LiveFinished id f (Z.of_nat (length (concat ps.*2)))
              (Z.of_nat (length ps))
  ∧ liveStreams fin.1 !! id = None
  ∧ (∀ e chunk, upload_single chunk = true →
       stream_chunk e id chunk fin.1
       = (fin.1, NotFound "live stream session not found"))
  ∧ (stream_finish id fin.1
     = (fin.1, NotFound "live stream session not found")).
Proof.
  intros id f Hfresh Hsize s1 streamed fin.
  destruct (live_all s e0 fn mime ps Hfresh Hsize)
    as (s2 & Hrun & Hfin & Hfinish).
  subst streamed fin s1. fold id in Hrun, Hfinish. fold f in Hfin, Hfinish.
  rewrite Hrun. cbn [fst snd]. rewrite Hfinish. cbn [fst snd].
  assert (liveStreams (set_live s2 (delete id (liveStreams s2))) !! id = None)
    as Hgone by apply lookup_delete_eq.
  split; [done|]. split; [done|]. split; [|split; [done|split; [done|split]]].
  - cbn [set_live final_root]. rewrite Hfin. apply lookup_insert_eq.
  - intros e chunk Hm. by apply stream_chunk_unknown.
  - unfold stream_finish. by rewrite Hgone.
Qed.

Lemma live_stream_appends_in_order_witness :
  let e0 := at_time 1000 "s1" in
  let ps := [(at_time 1001 "", ascii_bytes "AAA");
             (at_time 1002 "", ascii_bytes "BB");
             (at_time 1003 "", ascii_bytes "C")] in
  let s1 := (stream_init e0 None None empty_server).1 in
  let fin := stream_finish "s1" (run (appends "s1" ps) s1).1 in
  final_root fin.1 !! "1000-live.webm"%string
  = Some (mkFile (ascii_bytes "AAABBC") 1003)
  ∧ fin.2 = LiveFinished "s1" "1000-live.webm" 6 3.
Proof.
  intros e0 ps s1 fin.
  destruct (live_stream_appends_in_order empty_server e0 None None ps)
    as (_ & _ & Hfile & Hfin & _).
  - reflexivity.
  - repeat constructor; vm_compute; discriminate.
  - split; [exact Hfile|exact Hfin].
Defined.

(** C6 as stated fails when two streams get the same file name: both are
    initialised in the same millisecond without a file name, each appends
    one payload, and the first one finishes.  Its file holds the payloads
    of both streams, and twice the bytes that its [finish] reports. *)
Lemma shared_name_mixes_streams :
  let rs := [(at_time 1000 "s1", StreamInit None None);
             (at_time 1000 "s2", StreamInit None None);
             (at_time 1001 "", StreamChunk "s1" (Some (ascii_bytes "AAA")));
             (at_time 1002 "", StreamChunk "s2" (Some (ascii_bytes "BBB")));
             (at_time 1003 "", StreamFinish "s1")] in
  let after := run rs empty_server in
  last after.2 = Some (LiveFinished "s1" "1000-live.webm" 3 1)
  ∧ (contents <$> final_root after.1 !! "1000-live.webm"%string)
    = Some (ascii_bytes "AAABBB")
  ∧ (contents <$> final_root after.1 !! "1000-live.webm"%string)
    ≠ Some (ascii_bytes "AAA").
Proof. vm_compute. split; [done|]. split; [done|discriminate]. Qed.

(** ** Names of the finished files *)

Lemma string_app_cons c (s t : string) : String c s +:+ t = String c (s +:+ t).
Proof. reflexivity. Qed.







(** ** The list of files *)

Global Instance newer_first_total : Total newer_first.
Proof. intros a b. unfold newer_first. lia. Qed.

Global Instance newer_first_trans : Transitive newer_first.
Proof. intros a b c. unfold newer_first. lia. Qed.

Lemma list_files_perm s :
  list_files s ≡ₚ file_info <$> map_to_list (final_root s).
Proof. apply merge_sort_Permutation. Qed.

Lemma list_files_sorted s : StronglySorted newer_first (list_files s).
Proof. apply (StronglySorted_merge_sort newer_first). Qed.

Lemma list_files_elem s n sz t :
  mkInfo n sz t ∈ list_files s
  ↔ ∃ f, final_root s !! n = Some f
         ∧ sz = Z.of_nat (length (contents f)) ∧ t = mtime f.
Proof.
  rewrite list_files_perm, list_elem_of_fmap. split.
  - intros ([n' f] & [= -> -> ->] & Hin%elem_of_map_to_list). eauto.
  - intros (f & Hf & -> & ->). exists (n, f). split; [done|].
    by apply elem_of_map_to_list.
Qed.

Lemma list_files_names s : NoDup (name <$> list_files s).
Proof.
  rewrite list_files_perm, <- list_fmap_compose.
  apply (NoDup_fst_map_to_list (final_root s)).
Qed.

Lemma list_files_insert s s' n f :
  final_root s' = <[n := f]> (final_root s) → final_root s !! n = None →
  list_files s' ≡ₚ file_info (n, f) :: list_files s.
Proof.
  intros Hfin Hnew. rewrite !list_files_perm, Hfin.
  by rewrite map_to_list_insert.
Qed.

(** ** A merge that fails *)

(** C4: the chunk route when the merge it triggers cannot read one of the
    chunk files.  The promise of the handler is rejected: nothing is
    answered, so no completion and no output name are reported.  The
    session object stays in [sessions] with its full list of received
    indices, the chunk files written before stay readable, the new one is
    there, [meta.json] is as it was.  The output file is not removed: it
    stays in [uploads/final] with the chunk files before the first missing
    one, and the listing shows it.  Submitting the chunk again enters
    [mergeChunks] again on the same session, which fails in the same way,
    on the same missing file, and leaves one more such file. *)
Theorem failed_merge_keeps_session e id i buf s x0 s0 x sm :
  upload_single (Some buf) = true → 0 ≤ i →
  find_session id s = Some (x0, s0) →
  store_chunk id i buf x0 s0 = (x, sm) →
  all_received (receivedChunks x) (totalChunks x) = true →
  (∃ k, (k < turns (totalChunks x))%nat
        ∧ read_chunk (tmp_root sm) (uploadId x) (Z.of_nat k) = None) →
  let failed := upload_chunk e id (JNum i) (Some buf) s in
  failed.2 = Rejected
  ∧ sessions failed.1 !! id = Some x
  ∧ (∀ j b, read_chunk (tmp_root s) id j = Some b → j ≠ i →
            read_chunk (tmp_root failed.1) id j = Some b)
  ∧ read_chunk (tmp_root failed.1) id i = Some buf
  ∧ readSessionMeta id (tmp_root failed.1) = readSessionMeta id (tmp_root s)
  ∧ ∃ k, (k < turns (totalChunks x))%nat
      ∧ read_chunk (tmp_root failed.1) (uploadId x) (Z.of_nat k) = None
      ∧ (∀ j, (j < k)%nat →
           is_Some (read_chunk (tmp_root failed.1) (uploadId x) (Z.of_nat j)))
      ∧ let partial := piped (tmp_root failed.1) (uploadId x) k in
        final_root failed.1
        = <[final_name e (Some (originalName x)) := mkFile partial (stamp e)]>
            (final_root s)
        ∧ mkInfo (final_name e (Some (originalName x)))
            (Z.of_nat (length partial)) (stamp e) ∈ list_files failed.1
        ∧ ∀ e2,
            let retry := upload_chunk e2 id (JNum i) (Some buf) failed.1 in
            retry.2 = Rejected
            ∧ sessions retry.1 = sessions failed.1
            ∧ tmp_root retry.1 = tmp_root failed.1
            ∧ final_root retry.1
              = <[final_name e2 (Some (originalName x))
                  := mkFile partial (stamp e2)]> (final_root failed.1).
Proof.
  intros Hm Hi Hf Hst Hall Hfail failed.
  pose proof (proj2 (mergeChunks_fails e x sm) Hfail) as Hnone.
  assert (failed = ((mergeChunks e x sm).1, Rejected)) as Hfailed.
  { subst failed. rewrite (upload_chunk_found e _ _ _ _ _ _ Hm Hi Hf), Hst, Hall.
    destruct (mergeChunks e x sm) as [s3 [out|]]; [done|done]. }
  pose proof (upload_chunk_after_rejected e) as Hretry.
  specialize (Hretry) with (1 := Hm) (2 := Hi) (3 := Hst) (4 := Hall).
  cbn zeta in Hretry.
  pose proof (mergeChunks_state e x sm) as (Hms & _ & Hmt).
  pose proof Hf as Hf'. apply find_session_lookup in Hf' as (_ & Ht0 & Hfin0 & _).
  pose proof Hst as Hst'.
  apply store_chunk_spec in Hst' as (Hx & Hss & _ & Htmp & Hfin1).
  rewrite Hfailed. cbn [fst snd].
  split; [done|]. split; [by rewrite Hms, Hss, lookup_insert_eq|].
  split; [|split; [|split]].
  - intros j b Hb Hj. rewrite Hmt, Htmp, Ht0.
    rewrite read_chunk_write_other, read_chunk_mkdir_p by congruence. done.
  - rewrite Hmt, Htmp. apply read_chunk_stored.
  - rewrite Hmt, Htmp, Ht0. unfold readSessionMeta, write_chunk.
    destruct (mkdir_p_is_Some id (tmp_root s)) as [d Hd]. rewrite Hd.
    rewrite lookup_insert_eq. cbn. unfold mkdir_p in Hd.
    destruct (tmp_root s !! id) as [d'|] eqn:Hd'.
    + rewrite Hd' in Hd. by injection Hd as <-.
    + rewrite lookup_insert_eq in Hd. by injection Hd as <-.
  - rewrite Hmt.
    assert (∀ e', ∃ k,
              (k < turns (totalChunks x))%nat
              ∧ read_chunk (tmp_root sm) (uploadId x) (Z.of_nat k) = None
              ∧ (∀ j, (j < k)%nat →
                   is_Some (read_chunk (tmp_root sm) (uploadId x) (Z.of_nat j)))
              ∧ ∀ s', tmp_root s' = tmp_root sm →
                  mergeChunks e' x s'
                  = (set_final s'
                       (<[final_name e' (Some (originalName x))
                          := mkFile (piped (tmp_root sm) (uploadId x) k)
                               (stamp e')]> (final_root s')), None))
      as Hshape.
    { intros e'.
      assert ((pipe_chunks (read_chunk (tmp_root sm) (uploadId x))
                 (turns (totalChunks x)) (Z.of_nat 0) []).2 = false) as Hko.
      { apply not_true_is_false. intros Hok.
        destruct Hfail as (k & Hk & Hmiss).
        destruct (pipe_chunks_ok_all _ _ _ _ Hok k Hk) as [b Hb].
        change (Z.of_nat 0) with 0 in Hb. rewrite Z.add_0_l in Hb.
        congruence. }
      destruct (pipe_chunks_partial _ _ _ _ _ Hko)
        as (k & Hk & Hmiss & Hbefore & Hout).
      exists k. split; [done|]. split; [done|]. split; [done|].
      intros s' Hs'. unfold mergeChunks. rewrite Hs'.
      change 0 with (Z.of_nat 0).
      destruct (pipe_chunks _ _ _ _) as [w ok]. cbn [fst snd] in *.
      by rewrite Hko, Hout. }
    destruct (Hshape e) as (k & Hk & Hmiss & Hbefore & Hmerge).
    exists k. do 3 (split; [done|]).
    assert (final_root (mergeChunks e x sm).1
            = <[final_name e (Some (originalName x))
                := mkFile (piped (tmp_root sm) (uploadId x) k) (stamp e)]>
                (final_root s)) as Hfin.
    { rewrite (Hmerge sm) by done. cbn. by rewrite Hfin1, Hfin0. }
    cbn zeta. split; [done|]. split.
    { apply list_files_elem. eexists. rewrite Hfin, lookup_insert_eq.
      by split. }
    intros e2. rewrite Hretry.
    destruct (Hshape e2) as (k2 & Hk2 & Hmiss2 & Hbefore2 & Hmerge2).
    assert (k2 = k) as ->.
    { destruct (Nat.lt_trichotomy k2 k) as [Hlt|[->|Hlt]]; [|done|].
      - destruct (Hbefore k2 Hlt). congruence.
      - destruct (Hbefore2 k Hlt). congruence. }
    rewrite (Hmerge2 (mergeChunks e x sm).1) by done. cbn.
    by rewrite Hms, Hmt.
Qed.

Lemma failed_merge_keeps_session_witness :
  let s := (run [(at_time 1000 "u1", UploadInit (Some "clip.mp4"%string) None
                                       (Some (JNum 2)) None);
                 (at_time 1001 "", UploadChunk "u1" (JNum 0)
                                     (Some (ascii_bytes "AAA")))]
              empty_server).1 in
  let failed := upload_chunk (at_time 1002 "") "u1" (JNum 5)
                  (Some (ascii_bytes "BB")) s in
  failed.2 = Rejected
  ∧ (receivedChunks <$> sessions failed.1 !! "u1") = Some [0; 5]
  ∧ read_chunk (tmp_root failed.1) "u1" 0 = Some (ascii_bytes "AAA")
  ∧ read_chunk (tmp_root failed.1) "u1" 5 = Some (ascii_bytes "BB").
Proof.
  intros s failed.
  destruct (failed_merge_keeps_session (at_time 1002 "") "u1" 5
              (ascii_bytes "BB") s _ _ _ _ eq_refl ltac:(lia) eq_refl
              eq_refl eq_refl)
    as (Hrej & Hsess & Hold & Hnew & _).
  { exists 1%nat. split; [cbn; lia|reflexivity]. }
  split; [exact Hrej|]. split; [|split].
  - fold failed in Hsess. rewrite Hsess. reflexivity.
  - apply Hold; [reflexivity|lia].
  - exact Hnew.
Defined.

(** C4 as stated fails where it says that no partly written file is
    reported as final.  A session of two chunks has received index 0 and
    receives index 5: the merge pipes [chunk-0.part], fails on
    [chunk-1.part], and the output file, with the bytes of chunk 0 only,
    is in [uploads/final], where the listing shows it beside the finished
    files.  The same submission again fails again and leaves a second such
    file. *)
Lemma failed_merge_leaves_partial_file :
  let s := (run [(at_time 1000 "u1", UploadInit (Some "clip.mp4"%string) None
                                       (Some (JNum 2)) None);
                 (at_time 1001 "", UploadChunk "u1" (JNum 0)
                                     (Some (ascii_bytes "AAA")))]
              empty_server).1 in
  let failed := upload_chunk (at_time 1002 "") "u1" (JNum 5)
                  (Some (ascii_bytes "BB")) s in
  let retry := upload_chunk (at_time 1003 "") "u1" (JNum 5)
                 (Some (ascii_bytes "BB")) failed.1 in
  failed.2 = Rejected
  ∧ final_root failed.1 !! "1002-clip.mp4"%string
    = Some (mkFile (ascii_bytes "AAA") 1002)
  ∧ list_files failed.1 = [mkInfo "1002-clip.mp4" 3 1002]
  ∧ retry.2 = Rejected
  ∧ list_files retry.1
    = [mkInfo "1003-clip.mp4" 3 1003; mkInfo "1002-clip.mp4" 3 1002].
Proof. intros s failed retry. by vm_compute. Qed.


(** C9, as the code has it.  The list has one entry per file of
    [uploads/final], with the file's name, size and [mtime], and every entry
    is at least as recent as the entries after it.  A whole upload (init,
    then the N >= 1 chunks in any order) whose merged file takes a name that
    is not yet in the directory adds one entry to the list, with that name
    and the total number of payload bytes as size.  So does a live stream
    (init, appends, finish) whose file name is new when it is initialised;
    its size is the [bytesWritten] that [finish] reports. *)
Theorem listing_reflects_output_area :
  (∀ s, list_files s ≡ₚ file_info <$> map_to_list (final_root s))
  ∧ (∀ s, NoDup (name <$> list_files s))
  ∧ (∀ s n sz t,
       mkInfo n sz t ∈ list_files s
       ↔ ∃ f, final_root s !! n = Some f
              ∧ sz = Z.of_nat (length (contents f)) ∧ t = mtime f)
  ∧ (∀ s, StronglySorted (λ a b, modifiedAt b ≤ modifiedAt a) (list_files s))
  ∧ (∀ s e0 fn size mime N P order e_last k_last,
       fn ≠ "" → order.*2 ≡ₚ seq 0 N →
       last order = Some (e_last, k_last) →
       (∀ k, (k < N)%nat → Z.of_nat (length (P k)) ≤ fileSize_limit) →
       let s1 := (upload_init e0 (Some fn) size (Some (JNum (Z.of_nat N)))
                    mime s).1 in
       let after := run (submissions (uuid e0) P order) s1 in
       let out := final_name e_last (Some fn) in
       final_root s !! out = None →
       last after.2
       = Some (ChunkAccepted (uuid e0) (Z.of_nat k_last) (Z.of_nat N)
                 (JNum (Z.of_nat N)) true (Some out))
       ∧ list_files after.1
         ≡ₚ mkInfo out (Z.of_nat (length (in_index_order P N))) (stamp e_last)
            :: list_files s)
  ∧ (∀ s e0 fn mime ps,
       let f := final_name e0 (Some (default "live.webm"%string fn)) in
       final_root s !! f = None →
       Forall (λ ep, Z.of_nat (length ep.2) ≤ fileSize_limit) ps →
       let s1 := (stream_init e0 fn mime s).1 in
       let fin := stream_finish (uuid e0) (run (appends (uuid e0) ps) s1).1 in
       ∃ written chunks,
         fin.2 = LiveFinished (uuid e0) f written chunks
         ∧ list_files fin.1
           ≡ₚ mkInfo f written (last_stamp (stamp e0) ps) :: list_files s).
Proof.
  split; [apply list_files_perm|]. split; [apply list_files_names|].
  split; [apply list_files_elem|]. split; [apply list_files_sorted|]. split.
  - intros s e0 fn size mime N P order e_last k_last Hfn Hperm Hlast Hsize
      s1 after out Hnew.
    assert (length order = N) as Hlen.
    { by rewrite <- (length_fmap snd order), Hperm, length_seq. }
    destruct (upload_all s e0 fn size mime N P order e_last k_last)
      as (s' & Hrun & Hfin & _); try done.
    { intros k Hk. unfold upload_single. apply bool_decide_eq_true_2. auto. }
    subst after s1. rewrite Hrun. cbn [fst snd]. split.
    + rewrite (chunk_responses_last _ _ N order 0 e_last k_last)
        by (done || lia).
      by rewrite final_name_safe.
    + by apply (list_files_insert s s' out _ Hfin).
  - intros s e0 fn mime ps f Hnew Hsize s1 fin.
    destruct (live_all s e0 fn mime ps Hnew Hsize)
      as (s2 & Hrun & Hfin & Hfinish).
    subst fin s1. fold f in Hfin, Hfinish.
    rewrite Hrun. cbn [fst]. rewrite Hfinish. cbn [fst snd].
    eexists _, _. split; [done|].
    rewrite (list_files_insert s _ f _ Hfin Hnew). done.
Qed.

Lemma listing_reflects_output_area_witness :
  let s := (run two_uploads_same_ms empty_server).1 in
  let order := [(at_time 3001 "", 2%nat); (at_time 3002 "", 0%nat);
                (at_time 3003 "", 1%nat)] in
  let s1 := (upload_init (at_time 3000 "u3") (Some "clip.mp4"%string) None
               (Some (JNum 3)) None s).1 in
  let after := run (submissions "u3" clip_chunk order) s1 in
  list_files after.1
  ≡ₚ mkInfo "3003-clip.mp4" 6 3003 :: list_files s.
Proof.
  intros s order s1 after.
  destruct listing_reflects_output_area as (_ & _ & _ & _ & Hmerge & _).
  refine (proj2 (Hmerge s (at_time 3000 "u3") "clip.mp4"%string None None
                   3%nat clip_chunk order (at_time 3003 "") 1%nat _ _ _ _ _)).
  - discriminate.
  - apply (Permutation_trans (l' := [0%nat; 2%nat; 1%nat])).
    + apply perm_swap.
    + apply perm_skip, perm_swap.
  - reflexivity.
  - intros k _. apply clip_chunk_small.
  - reflexivity.
Defined.

(** C9 as stated fails: the second of two merges that take the same file
    name is answered [complete: true] with that name, and the list has the
    one entry it had before, now with the size of the second upload. *)
Lemma overwriting_merge_adds_no_entry :
  let before := (run (take 3 two_uploads_same_ms) empty_server).1 in
  let after := upload_chunk (at_time 2000 "") "u2" (JNum 0)
                 (Some (ascii_bytes "BB")) before in
  after.2 = ChunkAccepted "u2" 0 1 (JNum 1) true (Some "2000-clip.mp4"%string)
  ∧ list_files before = [mkInfo "2000-clip.mp4" 3 2000]
  ∧ list_files after.1 = [mkInfo "2000-clip.mp4" 2 2000].
Proof. vm_compute. done. Qed.

(** ** Sequences of requests *)

Lemma run_invariant (I : server → Prop) rs : ∀ s,
  (∀ e r s, I s → I (step e r s).1) → I s → I (run rs s).1.
Proof.
  induction rs as [|[e r] rs IH]; intros s Hstep Hs; [done|].
  cbn [run]. pose proof (Hstep e r s Hs) as Hs1.
  destruct (step e r s) as [s1 o]. pose proof (IH s1 Hstep Hs1) as Hs2.
  by destruct (run rs s1).
Qed.

Lemma all_in_range (r : list Z) (z : Z) :
  NoDup r → Forall (λ j, 0 ≤ j < z) r → Z.of_nat (length r) = z →
  ∀ k, 0 ≤ k < z → k ∈ r.
Proof.
  intros Hnd Hrange Hlen k Hk.
  assert (r ≡ₚ seqZ 0 z) as ->; [|apply elem_of_seqZ; lia].
  apply submseteq_length_Permutation.
  - apply NoDup_submseteq; [done|]. intros j Hj. apply elem_of_seqZ.
    rewrite Forall_forall in Hrange. specialize (Hrange j Hj). lia.
  - rewrite length_seqZ. lia.
Qed.

(** ** File names determine time and name *)

Lemma pretty_N_char_digit x : is_digit (pretty_N_char x) = true.
Proof. unfold pretty_N_char. by repeat case_match. Qed.

Lemma pretty_N_go_digits x : ∀ s,
  digits s = true →
  digits (pretty_N_go x s) = true
  ∧ (String.length s ≤ String.length (pretty_N_go x s))%nat.
Proof.
  induction (N.lt_wf_0 x) as [x _ IH]; intros s Hs.
  assert (x = 0 ∨ 0 < x)%N as [->|Hx] by lia.
  - by rewrite pretty_N_go_0.
  - rewrite pretty_N_go_step by done.
    destruct (IH (x `div` 10)%N) with (s := String (pretty_N_char (x `mod` 10)) s)
      as [Hd Hl].
    + by apply N.div_lt.
    + cbn [digits]. by rewrite pretty_N_char_digit, Hs.
    + split; [done|]. cbn [String.length] in Hl. lia.
Qed.

Lemma pretty_N_digits (x : N) : digits (pretty x) = true ∧ pretty x ≠ "".
Proof.
  unfold pretty, pretty_N. case_decide as Hx; [done|].
  assert (0 < x)%N as Hpos by lia.
  rewrite pretty_N_go_step by done.
  destruct (pretty_N_go_digits (x `div` 10)%N
              (String (pretty_N_char (x `mod` 10)) "")) as [Hd Hl].
  { cbn [digits]. by rewrite pretty_N_char_digit. }
  split; [done|]. intros Hnil. rewrite Hnil in Hl. cbn in Hl. lia.
Qed.

Lemma string_app_nil (s : string) : "" +:+ s = s.
Proof. reflexivity. Qed.

Lemma dash_app (r : string) : "-" +:+ r = String "-" r.
Proof. reflexivity. Qed.

Lemma split_at_dash d1 : ∀ d2 r1 r2,
  digits d1 = true → digits d2 = true →
  d1 +:+ "-" +:+ r1 = d2 +:+ "-" +:+ r2 → d1 = d2 ∧ r1 = r2.
Proof.
  induction d1 as [|c d1 IH]; intros [|c2 d2] r1 r2 H1 H2 Heq;
    rewrite ?string_app_cons, ?string_app_nil in Heq.
  - by injection Heq as ->.
  - injection Heq as <- _.
    cbn [digits] in H2. by apply andb_true_iff in H2 as [? _].
  - injection Heq as -> _.
    cbn [digits] in H1. by apply andb_true_iff in H1 as [? _].
  - injection Heq as -> Heq.
    cbn [digits] in H1, H2.
    apply andb_true_iff in H1 as [_ H1]. apply andb_true_iff in H2 as [_ H2].
    destruct (IH d2 r1 r2 H1 H2 Heq) as [-> ->]. done.
Qed.

Lemma pretty_Z_shape (z : Z) :
  (0 ≤ z ∧ digits (pretty z) = true ∧ pretty z ≠ "")
  ∨ (z < 0 ∧ ∃ d, pretty z = "-" +:+ d ∧ digits d = true ∧ d ≠ ""
                  ∧ d = pretty (Z.to_N (- z))).
Proof.
  destruct z as [|p|p].
  - left. done.
  - left. split; [lia|]. apply (pretty_N_digits (N.pos p)).
  - right. split; [lia|]. exists (pretty (N.pos p)).
    split; [done|]. destruct (pretty_N_digits (N.pos p)) as [? ?]. done.
Qed.

Lemma final_name_inj e1 e2 n1 n2 :
  final_name e1 n1 = final_name e2 n2 →
  now e1 = now e2 ∧ safeName n1 = safeName n2.
Proof.
  unfold final_name. intros Heq.
  destruct (pretty_Z_shape (now e1))
    as [(H1 & Hd1 & Hne1)|(H1 & d1 & Hp1 & Hd1 & Hne1 & Hv1)],
      (pretty_Z_shape (now e2))
    as [(H2 & Hd2 & Hne2)|(H2 & d2 & Hp2 & Hd2 & Hne2 & Hv2)].
  - destruct (split_at_dash _ _ _ _ Hd1 Hd2 Heq) as [Hp ->].
    split; [|done]. by apply (inj pretty).
  - exfalso. rewrite Hp2 in Heq.
    destruct (pretty (now e1)) as [|c p1]; [done|].
    rewrite ?string_app_cons, ?string_app_nil in Heq. injection Heq as -> _.
    cbn [digits] in Hd1. by apply andb_true_iff in Hd1 as [? _].
  - exfalso. rewrite Hp1 in Heq.
    destruct (pretty (now e2)) as [|c p2]; [done|].
    rewrite ?string_app_cons, ?string_app_nil in Heq. injection Heq as <- _.
    cbn [digits] in Hd2. by apply andb_true_iff in Hd2 as [? _].
  - rewrite Hp1, Hp2 in Heq.
    change (String "-" (d1 +:+ "-" +:+ safeName n1)
            = String "-" (d2 +:+ "-" +:+ safeName n2)) in Heq.
    injection Heq as Heq.
    destruct (split_at_dash _ _ _ _ Hd1 Hd2 Heq) as [Hd ->].
    split; [|done]. apply (inj pretty). by rewrite Hp1, Hp2, Hd.
Qed.

(** X3: A file name of [uploads/final] determines the clock reading and the
    sanitised name it was built from: two names are equal only when both
    parts are. *)
Theorem final_name_determines_time_and_name e1 e2 n1 n2 :
  final_name e1 n1 = final_name e2 n2 ↔
  now e1 = now e2 ∧ safeName n1 = safeName n2.
Proof.
  split; [apply final_name_inj|]. unfold final_name. by intros [-> ->].
Qed.

(** ** The files of [uploads/final] *)

Lemma mergeChunks_final e x s f :
  f ≠ final_name e (Some (originalName x)) →
  final_root (mergeChunks e x s).1 !! f = final_root s !! f.
Proof.
  intros Hne. unfold mergeChunks. destruct (pipe_chunks _ _ _ _) as [w ok].
  assert (final_root (set_final s (<[final_name e (Some (originalName x))
             := mkFile w (stamp e)]> (final_root s))) !! f = final_root s !! f)
    as Hfin by (by cbn; rewrite lookup_insert_ne).
  by destruct ok.
Qed.

Lemma mergeChunks_final_grows e x s f :
  is_Some (final_root s !! f) → is_Some (final_root (mergeChunks e x s).1 !! f).
Proof.
  intros Hf. unfold mergeChunks. destruct (pipe_chunks _ _ _ _) as [w ok].
  assert (is_Some (final_root (set_final s (<[final_name e (Some (originalName x))
             := mkFile w (stamp e)]> (final_root s))) !! f)) as Hfin.
  { cbn. rewrite lookup_insert. case_decide; eauto. }
  by destruct ok.
Qed.

(** The chunk route changes [uploads/final] through [mergeChunks] only. *)
Lemma upload_chunk_final e id index chunk s :
  final_root (upload_chunk e id index chunk s).1 = final_root s
  ∨ ∃ x sm, final_root sm = final_root s
            ∧ final_root (upload_chunk e id index chunk s).1
              = final_root (mergeChunks e x sm).1.
Proof.
  destruct (upload_single chunk) eqn:Hm;
    [|rewrite upload_chunk_too_large by done; auto].
  destruct chunk as [buf|]; [|auto].
  destruct (chunk_index index) as [i|] eqn:Hi;
    [|rewrite upload_chunk_bad_index by done; auto].
  apply chunk_index_Some in Hi as [-> Hi].
  destruct (find_session id s) as [[x0 s0]|] eqn:Hf;
    [|rewrite upload_chunk_unknown by done; auto].
  rewrite (upload_chunk_found e _ _ _ _ _ _ Hm Hi Hf).
  apply find_session_lookup in Hf as (_ & _ & Hfin0 & _).
  destruct (store_chunk id i buf x0 s0) as [x sm] eqn:Hst.
  apply store_chunk_spec in Hst as (_ & _ & _ & _ & Hfin).
  destruct (all_received (receivedChunks x) (totalChunks x)).
  - right. exists x, sm. split; [by rewrite Hfin|].
    by destruct (mergeChunks e x sm) as [s3 [out|]].
  - left. cbn. by rewrite Hfin.
Qed.

Lemma open_append_grows e f fin g :
  is_Some (fin !! g) → is_Some (open_append e f fin !! g).
Proof.
  intros Hg. unfold open_append. destruct (fin !! f); [done|].
  rewrite lookup_insert. case_decide; eauto.
Qed.

Lemma append_file_grows e f buf fin g :
  is_Some (fin !! g) → is_Some (append_file e f buf fin !! g).
Proof.
  intros Hg. unfold append_file.
  destruct (fin !! f); rewrite lookup_insert; case_decide; eauto.
Qed.

Lemma step_keeps_files e r s f :
  is_Some (final_root s !! f) → is_Some (final_root (step e r s).1 !! f).
Proof.
  intros Hf. destruct r as [fn sz ch mi|id|id index chunk|fn mi|id chunk|id|];
    cbn [step].
  - destruct fn as [[|c fn]|]; [done| |done]. by rewrite upload_init_ok.
  - unfold upload_status.
    destruct (find_session id s) as [[x s0]|] eqn:Hfs; [|done].
    apply find_session_lookup in Hfs as (_ & _ & Hfin & _). cbn.
    by rewrite Hfin.
  - destruct (upload_chunk_final e id index chunk s)
      as [->|(x & sm & Hsm & ->)]; [done|].
    apply mergeChunks_final_grows. by rewrite Hsm.
  - cbn. by apply open_append_grows.
  - unfold stream_chunk. destruct (negb (upload_single chunk)); [done|].
    destruct (liveStreams s !! id); [|done]. destruct chunk; [|done].
    cbn. by apply append_file_grows.
  - unfold stream_finish. by destruct (liveStreams s !! id).
  - done.
Qed.

(** X4: No request removes a file from [uploads/final]: a file that is there
    is still there after any sequence of requests. *)
Theorem final_files_are_never_removed rs s f :
  is_Some (final_root s !! f) → is_Some (final_root (run rs s).1 !! f).
Proof.
  intros Hf.
  apply (run_invariant (λ s, is_Some (final_root s !! f))); [|done].
  intros e r s'. apply step_keeps_files.
Qed.

Lemma final_files_are_never_removed_witness :
  let s := (run two_uploads_same_ms empty_server).1 in
  let rs := [(at_time 3000 "s1", StreamInit None None);
             (at_time 3001 "", StreamChunk "s1" (Some (ascii_bytes "AAA")));
             (at_time 3002 "", StreamFinish "s1");
             (at_time 3003 "", ListFiles)] in
  is_Some (final_root (run rs s).1 !! "2000-clip.mp4"%string).
Proof.
  intros s rs. apply (final_files_are_never_removed rs s).
  vm_compute. eauto.
Defined.

Lemma upload_chunk_live e id index chunk s :
  liveStreams (upload_chunk e id index chunk s).1 = liveStreams s.
Proof.
  destruct (upload_single chunk) eqn:Hm;
    [|by rewrite upload_chunk_too_large].
  destruct chunk as [buf|]; [|done].
  destruct (chunk_index index) as [i|] eqn:Hi;
    [|by rewrite upload_chunk_bad_index].
  apply chunk_index_Some in Hi as [-> Hi].
  destruct (find_session id s) as [[x0 s0]|] eqn:Hf;
    [|by rewrite upload_chunk_unknown].
  rewrite (upload_chunk_found e _ _ _ _ _ _ Hm Hi Hf).
  apply find_session_lookup in Hf as (_ & _ & _ & Hl0).
  destruct (store_chunk id i buf x0 s0) as [x sm] eqn:Hst.
  apply store_chunk_spec in Hst as (_ & _ & Hl & _ & _).
  destruct (all_received (receivedChunks x) (totalChunks x)).
  - pose proof (mergeChunks_state e x sm) as (_ & Hml & _).
    destruct (mergeChunks e x sm) as [s3 [out|]]; cbn in *; congruence.
  - cbn. congruence.
Qed.

Lemma step_leaves_file e0 n0 e r s :
  let f := final_name e0 n0 in
  now e ≠ now e0 → no_writer f s →
  no_writer f (step e r s).1
  ∧ final_root (step e r s).1 !! f = final_root s !! f.
Proof.
  intros f Hnow Hnw.
  assert (∀ n, f ≠ final_name e n) as Hname.
  { intros n Heq. apply final_name_inj in Heq as [Heq _].
    by symmetry in Heq. }
  destruct r as [fn sz ch mi|id|id index chunk|fn mi|id chunk|id|];
    cbn [step].
  - destruct fn as [[|c fn]|]; [done| |done]. by rewrite upload_init_ok.
  - unfold upload_status.
    destruct (find_session id s) as [[x s0]|] eqn:Hfs; [|done].
    apply find_session_lookup in Hfs as (_ & _ & Hfin & Hl). cbn [fst].
    unfold no_writer. by rewrite Hfin, Hl.
  - split; [unfold no_writer; by rewrite upload_chunk_live|].
    destruct (upload_chunk_final e id index chunk s)
      as [->|(x & sm & Hsm & ->)]; [done|].
    by rewrite mergeChunks_final, Hsm.
  - unfold stream_init. cbn [fst]. split.
    + intros id st. cbn [liveStreams].
      destruct (decide (uuid e = id)) as [<-|Hne].
      * rewrite lookup_insert_eq. intros [= <-]. cbn. by apply not_eq_sym.
      * rewrite lookup_insert_ne by done. apply Hnw.
    + cbn [final_root]. unfold open_append. destruct (final_root s !! _); [done|].
      rewrite lookup_insert_ne; [done|]. by apply not_eq_sym.
  - unfold stream_chunk. destruct (negb (upload_single chunk)); [done|].
    destruct (liveStreams s !! id) as [st|] eqn:Hst; [|done].
    destruct chunk as [buf|]; [|done]. cbn [fst]. split.
    + intros id' st'. cbn [liveStreams].
      destruct (decide (id = id')) as [<-|Hne].
      * rewrite lookup_insert_eq. intros [= <-]. cbn. by apply (Hnw id).
      * rewrite lookup_insert_ne by done. apply Hnw.
    + cbn [final_root finalName]. unfold append_file. pose proof (Hnw _ _ Hst) as Hne.
      by destruct (final_root s !! finalName st); rewrite lookup_insert_ne.
  - unfold stream_finish. destruct (liveStreams s !! id) as [st|]; [|done].
    cbn [fst]. split; [|done]. intros id' st'. cbn [set_live liveStreams].
    intros Hst'. apply lookup_delete_Some in Hst' as [_ Hst'].
    by apply (Hnw id').
  - done.
Qed.

(** X5: A file of [uploads/final] that no live stream has open keeps its bytes
    and its [mtime] through every sequence of requests whose clock readings
    differ from the one in its name. *)
Theorem finished_file_is_not_rewritten e0 n0 rs s :
  let f := final_name e0 n0 in
  no_writer f s →
  Forall (λ er, now er.1 ≠ now e0) rs →
  final_root (run rs s).1 !! f = final_root s !! f.
Proof.
  intros f. revert s. induction rs as [|[e r] rs IH]; intros s Hnw Hrs; [done|].
  apply Forall_cons in Hrs as [Hnow Hrs].
  destruct (step_leaves_file e0 n0 e r s Hnow Hnw) as [Hnw1 Hf1].
  cbn [run]. destruct (step e r s) as [s1 o]. cbn [fst] in *.
  specialize (IH s1 Hnw1 Hrs). destruct (run rs s1) as [s2 os].
  cbn [fst] in *. by rewrite IH.
Qed.

Lemma finished_file_is_not_rewritten_witness :
  let s := (run two_uploads_same_ms empty_server).1 in
  let rs := [(at_time 3000 "u3", UploadInit (Some "clip.mp4"%string) None
                                   (Some (JNum 1)) None);
             (at_time 3001 "", UploadChunk "u3" (JNum 0)
                                 (Some (ascii_bytes "C")));
             (at_time 3002 "s1", StreamInit (Some "clip.mp4"%string) None);
             (at_time 3003 "", StreamChunk "s1" (Some (ascii_bytes "AAA")))] in
  final_root (run rs s).1 !! "2000-clip.mp4"%string
  = Some (mkFile (ascii_bytes "BB") 2000).
Proof.
  intros s rs.
  refine (eq_trans (finished_file_is_not_rewritten (at_time 2000 "")
                      (Some "clip.mp4"%string) rs s _ _) _).
  - intros id st Hst. vm_compute in Hst. discriminate.
  - repeat constructor; cbn; lia.
  - reflexivity.
Defined.

(** ** Sessions that cannot complete *)

Lemma all_received_no_count r total :
  no_count total → r ≠ [] → all_received r total = false.
Proof.
  destruct total as [z|]; [|done]. cbn. intros Hz Hr.
  apply bool_decide_eq_false_2. destruct r; [done|]. cbn [length]. lia.
Qed.

Lemma upload_chunk_no_count e id index chunk s x :
  known id s = Some x → no_count (totalChunks x) →
  merge_entered (upload_chunk e id index chunk s).2 = false
  ∧ final_root (upload_chunk e id index chunk s).1 = final_root s
  ∧ ∃ x', known id (upload_chunk e id index chunk s).1 = Some x'
          ∧ totalChunks x' = totalChunks x.
Proof.
  intros Hk Hz.
  destruct (upload_single chunk) eqn:Hm.
  2:{ rewrite upload_chunk_too_large by done. cbn. eauto. }
  destruct chunk as [buf|].
  2:{ rewrite upload_chunk_no_payload. cbn. eauto. }
  destruct (chunk_index index) as [i|] eqn:Hi.
  2:{ rewrite upload_chunk_bad_index by done. cbn. eauto. }
  apply chunk_index_Some in Hi as [-> Hi].
  destruct (known_find _ _ _ Hk) as [s0 Hf].
  rewrite (upload_chunk_found e _ _ _ _ _ _ Hm Hi Hf).
  apply find_session_lookup in Hf as (_ & _ & Hfin0 & _).
  destruct (store_chunk id i buf x s0) as [x' sm] eqn:Hst.
  apply store_chunk_spec in Hst as (Hx' & Hss & _ & Htmp & Hfin).
  assert (totalChunks x' = totalChunks x) as Hz' by by rewrite Hx'.
  assert (receivedChunks x' ≠ []) as Hne.
  { rewrite Hx'. cbn [receivedChunks set_received]. apply record_chunk_nonempty. }
  rewrite all_received_no_count by (by rewrite ?Hz').
  cbn [fst snd set_tmp final_root].
  split; [done|]. split; [by rewrite Hfin|].
  exists x'. split; [|done]. unfold known, set_tmp. cbn [sessions].
  by rewrite Hss, lookup_insert_eq.
Qed.

Lemma step_no_count e r s id x :
  ¬ reuses_id id (e, r) →
  known id s = Some x → no_count (totalChunks x) →
  ∃ x', known id (step e r s).1 = Some x' ∧ totalChunks x' = totalChunks x.
Proof.
  intros Hnew Hk Hz.
  assert (Decision (addresses id r)) as [Haddr|Haddr]
    by (destruct r; cbn; apply _).
  - destruct r as [| id' | id' index chunk | | | |]; cbn in Haddr; try done;
      subst id'; cbn [step].
    + rewrite upload_status_known. eauto.
    + by destruct (upload_chunk_no_count e id index chunk s x Hk Hz)
        as (_ & _ & ?).
  - destruct (step_frame e r s id Haddr Hnew) as [Hs Ht].
    rewrite (known_frame _ _ _ Hs Ht). eauto.
Qed.

Lemma run_no_count rs : ∀ s id x,
  Forall (λ er, ¬ reuses_id id er) rs →
  known id s = Some x → no_count (totalChunks x) →
  ∃ x', known id (run rs s).1 = Some x' ∧ totalChunks x' = totalChunks x.
Proof.
  induction rs as [|[e r] rs IH]; intros s id x Hrs Hk Hz; [cbn; eauto|].
  apply Forall_cons in Hrs as [Hr Hrs].
  destruct (step_no_count e r s id x Hr Hk Hz) as (x1 & Hk1 & Hz1).
  cbn [run]. destruct (step e r s) as [s1 o] eqn:Hstep. cbn [fst] in Hk1.
  destruct (IH s1 id x1 Hrs Hk1) as (x2 & Hk2 & Hz2); [by rewrite Hz1|].
  destruct (run rs s1) as [s2 os]. cbn [fst] in *.
  exists x2. split; [done|]. congruence.
Qed.

(** X7: [init] takes any [totalChunks].  When it is [NaN], zero or negative,
    the session never completes: whatever requests follow (none of them an
    [init] that draws the same id), a chunk submission for it does not
    enter [mergeChunks] and leaves [uploads/final] alone, and the session
    is still there afterwards. *)
Theorem session_without_count_never_completes s e0 fn size mime total rs e
    index chunk :
  fn ≠ "" → no_count total →
  Forall (λ er, ¬ reuses_id (uuid e0) er) rs →
  let id := uuid e0 in
  let s1 := (upload_init e0 (Some fn) size (Some total) mime s).1 in
  let s2 := (run rs s1).1 in
  let submit := upload_chunk e id index chunk s2 in
  merge_entered submit.2 = false
  ∧ final_root submit.1 = final_root s2
  ∧ ∃ x, known id submit.1 = Some x ∧ totalChunks x = total.
Proof.
  intros Hfn Hz Hrs id s1 s2 submit.
  assert (known id s1 = Some (mkSession id (safeName (Some fn)) (default 0 size)
            total (default "application/octet-stream"%string mime)
            (now e0) [])) as Hk1.
  { subst s1. rewrite upload_init_ok by done. unfold known. cbn.
    by rewrite lookup_insert_eq. }
  destruct (run_no_count rs s1 id _ Hrs Hk1 Hz) as (x2 & Hk2 & Hz2).
  cbn in Hz2.
  destruct (upload_chunk_no_count e id index chunk s2 x2 Hk2)
    as (Hm & Hfin & x3 & Hk3 & Hz3); [by rewrite Hz2|].
  split; [done|]. split; [done|]. exists x3. split; [done|]. congruence.
Qed.

Lemma session_without_count_never_completes_witness :
  let s1 := (upload_init (at_time 1000 "u1") (Some "clip.mp4"%string) None
               (Some JNaN) None empty_server).1 in
  let rs := [(at_time 1001 "", UploadChunk "u1" (JNum 0) (Some (clip_chunk 0)));
             (at_time 1002 "", UploadChunk "u1" (JNum 1) (Some (clip_chunk 1)))] in
  let submit := upload_chunk (at_time 1003 "") "u1" (JNum 2)
                  (Some (clip_chunk 2)) (run rs s1).1 in
  merge_entered submit.2 = false
  ∧ final_root submit.1 = final_root (run rs s1).1.
Proof.
  intros s1 rs submit.
  destruct (session_without_count_never_completes empty_server
              (at_time 1000 "u1") "clip.mp4" None None JNaN rs
              (at_time 1003 "") (JNum 2) (Some (clip_chunk 2)))
    as (Hm & Hfin & _).
  - discriminate.
  - exact I.
  - repeat constructor; cbn; tauto.
  - split; [exact Hm|exact Hfin].
Defined.

(** ** Uploads among other requests *)

Lemma payloads_size id rs : ∀ m : gmap Z bytes, (size m ≤ size (payloads id m rs))%nat.
Proof.
  induction rs as [|er rs IH]; intros m; [done|]. cbn [payloads foldl].
  etrans; [|apply IH]. unfold note_payload.
  destruct er.2 as [| |id' [k|] [b|]| | | |]; try done.
  case_decide; [|done].
  destruct (m !! k) eqn:Hk.
  - rewrite <- !size_dom, dom_insert_L.
    apply subseteq_size. set_solver.
  - rewrite map_size_insert_None by done. lia.
Qed.

Lemma staged_map_frame id x0 m s s' :
  sessions s' !! id = sessions s !! id →
  tmp_root s' !! id = tmp_root s !! id →
  staged_map id x0 m s → staged_map id x0 m s'.
Proof.
  intros Hs Ht (r & Hreg & Hr & Hfiles). exists r.
  split; [by rewrite Hs|]. split; [done|].
  intros k b Hk. unfold read_chunk. rewrite Ht. by apply Hfiles.
Qed.

Section staged_map.
Context (id : string) (x0 : session) (N : nat).
Hypothesis Htotal : totalChunks x0 = JNum (Z.of_nat N).

Lemma staged_map_store (m : gmap Z bytes) s r k b :
  sessions s !! id = Some (set_received x0 r) →
  r ≡ₚ elements (dom m) →
  (∀ j c, m !! j = Some c → read_chunk (tmp_root s) id j = Some c) →
  ∃ r' sm,
    store_chunk id k b (set_received x0 r) s = (set_received x0 r', sm)
    ∧ r' ≡ₚ elements (dom (<[k := b]> m))
    ∧ length r' = size (<[k := b]> m)
    ∧ sessions sm = <[id := set_received x0 r']> (sessions s)
    ∧ final_root sm = final_root s
    ∧ (∀ j c, <[k := b]> m !! j = Some c →
              read_chunk (tmp_root sm) id j = Some c).
Proof.
  intros Hreg Hr Hfiles.
  exists (record_chunk k r), (store_chunk id k b (set_received x0 r) s).2.
  split; [done|].
  assert (record_chunk k r ≡ₚ elements (dom (<[k := b]> m))) as Hr'.
  { rewrite dom_insert_L. destruct (decide (k ∈ dom m)) as [Hin|Hin].
    - rewrite record_chunk_known by (by rewrite Hr, elem_of_elements).
      rewrite Hr.
      by rewrite (subseteq_union_1_L {[k]} (dom m))
        by (by apply singleton_subseteq_l).
    - rewrite record_chunk_perm by (by rewrite Hr, elem_of_elements).
      by rewrite elements_union_singleton, Hr. }
  split; [done|]. split.
  { rewrite Hr'. by rewrite <- size_dom. }
  do 2 (split; [done|]). cbn.
  intros j c. destruct (decide (k = j)) as [<-|Hne].
  - rewrite lookup_insert_eq. intros [= <-]. apply read_chunk_stored.
  - rewrite lookup_insert_ne by done. intros Hj.
    rewrite read_chunk_write_other, read_chunk_mkdir_p by congruence.
    by apply Hfiles.
Qed.

Lemma staged_map_chunk e (m : gmap Z bytes) s k b :
  staged_map id x0 m s → 0 ≤ k → upload_single (Some b) = true →
  (size (<[k := b]> m) < N)%nat →
  staged_map id x0 (<[k := b]> m)
    (upload_chunk e id (JNum k) (Some b) s).1.
Proof.
  intros (r & Hreg & Hr & Hfiles) Hk Hm Hsize.
  destruct (staged_map_store m s r k b Hreg Hr Hfiles)
    as (r' & sm & Hst & Hr' & Hlen & Hss & _ & Hfiles').
  rewrite (upload_chunk_found e _ _ _ _ _ _ Hm Hk
             (find_session_registered _ _ _ Hreg)), Hst.
  cbn [receivedChunks totalChunks set_received]. rewrite Htotal.
  unfold all_received. rewrite bool_decide_eq_false_2 by lia.
  cbn [fst]. exists r'. unfold set_tmp. cbn [sessions tmp_root].
  split; [by rewrite Hss, lookup_insert_eq|]. split; [done|].
  intros j c Hj. rewrite read_chunk_writeSessionMeta. by apply Hfiles'.
Qed.

Lemma staged_map_step e r (m : gmap Z bytes) s :
  staged_map id x0 m s → in_range_for id N (e, r) →
  (size (note_payload id m (e, r)) < N)%nat →
  staged_map id x0 (note_payload id m (e, r)) (step e r s).1.
Proof.
  intros Hst [Hnew Hrange] Hsize.
  assert (Decision (addresses id r)) as [Haddr|Haddr]
    by (destruct r; cbn; apply _).
  - destruct r as [| id' | id' index chunk | | | |]; cbn in Haddr; try done;
      subst id'; cbn [step].
    + cbn. unfold upload_status. destruct Hst as (r & Hreg & Hr & Hfiles).
      rewrite (find_session_registered _ _ _ Hreg). cbn. by exists r.
    + cbn in Hrange. destruct (Hrange eq_refl) as (k & b & -> & Hk & -> & Hm).
      unfold note_payload in *. cbn [snd] in *.
      rewrite decide_True in * by done.
      by apply staged_map_chunk; [|lia|..].
  - assert (note_payload id m (e, r) = m) as ->.
    { unfold note_payload. cbn.
      destruct r as [| |id' [k|] [b|]| | | |]; try done.
      cbn in Haddr. by rewrite decide_False. }
    destruct (step_frame e r s id Haddr Hnew) as [Hs Ht].
    by apply (staged_map_frame id x0 m s).
Qed.

Lemma staged_map_run rs : ∀ (m : gmap Z bytes) s,
  staged_map id x0 m s → Forall (in_range_for id N) rs →
  (size (payloads id m rs) < N)%nat →
  staged_map id x0 (payloads id m rs) (run rs s).1.
Proof.
  induction rs as [|[e r] rs IH]; intros m s Hst Hrs Hsize; [done|].
  apply Forall_cons in Hrs as [Hr Hrs]. cbn [payloads foldl] in *.
  assert (size (note_payload id m (e, r)) < N)%nat as Hsize1.
  { eapply Nat.le_lt_trans; [apply payloads_size|exact Hsize]. }
  pose proof (staged_map_step e r m s Hst Hr Hsize1) as Hst1.
  cbn [run]. destruct (step e r s) as [s1 o]. cbn [fst] in Hst1.
  specialize (IH _ s1 Hst1 Hrs Hsize). by destruct (run rs s1).
Qed.
End staged_map.

Lemma payloads_range id N rs : ∀ m : gmap Z bytes,
  Forall (in_range_for id N) rs →
  (∀ j, j ∈ dom m → 0 ≤ j < Z.of_nat N) →
  ∀ j, j ∈ dom (payloads id m rs) → 0 ≤ j < Z.of_nat N.
Proof.
  induction rs as [|[e r] rs IH]; intros m Hrs Hm; [done|].
  apply Forall_cons in Hrs as [[_ Hr] Hrs]. cbn [payloads foldl].
  apply IH; [done|]. unfold note_payload. cbn [snd] in *.
  destruct r as [| |id' [k|] [b|]| | | |]; try done.
  case_decide as Hid; [|done].
  destruct (Hr Hid) as (k' & b' & [= <-] & Hk & _).
  intros j. rewrite dom_insert_L, elem_of_union, elem_of_singleton.
  intros [->|Hj]; [done|by apply Hm].
Qed.

(** X8: An upload of N chunks among other requests.  The ids of all the
    requests are plain, so that each names a directory of its own.  After
    [init], any sequence of requests follows in which the chunks sent for
    the session have indices from 0 to N-1 and cover all of them but index
    [k]; chunks may be sent again, with other bytes, and other sessions and
    streams may be served in between.  Then the submission of chunk [k]
    completes the upload, and the merged file holds, in index order, the
    payload sent last for each index. *)
Theorem upload_among_other_requests s e0 fn total mime N pre e k b :
  fn ≠ "" →
  let id := uuid e0 in
  plain_id id = true →
  Forall (λ er, plain_request er = true) pre →
  Forall (in_range_for id N) pre →
  let m := payloads id ∅ pre in
  S (size m) = N → m !! k = None → 0 ≤ k < Z.of_nat N →
  Z.of_nat (length b) ≤ fileSize_limit →
  let s1 := (upload_init e0 (Some fn) total (Some (JNum (Z.of_nat N))) mime s).1 in
  let submit := upload_chunk e id (JNum k) (Some b) (run pre s1).1 in
  let out := final_name e (Some fn) in
  let latest i := default [] (<[k := b]> m !! Z.of_nat i) in
  submit.2 = ChunkAccepted id k (Z.of_nat N) (JNum (Z.of_nat N)) true (Some out)
  ∧ final_root submit.1 !! out
    = Some (mkFile (in_index_order latest N) (stamp e)).
Proof.
  intros Hfn id _ _ Hpre m Hsize Hk Hrange Hb s1 submit out latest.
  assert (upload_single (Some b) = true) as Hm
    by (by apply bool_decide_eq_true_2).
  set (x0 := mkSession id (safeName (Some fn)) (default 0 total)
               (JNum (Z.of_nat N))
               (default "application/octet-stream"%string mime) (now e0) []).
  assert (staged_map id x0 ∅ s1) as Hst1.
  { subst s1. rewrite upload_init_ok by done. exists []. cbn.
    split; [apply lookup_insert_eq|]. split; [by rewrite dom_empty_L|].
    intros j c Hj. by rewrite lookup_empty in Hj. }
  destruct (staged_map_run id x0 N eq_refl pre ∅ s1 Hst1 Hpre)
    as (r & Hreg & Hr & Hfiles); [fold m; lia|]. fold m in Hr, Hfiles.
  destruct (staged_map_store id x0 m (run pre s1).1 r k b Hreg Hr Hfiles)
    as (r' & sm & Hstore & Hr' & Hlen & Hss & Hfin & Hfiles').
  assert (length r' = N) as HlenN.
  { rewrite Hlen, map_size_insert_None by done. done. }
  assert (∀ i, (i < N)%nat →
            read_chunk (tmp_root sm) id (Z.of_nat i) = Some (latest i))
    as Hread.
  { intros i Hi. assert (Z.of_nat i ∈ r') as Hin.
    { apply (all_in_range r' (Z.of_nat N)); [| |lia|lia].
      - rewrite Hr'. apply NoDup_elements.
      - apply Forall_forall. intros j Hj. rewrite Hr', elem_of_elements in Hj.
        rewrite dom_insert_L, elem_of_union, elem_of_singleton in Hj.
        destruct Hj as [->|Hj]; [done|].
        apply (payloads_range id N pre ∅); [done| |done].
        intros j'. by rewrite dom_empty_L, elem_of_empty. }
    rewrite Hr', elem_of_elements, elem_of_dom in Hin.
    destruct Hin as [c Hc]. unfold latest. rewrite Hc. by apply Hfiles'. }
  subst submit.
  rewrite (upload_chunk_found e _ _ _ _ _ _ Hm (proj1 Hrange)
             (find_session_registered _ _ _ Hreg)), Hstore.
  cbn [receivedChunks totalChunks set_received].
  change (totalChunks x0) with (JNum (Z.of_nat N)). unfold all_received.
  rewrite bool_decide_eq_true_2 by (by rewrite HlenN).
  rewrite (mergeChunks_ok e _ sm N latest); [|done..].
  cbn [fst snd originalName set_received x0 final_root set_final].
  rewrite HlenN, final_name_safe. split; [done|]. apply lookup_insert_eq.
Qed.

Lemma mixed_requests_in_range :
  Forall (in_range_for "u1" 3) mixed_requests.
Proof.
  unfold mixed_requests. repeat apply Forall_cons_2; [..|apply Forall_nil_2].
  - split; [by intros []|]. intros _.
    exists 2, (ascii_bytes "C"). repeat split; (done || lia).
  - split; [discriminate|done].
  - split; [by intros []|]. intros _.
    exists 0, (ascii_bytes "XXX"). repeat split; (done || lia).
  - split; [by intros []|]. discriminate.
  - split; [by intros []|done].
  - split; [by intros []|]. intros _.
    exists 0, (ascii_bytes "AAA"). repeat split; (done || lia).
Qed.

Lemma mixed_requests_plain :
  Forall (λ er, plain_request er = true) mixed_requests.
Proof. unfold mixed_requests. by repeat constructor. Qed.

Lemma upload_among_other_requests_witness :
  let s1 := (upload_init (at_time 1000 "u1") (Some "clip.mp4"%string) None
               (Some (JNum 3)) None empty_server).1 in
  let submit := upload_chunk (at_time 1007 "") "u1" (JNum 1)
                  (Some (ascii_bytes "BB")) (run mixed_requests s1).1 in
  submit.2 = ChunkAccepted "u1" 1 3 (JNum 3) true (Some "1007-clip.mp4"%string)
  ∧ final_root submit.1 !! "1007-clip.mp4"%string
    = Some (mkFile (ascii_bytes "AAABBC") 1007).
Proof.
  intros s1 submit.
  exact (upload_among_other_requests empty_server (at_time 1000 "u1")
           "clip.mp4" None None 3 mixed_requests (at_time 1007 "") 1
           (ascii_bytes "BB") ltac:(discriminate) eq_refl
           mixed_requests_plain mixed_requests_in_range
           eq_refl eq_refl ltac:(lia) ltac:(vm_compute; discriminate)).
Defined.

(** ** A live stream among other requests *)

Lemma streaming_frame id f ps s s' :
  liveStreams s' = liveStreams s → final_root s' !! f = final_root s !! f →
  streaming id f ps s → streaming id f ps s'.
Proof. intros Hl Hf. unfold streaming. by rewrite Hl, Hf. Qed.

Lemma streaming_step id e0 n0 ps e r s :
  let f := final_name e0 n0 in
  streaming id f ps s → apart_from id e0 (e, r) →
  streaming id f (ps ++ appended id [(e, r)]) (step e r s).1.
Proof.
  intros f Hst [Hnow Hr]. cbn [fst snd] in Hnow, Hr.
  assert (∀ n, f ≠ final_name e n) as Hname.
  { intros n Heq. apply final_name_inj in Heq as [Heq _].
    by symmetry in Heq. }
  destruct r as [fn sz ch mi|id'|id' index chunk|fn mi|id' chunk|id'|];
    cbn [step appended]; cbn beta iota in Hr; rewrite ?app_nil_r.
  - destruct fn as [[|c fn]|]; [done| |done]. rewrite upload_init_ok by done.
    by apply (streaming_frame id f ps s).
  - unfold upload_status.
    destruct (find_session id' s) as [[x s0]|] eqn:Hfs; [|done].
    apply find_session_lookup in Hfs as (_ & _ & Hfin & Hl). cbn [fst].
    apply (streaming_frame id f ps s); [done|by rewrite Hfin|done].
  - apply (streaming_frame id f ps s); [apply upload_chunk_live| |done].
    destruct (upload_chunk_final e id' index chunk s)
      as [->|(x & sm & Hsm & ->)]; [done|].
    by rewrite mergeChunks_final, Hsm.
  - destruct Hst as ((st & Hreg & Hf & Hcount) & (file & Hfile & Hcont) & Hothers).
    unfold stream_init. cbn [fst]. split; [|split].
    + exists st. cbn [liveStreams]. rewrite lookup_insert_ne by done.
      by destruct Hcount.
    + exists file. cbn [final_root]. unfold open_append.
      destruct (final_root s !! final_name e _); [done|].
      rewrite lookup_insert_ne; [done|]. by apply not_eq_sym.
    + intros id'' st''. cbn [liveStreams].
      destruct (decide (uuid e = id'')) as [<-|Hne].
      * rewrite lookup_insert_eq. intros _ [= <-]. cbn. by apply not_eq_sym.
      * rewrite lookup_insert_ne by done. apply Hothers.
  - destruct Hst as ((st & Hreg & Hf & Hcount & Hbytes) & (file & Hfile & Hcont)
                     & Hothers).
    destruct chunk as [buf|]; rewrite ?app_nil_r.
    2:{ unfold stream_chunk. cbn. destruct (liveStreams s !! id'); cbn;
          (split; [eauto 6|split; [eauto|done]]). }
    destruct (upload_single (Some buf)) eqn:Hm.
    2:{ rewrite andb_false_r, app_nil_r. unfold stream_chunk. rewrite Hm. cbn.
        split; [eauto 6|split; [eauto|done]]. }
    rewrite andb_true_r. case_bool_decide as Hid.
    + subst id'. rewrite (stream_chunk_ok e id buf s st Hm Hreg). cbn [fst].
      split; [|split].
      * eexists. cbn [liveStreams]. rewrite lookup_insert_eq.
        split; [done|]. cbn [finalName chunkCount bytesWritten].
        split; [done|].
        rewrite Hcount, Hbytes, length_app, concat_app, length_app.
        cbn [length concat]. rewrite app_nil_r. split; lia.
      * cbn [final_root]. unfold append_file. rewrite Hf, Hfile.
        eexists. rewrite lookup_insert_eq. split; [done|]. cbn [contents].
        rewrite Hcont, concat_app. cbn [concat]. by rewrite app_nil_r.
      * intros id'' st'' Hne. cbn [liveStreams].
        rewrite lookup_insert_ne by done. by apply Hothers.
    + rewrite app_nil_r. unfold stream_chunk. rewrite Hm. cbn [negb].
      destruct (liveStreams s !! id') as [st'|] eqn:Hst';
        [|cbn; split; [eauto 6|split; [eauto|done]]].
      cbn [fst]. pose proof (Hothers _ _ Hid Hst') as Hne.
      split; [|split].
      * exists st. cbn [liveStreams]. by rewrite lookup_insert_ne.
      * exists file. cbn [final_root finalName]. unfold append_file.
        by destruct (final_root s !! finalName st'); rewrite lookup_insert_ne.
      * intros id'' st''. cbn [liveStreams].
        destruct (decide (id' = id'')) as [<-|Hne'].
        -- rewrite lookup_insert_eq. by intros _ [= <-].
        -- rewrite lookup_insert_ne by done. apply Hothers.
  - unfold stream_finish. destruct (liveStreams s !! id') as [st'|]; [|done].
    destruct Hst as ((st & Hreg & Hrest) & Hfile & Hothers).
    cbn [fst]. split; [|split; [done|]].
    + exists st. cbn [set_live liveStreams]. by rewrite lookup_delete_ne.
    + intros id'' st'' Hne. cbn [set_live liveStreams]. intros Hst''.
      apply lookup_delete_Some in Hst'' as [_ Hst'']. by apply (Hothers id'').
  - done.
Qed.

Lemma appended_cons id er rs :
  appended id (er :: rs) = appended id [er] ++ appended id rs.
Proof.
  destruct er as [e r]. cbn [appended].
  destruct r as [| | | |id' [b|]| |]; try done.
  by destruct (bool_decide (id' = id) && upload_single (Some b)).
Qed.

Lemma streaming_run id e0 n0 rs : ∀ ps s,
  streaming id (final_name e0 n0) ps s →
  Forall (apart_from id e0) rs →
  streaming id (final_name e0 n0) (ps ++ appended id rs) (run rs s).1.
Proof.
  induction rs as [|[e r] rs IH]; intros ps s Hst Hrs.
  - cbn. by rewrite app_nil_r.
  - apply Forall_cons in Hrs as [Hr Hrs].
    pose proof (streaming_step id e0 n0 ps e r s Hst Hr) as Hst1.
    rewrite appended_cons, app_assoc. cbn [run].
    destruct (step e r s) as [s1 o]. cbn [fst] in Hst1.
    specialize (IH _ s1 Hst1 Hrs). by destruct (run rs s1).
Qed.

(** X9: A live stream among other requests.  The stream is initialised under a
    file name that is new and that no open stream writes to; the requests
    that follow read other clock values, and none of them finishes the
    stream or initialises a stream under its id, but they may serve uploads
    and other live streams.  Then [finish] reports the number and the total
    size of the payloads appended to this stream, and the file holds these
    payloads, in the order of their requests, and nothing else. *)
Theorem live_stream_among_other_requests s e0 fn mime rs :
  let id := uuid e0 in
  let f := final_name e0 (Some (default "live.webm"%string fn)) in
  final_root s !! f = None → no_writer f s →
  Forall (apart_from id e0) rs →
  let s1 := (stream_init e0 fn mime s).1 in
  let fin := stream_finish id (run rs s1).1 in
  let ps := appended id rs in
  fin.2 = LiveFinished id f (Z.of_nat (length (concat ps)))
            (Z.of_nat (length ps))
  ∧ (contents <$> final_root fin.1 !! f) = Some (concat ps).
Proof.
  intros id f Hnew Hnw Hrs s1 fin ps.
  assert (streaming id f [] s1) as Hst1.
  { subst s1. unfold stream_init. cbn [fst]. split; [|split].
    - eexists. cbn [liveStreams]. rewrite lookup_insert_eq. done.
    - cbn [final_root]. unfold open_append. fold f. rewrite Hnew.
      eexists. by rewrite lookup_insert_eq.
    - intros id' st' Hne. cbn [liveStreams].
      rewrite lookup_insert_ne by done. apply Hnw. }
  destruct (streaming_run id e0 _ rs [] s1 Hst1 Hrs)
    as ((st & Hreg & Hf & Hcount & Hbytes) & (file & Hfile & Hcont) & _).
  rewrite app_nil_l in *. subst fin. unfold stream_finish. rewrite Hreg.
  cbn [fst snd set_live final_root]. fold f in Hfile. fold ps in Hcount, Hbytes, Hcont.
  rewrite Hf, Hcount, Hbytes, Hfile. cbn. by rewrite Hcont.
Qed.

Lemma mixed_live_requests_apart :
  Forall (apart_from "s1" (at_time 1000 "s1")) mixed_live_requests.
Proof.
  unfold mixed_live_requests. repeat apply Forall_cons_2; [..|apply Forall_nil_2];
    (split; [cbn; lia|cbn; try done]).
Qed.

Lemma live_stream_among_other_requests_witness :
  let s1 := (stream_init (at_time 1000 "s1") None None empty_server).1 in
  let fin := stream_finish "s1" (run mixed_live_requests s1).1 in
  fin.2 = LiveFinished "s1" "1000-live.webm" 5 2
  ∧ (contents <$> final_root fin.1 !! "1000-live.webm"%string)
    = Some (ascii_bytes "AAABB").
Proof.
  intros s1 fin.
  exact (live_stream_among_other_requests empty_server (at_time 1000 "s1")
           None None mixed_live_requests eq_refl
           ltac:(intros id st Hst; vm_compute in Hst; discriminate)
           mixed_live_requests_apart).
Defined.

(** ** The client: cutting a file into chunks *)

Lemma CHUNK_SIZE_pos : 0 < CHUNK_SIZE.
Proof. unfold CHUNK_SIZE. lia. Qed.

Lemma chunk_count_spec size :
  0 ≤ size →
  0 ≤ chunk_count size
  ∧ (chunk_count size - 1) * CHUNK_SIZE < size ≤ chunk_count size * CHUNK_SIZE.
Proof.
  intros Hsize. unfold chunk_count. pose proof CHUNK_SIZE_pos as Hc.
  pose proof (Z.div_mod (size + CHUNK_SIZE - 1) CHUNK_SIZE ltac:(lia)) as Hdm.
  pose proof (Z.mod_pos_bound (size + CHUNK_SIZE - 1) CHUNK_SIZE Hc) as Hm.
  set (q := (size + CHUNK_SIZE - 1) / CHUNK_SIZE) in *.
  set (m := (size + CHUNK_SIZE - 1) mod CHUNK_SIZE) in *.
  split; [|nia]. nia.
Qed.

Lemma chunk_count_zero size : size = 0 → chunk_count size = 0.
Proof. intros ->. done. Qed.

Lemma chunk_blob_length f k :
  0 ≤ k →
  Z.of_nat (length (chunk_blob f k))
  = Z.max 0 (Z.min CHUNK_SIZE (fileSize f - k * CHUNK_SIZE)).
Proof.
  intros Hk. unfold chunk_blob, slice, fileSize.
  rewrite length_take, length_drop. pose proof CHUNK_SIZE_pos. nia.
Qed.

Lemma chunk_blob_window f (k : nat) :
  chunk_blob f (Z.of_nat k)
  = take (Z.to_nat CHUNK_SIZE) (drop (k * Z.to_nat CHUNK_SIZE) (fileBytes f)).
Proof.
  unfold chunk_blob, slice, fileSize. pose proof CHUNK_SIZE_pos as Hc.
  replace (Z.to_nat (Z.of_nat k * CHUNK_SIZE))
    with (k * Z.to_nat CHUNK_SIZE)%nat by nia.
  set (rest := drop _ _).
  assert (length rest = length (fileBytes f) - k * Z.to_nat CHUNK_SIZE)%nat
    as Hrest by apply length_drop.
  destruct (decide (Z.of_nat k * CHUNK_SIZE + CHUNK_SIZE
                    ≤ Z.of_nat (length (fileBytes f)))) as [Hle|Hgt].
  - f_equal. lia.
  - rewrite !take_ge; [done|nia..].
Qed.

Lemma windows_concat {A} (c : nat) n : ∀ l : list A,
  (length l ≤ n * c)%nat →
  concat ((λ k, take c (drop (k * c) l)) <$> seq 0 n) = l.
Proof.
  induction n as [|n IH]; intros l Hlen.
  - by destruct l; [|cbn in Hlen; lia].
  - cbn [seq fmap list_fmap concat]. rewrite <- fmap_S_seq, <- list_fmap_compose.
    change (0 * c)%nat with 0%nat. rewrite drop_0.
    trans (take c l ++ drop c l); [|apply take_drop]. f_equal.
    rewrite <- (IH (drop c l)) by (rewrite length_drop; lia).
    f_equal. apply list_fmap_ext. intros _ k _. unfold compose.
    rewrite drop_drop. reflexivity.
Qed.

(** X12: [uploadFile] cuts the file into [Math.ceil(size / CHUNK_SIZE)] blobs.
    Put one after the other in index order they are the file; each of them
    has at least one byte and at most [CHUNK_SIZE], every one but the last
    has exactly [CHUNK_SIZE], and multer's size limit lets each through. *)
Theorem file_is_cut_into_chunks f :
  let N := chunk_count (fileSize f) in
  in_index_order (λ k, chunk_blob f (Z.of_nat k)) (Z.to_nat N) = fileBytes f
  ∧ ∀ k, 0 ≤ k < N →
      0 < Z.of_nat (length (chunk_blob f k)) ≤ CHUNK_SIZE
      ∧ (k < N - 1 → Z.of_nat (length (chunk_blob f k)) = CHUNK_SIZE)
      ∧ upload_single (Some (chunk_blob f k)) = true.
Proof.
  intros N. pose proof CHUNK_SIZE_pos as Hc.
  destruct (chunk_count_spec (fileSize f)) as [HN0 HN];
    [unfold fileSize; lia|]. fold N in HN0, HN.
  split.
  - unfold in_index_order.
    etrans; [|apply (windows_concat (Z.to_nat CHUNK_SIZE) (Z.to_nat N));
               unfold fileSize in HN; nia].
    f_equal. apply list_fmap_ext. intros _ k _. apply chunk_blob_window.
  - intros k Hk. rewrite chunk_blob_length by lia.
    assert (Z.max 0 (Z.min CHUNK_SIZE (fileSize f - k * CHUNK_SIZE))
            ≤ CHUNK_SIZE) as Hmax by lia.
    split; [nia|]. split; [nia|].
    unfold upload_single. apply bool_decide_eq_true_2.
    rewrite chunk_blob_length by lia. unfold fileSize_limit.
    unfold CHUNK_SIZE in *. lia.
Qed.

(** ** The client: requests and retries *)

Lemma fetch_delivered net r w :
  (net (sent w)).2 = Delivered →
  fetch net r w
  = (mkWorld (step (net (sent w)).1 r (srv w)).1 (S (sent w)),
     Some (step (net (sent w)).1 r (srv w)).2).
Proof. intros Hl. unfold fetch. rewrite Hl. by destruct (step _ _ _). Qed.

Lemma fetch_request_lost net r w :
  (net (sent w)).2 = RequestLost →
  fetch net r w = (mkWorld (srv w) (S (sent w)), None).
Proof. intros Hl. unfold fetch. by rewrite Hl. Qed.

Lemma fetch_response_lost net r w :
  (net (sent w)).2 = ResponseLost →
  fetch net r w
  = (mkWorld (step (net (sent w)).1 r (srv w)).1 (S (sent w)), None).
Proof. intros Hl. unfold fetch. by rewrite Hl. Qed.

Lemma fetch_sent net r w : sent (fetch net r w).1 = S (sent w).
Proof.
  unfold fetch. destruct (net (sent w)).2; [|done..].
  by destruct (step _ _ _).
Qed.

(** The listing request leaves the server as it is, whatever becomes of
    it; it changes neither the status line nor [localStorage]. *)
Lemma refreshSavedFiles_spec net w c :
  ∃ w' c' res,
    refreshSavedFiles net w c = (w', c', res)
    ∧ srv w' = srv w ∧ sent w' = S (sent w)
    ∧ status c' = status c ∧ lastUploadId c' = lastUploadId c
    ∧ (res = None ∨ res = Some FetchFailed)
    ∧ ((net (sent w)).2 = Delivered →
       res = None ∧ savedFiles c' = list_files (srv w)).
Proof.
  unfold refreshSavedFiles.
  destruct ((net (sent w)).2) eqn:Hl.
  - rewrite fetch_delivered by done. cbn [step fst snd].
    eexists _, _, _. split; [done|]. cbn. by repeat split; eauto.
  - rewrite fetch_request_lost by done.
    eexists _, _, _. split; [done|]. cbn. by repeat split; eauto.
  - rewrite fetch_response_lost by done. cbn [step fst snd].
    eexists _, _, _. split; [done|]. cbn. by repeat split; eauto.
Qed.

Lemma blob_of_single f k : upload_single (Some (blob_of f k)) = true.
Proof.
  unfold upload_single, blob_of. apply bool_decide_eq_true_2.
  rewrite chunk_blob_length by lia. unfold fileSize_limit, CHUNK_SIZE. lia.
Qed.

Lemma blobs_in_index_order f N :
  chunk_count (fileSize f) = Z.of_nat N →
  in_index_order (blob_of f) N = fileBytes f.
Proof.
  intros HN. pose proof CHUNK_SIZE_pos as Hc.
  destruct (chunk_count_spec (fileSize f)) as [_ Hspec];
    [unfold fileSize; lia|]. rewrite HN in Hspec.
  unfold in_index_order.
  etrans; [|apply (windows_concat (Z.to_nat CHUNK_SIZE) N);
             unfold fileSize in Hspec; nia].
  f_equal. apply list_fmap_ext. intros _ k _. apply chunk_blob_window.
Qed.

Lemma staged_perm id x0 P ks ks' s :
  ks ≡ₚ ks' → staged id x0 P ks s → staged id x0 P ks' s.
Proof.
  intros Hp (r & Hreg & Hr & Hfiles). exists r. split; [done|].
  split; [by rewrite <- Hp|]. intros k Hk. apply Hfiles. by rewrite Hp.
Qed.

(** The first request from number [k] on that is delivered. *)
Lemma first_delivered (net : nat → env * link) n : ∀ k,
  (∃ j, (j < n)%nat ∧ (net (k + j)%nat).2 = Delivered) →
  ∃ j, (j < n)%nat ∧ (net (k + j)%nat).2 = Delivered
       ∧ ∀ j', (j' < j)%nat → (net (k + j')%nat).2 ≠ Delivered.
Proof.
  induction n as [|n IH]; intros k (j & Hj & Hd); [lia|].
  destruct (net k).2 eqn:Hk.
  - exists 0%nat. rewrite Nat.add_0_r. split; [lia|]. split; [done|]. lia.
  - destruct j as [|j]; [rewrite Nat.add_0_r in Hd; congruence|].
    destruct (IH (S k)) as (j1 & Hj1 & Hd1 & Hmin).
    { exists j. split; [lia|]. by replace (S k + j)%nat with (k + S j)%nat by lia. }
    exists (S j1). replace (k + S j1)%nat with (S k + j1)%nat by lia.
    split; [lia|]. split; [done|]. intros [|j'] Hlt.
    + rewrite Nat.add_0_r. congruence.
    + replace (k + S j')%nat with (S k + j')%nat by lia. apply Hmin. lia.
  - destruct j as [|j]; [rewrite Nat.add_0_r in Hd; congruence|].
    destruct (IH (S k)) as (j1 & Hj1 & Hd1 & Hmin).
    { exists j. split; [lia|]. by replace (S k + j)%nat with (k + S j)%nat by lia. }
    exists (S j1). replace (k + S j1)%nat with (S k + j1)%nat by lia.
    split; [lia|]. split; [done|]. intros [|j'] Hlt.
    + rewrite Nat.add_0_r. congruence.
    + replace (k + S j')%nat with (S k + j')%nat by lia. apply Hmin. lia.
Qed.

Section client_upload.
Context (net : nat → env * link) (id : string) (f : File) (x0 : session).
Context (Q : nat → bytes) (N : nat).
Hypothesis Htotal : totalChunks x0 = JNum (Z.of_nat N).
Hypothesis Hid : uploadId x0 = id.
Hypothesis HsizeQ : ∀ k, upload_single (Some (Q k)) = true.

(** A chunk that does not complete the upload: the requests before the
    first delivered one are lost on their way to the server. *)
Lemma send_retrying_next total ks k j : ∀ left attempts w c,
  staged id x0 Q ks (srv w) → k ∉ ks → Q k = blob_of f k →
  S (length ks) ≠ N →
  (left + attempts = MAX_RETRIES)%nat → (j < left)%nat →
  (net (sent w + j)%nat).2 = Delivered →
  (∀ j', (j' < j)%nat → (net (sent w + j')%nat).2 = RequestLost) →
  ∃ w' c',
    send_retrying net id f (Z.of_nat k) total left attempts w c
    = (w', c', Next)
    ∧ staged id x0 Q (k :: ks) (srv w')
    ∧ final_root (srv w') = final_root (srv w)
    ∧ sent w' = (sent w + S j)%nat
    ∧ lastUploadId c' = lastUploadId c.
Proof.
  induction j as [|j IH]; intros left attempts w c Hst Hk HQk Hlen Hsum Hj Hd Hlost;
    (destruct left as [|left]; [lia|]); cbn [send_retrying]; unfold sendChunk.
  - rewrite Nat.add_0_r in Hd. rewrite fetch_delivered by done. cbn [step].
    destruct (staged_step id x0 Q N Htotal Hid HsizeQ
                (net (sent w)).1 ks (srv w) k Hst Hk Hlen)
      as (s' & Hup & Hst' & Hfin & _).
    rewrite HQk in Hup. unfold blob_of in Hup. rewrite Hup. cbn [fst snd].
    eexists _, _. split; [done|]. cbn. repeat split; (done || lia).
  - rewrite fetch_request_lost
      by (rewrite <- (Nat.add_0_r (sent w)); apply Hlost; lia).
    rewrite bool_decide_eq_false_2 by lia.
    destruct (IH left (S attempts) (mkWorld (srv w) (S (sent w)))
                (setStatus (Uploading (Z.of_nat k + 1) total (S attempts)) c))
      as (w' & c' & Hrun & Hst' & Hfin & Hsent & Hl); cbn [srv sent];
      [done|done|done|done|lia|lia| | |].
    + by replace (S (sent w) + j)%nat with (sent w + S j)%nat by lia.
    + intros j' Hj'. replace (S (sent w) + j')%nat with (sent w + S j')%nat by lia.
      apply Hlost. lia.
    + exists w', c'. split; [done|]. cbn [srv sent] in *.
      repeat split; (done || lia).
Qed.

(** The chunk that completes the upload. *)
Lemma send_retrying_last total ks k j : ∀ left attempts w c,
  staged id x0 Q ks (srv w) → k ∉ ks → Q k = blob_of f k →
  S (length ks) = N →
  (∀ i, (i < N)%nat → i ∈ k :: ks) →
  (left + attempts = MAX_RETRIES)%nat → (j < left)%nat →
  (net (sent w + j)%nat).2 = Delivered →
  (∀ j', (j' < j)%nat → (net (sent w + j')%nat).2 = RequestLost) →
  let e := (net (sent w + j)%nat).1 in
  let out := final_name e (Some (originalName x0)) in
  ∃ w' c' fl,
    send_retrying net id f (Z.of_nat k) total left attempts w c
    = (w', c', fl)
    ∧ final_root (srv w')
      = <[out := mkFile (in_index_order Q N) (stamp e)]> (final_root (srv w))
    ∧ sessions (srv w') !! id = None ∧ tmp_root (srv w') !! id = None
    ∧ lastUploadId c' = None
    ∧ status c' = UploadComplete (Some out)
    ∧ sent w' = (sent w + S (S j))%nat
    ∧ (fl = Return ∨ fl = Next ∨ fl = Throw FetchFailed)
    ∧ ((net (sent w + S j)%nat).2 = Delivered →
       fl = Return ∧ savedFiles c' = list_files (srv w')).
Proof.
  induction j as [|j IH];
    intros left attempts w c Hst Hk HQk Hlen Hall Hsum Hj Hd Hlost e out;
    (destruct left as [|left]; [lia|]); cbn [send_retrying]; unfold sendChunk.
  - subst e out. rewrite Nat.add_0_r in *.
    rewrite fetch_delivered by done. cbn [step].
    destruct (staged_last id x0 Q N Htotal Hid HsizeQ
                (net (sent w)).1 ks (srv w) k Hst Hk Hlen Hall)
      as (s' & Hup & Hfin & Hs & Ht & _).
    rewrite HQk in Hup. unfold blob_of in Hup. rewrite Hup. cbn [fst snd].
    set (w1 := mkWorld s' (S (sent w))).
    set (c1 := mkClient _ None _ _).
    destruct (refreshSavedFiles_spec net w1 c1)
      as (w' & c' & res & Hrefresh & Hsrv & Hsent & Hstatus & Hlast & Hres & Hdel).
    rewrite Hrefresh. subst w1 c1. cbn [srv sent] in *.
    cbn [status lastUploadId setStatus] in Hstatus, Hlast.
    replace (sent w + 1)%nat with (S (sent w)) by lia.
    destruct res as [m|].
    + destruct Hres as [?|[= ->]]; [done|].
      destruct (bool_decide (MAX_RETRIES ≤ S attempts)%nat);
        (eexists w', c', _; split; [done|]; rewrite Hsrv;
         do 6 (split; [done || lia|]); split; [eauto|];
         intros Hdl; by destruct (Hdel Hdl)).
    + eexists w', c', _. split; [done|]. rewrite Hsrv.
      do 6 (split; [done || lia|]). split; [eauto|].
      intros Hdl. by destruct (Hdel Hdl) as [_ ->].
  - rewrite fetch_request_lost
      by (rewrite <- (Nat.add_0_r (sent w)); apply Hlost; lia).
    rewrite bool_decide_eq_false_2 by lia.
    destruct (IH left (S attempts) (mkWorld (srv w) (S (sent w)))
                (setStatus (Uploading (Z.of_nat k + 1) total (S attempts)) c))
      as (w' & c' & fl & Hrun & Hrest); cbn [srv sent];
      [done|done|done|done|done|lia|lia| | |].
    + by replace (S (sent w) + j)%nat with (sent w + S j)%nat by lia.
    + intros j' Hj'. replace (S (sent w) + j')%nat with (sent w + S j')%nat by lia.
      apply Hlost. lia.
    + exists w', c', fl. split; [done|]. cbn [srv sent] in Hrest.
      subst e out.
      replace (S (sent w) + j)%nat with (sent w + S j)%nat in Hrest by lia.
      replace (S (sent w) + S j)%nat with (sent w + S (S j))%nat in Hrest by lia.
      replace (S (sent w) + S (S j))%nat with (sent w + S (S (S j)))%nat
        in Hrest by lia.
      exact Hrest.
Qed.
End client_upload.

(** ** The client: a whole upload *)

Lemma upload_from_skip net id f total (U : gset Z) left : ∀ i w c,
  (∀ k, (i ≤ k < i + left)%nat → Z.of_nat k ∈ U) →
  upload_from net id f total U left (Z.of_nat i) w c
  = (w, setStatus UploadFinished c, None).
Proof.
  induction left as [|left IH]; intros i w c HU; [done|]. cbn [upload_from].
  rewrite bool_decide_eq_true_2 by (apply HU; lia).
  replace (Z.of_nat i + 1) with (Z.of_nat (S i)) by lia.
  apply IH. intros k Hk. apply HU. lia.
Qed.

Lemma below_length (ks : list nat) N :
  NoDup ks → (∀ k, k ∈ ks → (k < N)%nat) → (length ks ≤ N)%nat.
Proof.
  intros Hnd Hlt. trans (length (seq 0 N)); [|by rewrite length_seq].
  apply submseteq_length.
  apply NoDup_submseteq; [done|]. intros k Hk. apply elem_of_seq.
  specialize (Hlt k Hk). lia.
Qed.

Lemma below_all (ks : list nat) N :
  NoDup ks → (∀ k, k ∈ ks → (k < N)%nat) → length ks = N →
  ∀ k, (k < N)%nat → k ∈ ks.
Proof.
  intros Hnd Hlt Hlen k Hk.
  assert (ks ≡ₚ seq 0 N) as ->; [|apply elem_of_seq; lia].
  apply submseteq_length_Permutation.
  - apply NoDup_submseteq; [done|]. intros j Hj. apply elem_of_seq.
    specialize (Hlt j Hj). lia.
  - rewrite length_seq. lia.
Qed.

Section client_completes.
Context (net : nat → env * link) (id : string) (f : File) (x0 : session).
Context (Q : nat → bytes) (N : nat) (U : gset Z).
Hypothesis Htotal : totalChunks x0 = JNum (Z.of_nat N).
Hypothesis Hid : uploadId x0 = id.
Hypothesis HsizeQ : ∀ k, upload_single (Some (Q k)) = true.
Hypothesis HQ : ∀ k, Z.of_nat k ∉ U → Q k = blob_of f k.
Hypothesis Hno : ∀ k, (net k).2 ≠ ResponseLost.
Hypothesis Hburst :
  ∀ k, ∃ j, (j < MAX_RETRIES)%nat ∧ (net (k + j)%nat).2 = Delivered.

(** The [for] loop from index [i] on, when the server holds the chunks of
    [U] and those below [i], and not yet all of them.  [Q] gives the
    contents of the chunk files: the blob of the picked file for an index
    outside [U]. *)
Lemma upload_from_completes total : ∀ left i ks w c,
  (i + left = N)%nat →
  staged id x0 Q ks (srv w) → NoDup ks →
  (∀ k, k ∈ ks ↔ (k < N)%nat ∧ (Z.of_nat k ∈ U ∨ (k < i)%nat)) →
  (length ks < N)%nat →
  ∃ w' c' res n,
    upload_from net id f total U left (Z.of_nat i) w c = (w', c', res)
    ∧ (sent w ≤ n)%nat
    ∧ final_root (srv w')
      = <[final_name (net n).1 (Some (originalName x0))
          := mkFile (in_index_order Q N) (stamp (net n).1)]>
          (final_root (srv w))
    ∧ sessions (srv w') !! id = None ∧ tmp_root (srv w') !! id = None
    ∧ lastUploadId c' = None
    ∧ (res = None ∨ res = Some FetchFailed)
    ∧ ((net (S n)).2 = Delivered →
       res = None
       ∧ status c'
         = UploadComplete (Some (final_name (net n).1 (Some (originalName x0))))
       ∧ savedFiles c' = list_files (srv w'))
    ∧ sent w' = S (S n)
    ∧ (sent w' ≤ sent w + (N - length ks) * MAX_RETRIES + 1)%nat
    ∧ ((∀ k, (net k).2 = Delivered) →
       sent w' = (sent w + (N - length ks) + 1)%nat).
Proof.
  induction left as [|left IH]; intros i ks w c Hi Hst Hnd Hks Hlen.
  { exfalso. assert (N ≤ length ks)%nat; [|lia].
    trans (length (seq 0 N)); [by rewrite length_seq|].
    apply submseteq_length.
    apply NoDup_submseteq; [apply NoDup_seq|].
    intros k Hk. apply elem_of_seq in Hk. apply Hks. lia. }
  cbn [upload_from]. replace (Z.of_nat i + 1) with (Z.of_nat (S i)) by lia.
  case_bool_decide as HiU.
  { apply (IH (S i) ks); [lia|done|done| |done].
    intros k. rewrite Hks. split; intros [Hk [HU|Hlt]]; (split; [done|]);
      [by left|right; lia|by left|].
    destruct (decide (k = i)) as [->|]; [by left|right; lia]. }
  assert (i ∉ ks) as Hik.
  { intros Hin. apply Hks in Hin as [_ [?|?]]; [done|lia]. }
  assert (∀ k, k ∈ i :: ks → (k < N)%nat) as Hbelow.
  { intros k Hk. apply elem_of_cons in Hk as [->|Hk]; [lia|].
    by apply Hks in Hk as [? _]. }
  assert (NoDup (i :: ks)) as Hnd' by (by apply NoDup_cons).
  destruct (first_delivered net MAX_RETRIES (sent w) (Hburst (sent w)))
    as (j & Hj & Hd & Hmin).
  assert (∀ j', (j' < j)%nat → (net (sent w + j')%nat).2 = RequestLost)
    as Hlost.
  { intros j' Hj'. specialize (Hmin j' Hj'). specialize (Hno (sent w + j')%nat).
    by destruct (net (sent w + j')%nat).2. }
  assert ((∀ k, (net k).2 = Delivered) → j = 0%nat) as Hj0.
  { intros Hall. destruct j as [|j]; [done|].
    specialize (Hmin 0%nat ltac:(lia)). by specialize (Hall (sent w + 0)%nat). }
  destruct (decide (S (length ks) = N)) as [Hfull|Hmore].
  - destruct (send_retrying_last net id f x0 Q N Htotal Hid HsizeQ total ks i j
                MAX_RETRIES 0%nat w c Hst Hik (HQ i HiU) Hfull)
      as (w' & c' & fl & Hrun & Hfin & Hs & Ht & Hlast & Hstatus & Hsent
          & Hfl & Hdel);
      [by apply below_all|lia|done|done|done|].
    rewrite Hrun.
    replace (sent w + S j)%nat with (S (sent w + j)) in Hdel by lia.
    destruct Hfl as [->|[->| ->]].
    + exists w', c', None, (sent w + j)%nat.
      split; [done|]. split; [lia|]. do 4 (split; [done|]).
      split; [by left|].
      split; [intros Hdl; by destruct (Hdel Hdl) as [_ ?]|].
      split; [lia|]. split; [unfold MAX_RETRIES in *; lia|].
      intros Hall. specialize (Hj0 Hall). lia.
    + rewrite upload_from_skip.
      2:{ intros k Hk.
          assert (k ∈ i :: ks) as Hin
            by (apply (below_all (i :: ks) N); [done|done|cbn; lia|lia]).
          apply elem_of_cons in Hin as [->|Hin]; [lia|].
          apply Hks in Hin as [_ [?|?]]; [done|lia]. }
      exists w', (setStatus UploadFinished c'), None, (sent w + j)%nat.
      split; [done|]. split; [lia|]. do 4 (split; [done|]).
      split; [by left|].
      split; [intros Hdl; by destruct (Hdel Hdl) as [? _]|].
      split; [lia|]. split; [unfold MAX_RETRIES in *; lia|].
      intros Hall. specialize (Hj0 Hall). lia.
    + exists w', c', (Some FetchFailed), (sent w + j)%nat.
      split; [done|]. split; [lia|]. do 4 (split; [done|]).
      split; [by right|].
      split; [intros Hdl; by destruct (Hdel Hdl) as [? _]|].
      split; [lia|]. split; [unfold MAX_RETRIES in *; lia|].
      intros Hall. specialize (Hj0 Hall). lia.
  - destruct (send_retrying_next net id f x0 Q N Htotal Hid HsizeQ total ks i j
                MAX_RETRIES 0%nat w c Hst Hik (HQ i HiU) Hmore)
      as (w' & c' & Hrun & Hst' & Hfin & Hsent & Hlast); [lia|done|done|done|].
    rewrite Hrun.
    destruct (IH (S i) (i :: ks) w' c')
      as (w2 & c2 & res & n & Hrun2 & Hn & Hfin2 & Hs2 & Ht2 & Hlast2 & Hres2
          & Hdel2 & Hsent2 & Hbound2 & Hexact2);
      [lia|done|done| | |].
    { intros k. rewrite elem_of_cons, Hks. split.
      - intros [->|[Hk [HU|Hlt]]]; [split; [lia|right; lia]|by split; [|left]|].
        split; [done|right; lia].
      - intros [Hk [HU|Hlt]]; [right; by split; [|left]|].
        destruct (decide (k = i)) as [->|]; [by left|].
        right. split; [done|right; lia]. }
    { pose proof (below_length (i :: ks) N Hnd' Hbelow) as Hle.
      cbn [length] in *. lia. }
    exists w2, c2, res, n. split; [done|]. split; [lia|].
    split; [by rewrite <- Hfin|]. do 6 (split; [done|]).
    cbn [length] in Hbound2, Hexact2.
    split; [unfold MAX_RETRIES in *; lia|].
    intros Hall. specialize (Hj0 Hall). specialize (Hexact2 Hall). lia.
Qed.
End client_completes.

Lemma chunk_count_nat f :
  chunk_count (fileSize f) = Z.of_nat (Z.to_nat (chunk_count (fileSize f))).
Proof.
  destruct (chunk_count_spec (fileSize f)) as [H0 _]; [unfold fileSize|]; lia.
Qed.

(** X13: An upload over a network that loses requests.  The file has a name and
    at least one byte; the [init] request arrives; no answer is lost, and
    of any [MAX_RETRIES] requests in a row one arrives.  Then the click on
    the start button ends with the
    whole file saved under the name built from the clock reading of one of
    the requests and the file's name; the session is gone from the server
    and from [localStorage].  When the listing request that follows the
    completing chunk arrives too, the status line names the saved file
    and the page lists the files of [uploads/final]. *)
Theorem upload_survives_lost_requests net f w c :
  fileName f ≠ "" → fileBytes f ≠ [] →
  (net (sent w)).2 = Delivered →
  (∀ k, (net k).2 ≠ ResponseLost) →
  (∀ k, ∃ j, (j < MAX_RETRIES)%nat ∧ (net (k + j)%nat).2 = Delivered) →
  let after := start_click net (Some f) w c in
  ∃ n, (sent w < n)%nat
    ∧ final_root (srv after.1)
      = <[final_name (net n).1 (Some (fileName f))
          := mkFile (fileBytes f) (stamp (net n).1)]> (final_root (srv w))
    ∧ known (uuid (net (sent w)).1) (srv after.1) = None
    ∧ lastUploadId after.2 = None
    ∧ ((net (S n)).2 = Delivered →
       status after.2
       = UploadComplete (Some (final_name (net n).1 (Some (fileName f))))
       ∧ savedFiles after.2 = list_files (srv after.1)).
Proof.
  intros Hname Hbytes Hd0 Hno Hburst after. subst after.
  unfold start_click, uploadFile, initSession.
  rewrite fetch_delivered by done. cbn [step].
  rewrite upload_init_ok by done. cbn [fst snd].
  set (id := uuid (net (sent w)).1).
  set (x0 := mkSession id _ _ _ _ _ _).
  set (w1 := mkWorld _ _). set (c1 := mkClient _ _ _ _).
  set (N := Z.to_nat (chunk_count (fileSize f))).
  pose proof (chunk_count_nat f) as Hcount. fold N in Hcount.
  assert (totalChunks x0 = JNum (Z.of_nat N)) as Htotal
    by (subst x0; cbn; by rewrite <- Hcount).
  assert (0 < N)%nat as HN.
  { destruct (chunk_count_spec (fileSize f)) as [_ Hspec];
      [unfold fileSize; lia|].
    assert (0 < fileSize f)
      by (unfold fileSize; destruct (fileBytes f); [done|cbn; lia]).
    pose proof CHUNK_SIZE_pos. nia. }
  destruct (upload_from_completes net id f x0 (blob_of f) N ∅ Htotal eq_refl
              (blob_of_single f) (λ _ _, eq_refl) Hno Hburst
              (chunk_count (fileSize f)) N 0%nat [] w1 c1)
    as (w' & c' & res & n & Hrun & Hn & Hfin & Hs & Ht & Hlast & Hres & Hdel
        & _).
  { lia. }
  { exists []. split; [apply lookup_insert_eq|]. split; [done|].
    by intros k ?%elem_of_nil. }
  { apply NoDup_nil_2. }
  { intros k. split; [by intros ?%elem_of_nil|].
    intros [_ [?%elem_of_empty|?]]; [done|lia]. }
  { cbn. lia. }
  change (Z.of_nat 0) with 0 in Hrun. rewrite Hrun.
  subst x0 w1. cbn [originalName srv sent final_root] in *.
  rewrite final_name_safe, (blobs_in_index_order f N Hcount) in *.
  assert (known id (srv w') = None) as Hknown.
  { unfold known, readSessionMeta. by rewrite Hs, Ht. }
  exists n. split; [lia|].
  destruct Hres as [-> | ->]; cbn [fst snd].
  - do 3 (split; [done|]). intros Hdl. by destruct (Hdel Hdl) as (_ & ? & ?).
  - do 3 (split; [done|]). intros Hdl. by destruct (Hdel Hdl) as (? & _).
Qed.

Lemma lossy_net_burst k :
  ∃ j, (j < MAX_RETRIES)%nat ∧ (lossy_net (k + j)%nat).2 = Delivered.
Proof.
  destruct k as [|[|[|k]]].
  - exists 0%nat. split; [unfold MAX_RETRIES; lia|done].
  - exists 2%nat. split; [unfold MAX_RETRIES; lia|done].
  - exists 1%nat. split; [unfold MAX_RETRIES; lia|done].
  - exists 0%nat. split; [unfold MAX_RETRIES; lia|].
    by rewrite Nat.add_0_r.
Qed.

Lemma upload_survives_lost_requests_witness :
  let after := start_click lossy_net (Some clip_file)
                 (mkWorld empty_server 0) new_client in
  ∃ n, (0 < n)%nat
    ∧ final_root (srv after.1)
      = <[final_name (lossy_net n).1 (Some "clip.mp4"%string)
          := mkFile (ascii_bytes "AAABBC") (stamp (lossy_net n).1)]> ∅
    ∧ known "u1" (srv after.1) = None
    ∧ lastUploadId after.2 = None
    ∧ ((lossy_net (S n)).2 = Delivered →
       status after.2
       = UploadComplete
           (Some (final_name (lossy_net n).1 (Some "clip.mp4"%string)))
       ∧ savedFiles after.2 = list_files (srv after.1)).
Proof.
  apply (upload_survives_lost_requests lossy_net clip_file
           (mkWorld empty_server 0) new_client).
  - discriminate.
  - discriminate.
  - reflexivity.
  - intros k. unfold lossy_net. cbn [snd]. by destruct k as [|[|[|k]]].
  - apply lossy_net_burst.
Defined.

Lemma staged_ext id x0 P Q ks s :
  (∀ k, k ∈ ks → P k = Q k) → staged id x0 P ks s → staged id x0 Q ks s.
Proof.
  intros Heq (r & Hreg & Hr & Hfiles). exists r. do 2 (split; [done|]).
  intros k Hk. rewrite <- Heq by done. by apply Hfiles.
Qed.

Lemma uploadFile_known net f id U w c :
  id ≠ "" →
  uploadFile net f (Some id) U w c
  = upload_from net id f (chunk_count (fileSize f)) U
      (Z.to_nat (chunk_count (fileSize f))) 0 w c.
Proof. by destruct id. Qed.

Lemma resume_click_known net f id w c :
  id ≠ "" → lastUploadId c = Some id →
  resume_click net (Some f) w c
  = match getSessionStatus net id w with
    | (w, inr received) =>
        match uploadFile net f (Some id) (list_to_set received) w c with
        | (w, c, None) => (w, c)
        | (w, c, Some m) => (w, setStatus (Failed m) c)
        end
    | (w, inl m) => (w, setStatus (Failed m) c)
    end.
Proof. intros Hne Hl. unfold resume_click. rewrite Hl. by destruct id. Qed.

(** X14: The resume button.  The page remembers session [id]; the server holds
    it with the chunk files of the indices [ks], some but not all of the
    [N] chunks, and [N] is also the number of chunks of the picked file,
    which neither the page nor the handler checks.  The status request
    arrives, no answer is lost, and of any [MAX_RETRIES] requests in a row
    one arrives.  Then the click ends with the upload complete.  The saved
    file holds the stored bytes for the indices of [ks] and the picked
    file's blobs for the others: it is the picked file when the stored
    chunks came from the same file.  The requests are the status request,
    the chunk requests, the last of which is request [n], and the request
    for the list of files: at most [MAX_RETRIES] chunk requests for each
    missing chunk, and on a network that loses nothing exactly one for each
    missing chunk and none for a chunk of [ks]. *)
Theorem resume_sends_missing_chunks net f w c id x0 P ks :
  let N := Z.to_nat (chunk_count (fileSize f)) in
  lastUploadId c = Some id → id ≠ "" →
  totalChunks x0 = JNum (chunk_count (fileSize f)) → uploadId x0 = id →
  staged id x0 P ks (srv w) →
  NoDup ks → (∀ k, k ∈ ks → (k < N)%nat) → (length ks < N)%nat →
  (∀ k, k ∈ ks → upload_single (Some (P k)) = true) →
  (net (sent w)).2 = Delivered →
  (∀ k, (net k).2 ≠ ResponseLost) →
  (∀ k, ∃ j, (j < MAX_RETRIES)%nat ∧ (net (k + j)%nat).2 = Delivered) →
  let after := resume_click net (Some f) w c in
  ∃ n, (sent w < n)%nat
    ∧ final_root (srv after.1)
      = <[final_name (net n).1 (Some (originalName x0))
          := mkFile (in_index_order (resumed f P ks) N) (stamp (net n).1)]>
          (final_root (srv w))
    ∧ ((∀ k, k ∈ ks → P k = blob_of f k) →
       in_index_order (resumed f P ks) N = fileBytes f)
    ∧ known id (srv after.1) = None
    ∧ lastUploadId after.2 = None
    ∧ sent after.1 = S (S n)
    ∧ (sent after.1 ≤ sent w + 2 + (N - length ks) * MAX_RETRIES)%nat
    ∧ ((∀ k, (net k).2 = Delivered) →
       sent after.1 = (sent w + 2 + (N - length ks))%nat).
Proof.
  intros N Hlast Hne Htotal Hid Hst Hnd Hbelow Hlen HsizeP Hd0 Hno Hburst
    after.
  pose proof (chunk_count_nat f) as Hcount. fold N in Hcount.
  rewrite Hcount in Htotal.
  subst after. rewrite (resume_click_known net f id) by done.
  unfold getSessionStatus. rewrite fetch_delivered by done.
  cbn [step]. unfold upload_status.
  destruct Hst as (r & Hreg & Hr & Hfiles).
  rewrite (find_session_registered _ _ _ Hreg). cbn [fst snd].
  cbn [receivedChunks totalChunks set_received].
  rewrite uploadFile_known by done.
  set (w1 := mkWorld (srv w) (S (sent w))).
  set (U := list_to_set r : gset Z).
  assert (∀ k, Z.of_nat k ∈ U ↔ k ∈ ks) as HU.
  { intros k. subst U. rewrite elem_of_list_to_set, Hr, list_elem_of_fmap.
    split; [|by exists k]. intros (k' & Heq & Hk').
    by apply Nat2Z.inj in Heq as ->. }
  destruct (upload_from_completes net id f x0 (resumed f P ks) N U Htotal Hid)
    with (total := chunk_count (fileSize f)) (left := N) (i := 0%nat)
         (ks := ks) (w := w1) (c := c)
    as (w' & c' & res & n & Hrun & Hn & Hfin & Hs & Ht & Hlast' & Hres & _
        & Hsent & Hbound & Hexact);
    try done.
  { intros k. unfold resumed. case_decide; [by apply HsizeP|].
    apply blob_of_single. }
  { intros k Hk. unfold resumed. rewrite decide_False; [done|].
    by rewrite <- HU. }
  { exists r. do 2 (split; [done|]). intros k Hk. unfold resumed.
    rewrite decide_True by done. by apply Hfiles. }
  { intros k. rewrite HU. split; [|by intros [_ [?|?]]; [|lia]].
    intros Hk. split; [by apply Hbelow|by left]. }
  change (Z.of_nat 0) with 0 in Hrun. fold N. rewrite Hrun. subst w1. cbn [srv sent] in *.
  assert (known id (srv w') = None) as Hknown.
  { unfold known, readSessionMeta. by rewrite Hs, Ht. }
  exists n. split; [lia|].
  assert ((∀ k, k ∈ ks → P k = blob_of f k) →
          in_index_order (resumed f P ks) N = fileBytes f) as Hsame.
  { intros Heq. rewrite <- (blobs_in_index_order f N Hcount).
    apply in_index_order_ext. intros k _. unfold resumed.
    case_decide; [by apply Heq|done]. }
  assert (sent w' ≤ sent w + 2 + (N - length ks) * MAX_RETRIES)%nat
    as Hbound' by lia.
  assert ((∀ k, (net k).2 = Delivered) →
          sent w' = (sent w + 2 + (N - length ks))%nat) as Hexact'.
  { intros Hall. specialize (Hexact Hall). lia. }
  by destruct Hres as [-> | ->]; cbn [fst snd].
Qed.

Lemma two_chunk_count : chunk_count (fileSize two_chunk_file) = 2.
Proof.
  unfold fileSize, two_chunk_file. cbn [fileBytes].
  rewrite length_app, length_replicate. cbn [length].
  rewrite Nat2Z.inj_add, Z2Nat.id by (unfold CHUNK_SIZE; lia).
  reflexivity.
Qed.

Lemma two_chunk_second : blob_of two_chunk_file 1 = [Byte.x42].
Proof.
  unfold blob_of, chunk_blob, slice.
  assert (fileSize two_chunk_file = CHUNK_SIZE + 1) as ->.
  { unfold fileSize, two_chunk_file. cbn [fileBytes].
    rewrite length_app, length_replicate. cbn [length].
    rewrite Nat2Z.inj_add, Z2Nat.id by (unfold CHUNK_SIZE; lia).
    reflexivity. }
  change (Z.of_nat 1) with 1. rewrite Z.mul_1_l.
  rewrite Z.min_r by (unfold CHUNK_SIZE; lia).
  replace (CHUNK_SIZE + 1 - CHUNK_SIZE) with 1 by lia.
  unfold two_chunk_file. cbn [fileBytes].
  rewrite drop_app_length'; [reflexivity|by rewrite length_replicate].
Qed.

Lemma resume_sends_missing_chunks_witness :
  let net := reliable (λ k, at_time (1000 + Z.of_nat k) "u1") in
  let c := mkClient NoStatus (Some "u1"%string) (Some "clip.mp4"%string) [] in
  let after := resume_click net (Some two_chunk_file)
                 (mkWorld half_uploaded 0) c in
  final_root (srv after.1)
  = {[ "1001-clip.mp4"%string
       := mkFile (ascii_bytes "OLD" ++ [Byte.x42]) 1001 ]}
  ∧ known "u1" (srv after.1) = None
  ∧ lastUploadId after.2 = None
  ∧ sent after.1 = 3%nat.
Proof.
  intros net c after.
  destruct (resume_sends_missing_chunks net two_chunk_file
              (mkWorld half_uploaded 0) c "u1"
              (mkSession "u1" "clip.mp4" 4194305 (JNum 2)
                 "application/octet-stream" 900 [])
              (λ _, ascii_bytes "OLD") [0%nat])
    as (n & Hn & Hfin & _ & Hknown & Hlast & Hsent & _ & Hexact).
  - reflexivity.
  - discriminate.
  - rewrite two_chunk_count. reflexivity.
  - reflexivity.
  - exists [0]. split; [reflexivity|]. split; [reflexivity|].
    intros k Hk. apply list_elem_of_singleton in Hk as ->. reflexivity.
  - apply NoDup_singleton.
  - intros k Hk. apply list_elem_of_singleton in Hk as ->.
    rewrite two_chunk_count. lia.
  - rewrite two_chunk_count. cbn [length]. lia.
  - intros k _. reflexivity.
  - reflexivity.
  - intros k. discriminate.
  - intros k. exists 0%nat. split; [unfold MAX_RETRIES; lia|reflexivity].
  - fold after in Hfin, Hknown, Hlast, Hsent, Hexact.
    rewrite two_chunk_count in Hfin, Hexact.
    specialize (Hexact (λ k, eq_refl)).
    cbn [sent length] in Hexact.
    assert (n = 1%nat) as -> by lia.
    split; [|split; [exact Hknown|split; [exact Hlast|lia]]].
    rewrite Hfin. unfold in_index_order.
    change (seq 0 (Z.to_nat 2)) with [0%nat; 1%nat].
    cbn [fmap list_fmap concat]. unfold resumed.
    rewrite decide_True by apply list_elem_of_here.
    rewrite decide_False
      by (intros Hin; apply list_elem_of_singleton in Hin; discriminate).
    rewrite two_chunk_second. reflexivity.
Defined.

(** ** The client: an answer that is lost *)

Section lost_answer.
Context (net : nat → env * link) (id : string) (f : File) (x0 : session).
Context (N last : nat).
Hypothesis Htotal : totalChunks x0 = JNum (Z.of_nat N).
Hypothesis Hid : uploadId x0 = id.
Hypothesis Hlost : (net last).2 = ResponseLost.
Hypothesis Hothers : ∀ k, k ≠ last → (net k).2 = Delivered.

(** The chunk that completes the upload when its answer is lost: the two
    attempts that follow find no session. *)
Lemma send_retrying_answer_lost total ks k w c :
  staged id x0 (blob_of f) ks (srv w) → k ∉ ks → S (length ks) = N →
  (∀ i, (i < N)%nat → i ∈ k :: ks) →
  sent w = last →
  let e := (net last).1 in
  let out := final_name e (Some (originalName x0)) in
  ∃ w' c',
    send_retrying net id f (Z.of_nat k) total MAX_RETRIES 0 w c
    = (w', c', Throw (ChunkFailed (Z.of_nat k)))
    ∧ final_root (srv w')
      = <[out := mkFile (in_index_order (blob_of f) N) (stamp e)]>
          (final_root (srv w))
    ∧ sessions (srv w') !! id = None ∧ tmp_root (srv w') !! id = None
    ∧ lastUploadId c' = lastUploadId c
    ∧ sent w' = (last + 3)%nat.
Proof.
  intros Hst Hk Hlen Hall Hsent e out.
  destruct (staged_last id x0 (blob_of f) N Htotal Hid (blob_of_single f)
              e ks (srv w) k Hst Hk Hlen Hall)
    as (s' & Hup & Hfin & Hs & Ht & _).
  assert (∀ e', upload_chunk e' id (JNum (Z.of_nat k))
                  (Some (chunk_blob f (Z.of_nat k))) s'
                = (s', NotFound "upload session not found")) as Hgone.
  { intros e'. apply upload_chunk_unknown; [apply (blob_of_single f k)|lia|].
    apply find_session_None. split; [done|].
    unfold readSessionMeta. by rewrite Ht. }
  unfold MAX_RETRIES. cbn [send_retrying]. unfold sendChunk.
  rewrite fetch_response_lost by (by rewrite Hsent).
  rewrite Hsent. cbn [step]. fold e. unfold blob_of in Hup at 1.
  rewrite Hup. cbn [fst snd]. rewrite bool_decide_eq_false_2 by (unfold MAX_RETRIES; lia).
  rewrite fetch_delivered by (cbn [sent]; apply Hothers; lia).
  cbn [step srv sent]. rewrite Hgone. cbn [fst snd].
  rewrite bool_decide_eq_false_2 by (unfold MAX_RETRIES; lia).
  rewrite fetch_delivered by (cbn [sent]; apply Hothers; lia).
  cbn [step srv sent]. rewrite Hgone. cbn [fst snd].
  rewrite bool_decide_eq_true_2 by (unfold MAX_RETRIES; lia).
  eexists _, _. split; [done|]. cbn. repeat split; (done || lia).
Qed.

(** The [for] loop of a new upload whose requests are numbered so that the
    completing chunk is request [last]. *)
Lemma upload_from_answer_lost total : ∀ left i ks w c,
  (i + S left = N)%nat →
  staged id x0 (blob_of f) ks (srv w) → NoDup ks →
  (∀ k, k ∈ ks ↔ (k < i)%nat) →
  (sent w + left = last)%nat →
  ∃ w' c',
    upload_from net id f total ∅ (S left) (Z.of_nat i) w c
    = (w', c', Some (ChunkFailed (Z.of_nat N - 1)))
    ∧ final_root (srv w')
      = <[final_name (net last).1 (Some (originalName x0))
          := mkFile (in_index_order (blob_of f) N) (stamp (net last).1)]>
          (final_root (srv w))
    ∧ sessions (srv w') !! id = None ∧ tmp_root (srv w') !! id = None
    ∧ lastUploadId c' = lastUploadId c
    ∧ sent w' = (last + 3)%nat.
Proof.
  induction left as [|left IH]; intros i ks w c Hi Hst Hnd Hks Hsent.
  - assert (i ∉ ks) as Hik by (rewrite Hks; lia).
    assert (length ks = i) as Hlen.
    { apply Nat.le_antisymm.
      - apply below_length; [done|]. intros k. by rewrite Hks.
      - trans (length (seq 0 i)); [by rewrite length_seq|].
        apply submseteq_length, NoDup_submseteq; [apply NoDup_seq|].
        intros k Hk. apply elem_of_seq in Hk. apply Hks. lia. }
    cbn [upload_from]. rewrite bool_decide_eq_false_2 by apply not_elem_of_empty.
    destruct (send_retrying_answer_lost total ks i w c Hst Hik)
      as (w' & c' & Hrun & Hrest); [lia| |lia|].
    { intros k Hk. rewrite elem_of_cons, Hks. lia. }
    rewrite Hrun. exists w', c'. split; [do 3 f_equal; lia|done].
  - assert (i ∉ ks) as Hik by (rewrite Hks; lia).
    assert (length ks = i) as Hlen.
    { apply Nat.le_antisymm.
      - apply below_length; [done|]. intros k. by rewrite Hks.
      - trans (length (seq 0 i)); [by rewrite length_seq|].
        apply submseteq_length, NoDup_submseteq; [apply NoDup_seq|].
        intros k Hk. apply elem_of_seq in Hk. apply Hks. lia. }
    cbn [upload_from]. rewrite bool_decide_eq_false_2 by apply not_elem_of_empty.
    destruct (send_retrying_next net id f x0 (blob_of f) N Htotal Hid
                (blob_of_single f) total ks i 0 MAX_RETRIES 0%nat w c Hst Hik
                eq_refl)
      as (w1 & c1 & Hrun & Hst1 & Hfin1 & Hsent1 & Hlast1);
      [lia|lia|unfold MAX_RETRIES; lia| |lia|].
    { rewrite Nat.add_0_r. apply Hothers. lia. }
    rewrite Hrun. replace (Z.of_nat i + 1) with (Z.of_nat (S i)) by lia.
    destruct (IH (S i) (i :: ks) w1 c1) as (w' & c' & Hrun' & Hrest);
      [lia|done|by apply NoDup_cons| |lia|].
    { intros k. rewrite elem_of_cons, Hks. lia. }
    exists w', c'. split; [done|]. rewrite <- Hfin1, <- Hlast1. exact Hrest.
Qed.
End lost_answer.

(** X15: An upload whose last answer is lost.  Every request is delivered but
    for the chunk that completes the upload: the server merges and saves
    the file and deletes the session, the answer does not arrive.  The
    client sends the chunk twice more, is told that the session does not
    exist, and reports the chunk as failed although the whole file is
    saved; the session is still remembered in [localStorage], and a click
    on the resume button reports that it is not found. *)
Theorem lost_answer_is_reported_as_failure net f w c :
  let N := Z.to_nat (chunk_count (fileSize f)) in
  let last := (sent w + N)%nat in
  let id := uuid (net (sent w)).1 in
  fileName f ≠ "" → fileBytes f ≠ [] → id ≠ "" →
  (net last).2 = ResponseLost →
  (∀ k, k ≠ last → (net k).2 = Delivered) →
  let after := start_click net (Some f) w c in
  status after.2 = Failed (ChunkFailed (Z.of_nat N - 1))
  ∧ final_root (srv after.1)
    = <[final_name (net last).1 (Some (fileName f))
        := mkFile (fileBytes f) (stamp (net last).1)]> (final_root (srv w))
  ∧ known id (srv after.1) = None
  ∧ lastUploadId after.2 = Some id
  ∧ status (resume_click net (Some f) after.1 after.2).2
    = Failed SessionNotFound.
Proof.
  intros N last id Hname Hbytes Hne Hlost Hothers after.
  pose proof (chunk_count_nat f) as Hcount. fold N in Hcount.
  assert (0 < N)%nat as HN.
  { destruct (chunk_count_spec (fileSize f)) as [_ Hspec];
      [unfold fileSize; lia|].
    assert (0 < fileSize f)
      by (unfold fileSize; destruct (fileBytes f); [done|cbn; lia]).
    pose proof CHUNK_SIZE_pos. nia. }
  subst after. unfold start_click, uploadFile, initSession.
  rewrite fetch_delivered by (apply Hothers; lia). cbn [step].
  rewrite upload_init_ok by done. cbn [fst snd]. fold id N.
  set (x0 := mkSession id _ _ _ _ _ _).
  set (w1 := mkWorld _ _). set (c1 := mkClient _ _ _ _).
  assert (totalChunks x0 = JNum (Z.of_nat N)) as Htotal
    by (subst x0; cbn; by rewrite <- Hcount).
  assert (∃ N', N = S N') as [N' HNeq] by (exists (pred N); lia).
  destruct (upload_from_answer_lost net id f x0 N last Htotal eq_refl Hlost
              Hothers (chunk_count (fileSize f)) N' 0%nat [] w1 c1)
    as (w' & c' & Hrun & Hfin & Hs & Ht & Hlast & Hsent).
  { lia. }
  { exists []. split; [apply lookup_insert_eq|]. split; [done|].
    by intros k ?%elem_of_nil. }
  { apply NoDup_nil_2. }
  { intros k. split; [by intros ?%elem_of_nil|lia]. }
  { subst w1 last. cbn [sent]. lia. }
  change (Z.of_nat 0) with 0 in Hrun. rewrite <- HNeq in Hrun. rewrite Hrun.
  subst x0 w1 c1. cbn [originalName srv sent final_root lastUploadId] in *.
  rewrite final_name_safe, (blobs_in_index_order f N Hcount) in Hfin.
  cbn [fst snd status lastUploadId setStatus].
  assert (known id (srv w') = None) as Hknown.
  { unfold known, readSessionMeta. by rewrite Hs, Ht. }
  do 4 (split; [done|]).
  rewrite (resume_click_known net f id) by done.
  unfold getSessionStatus.
  rewrite fetch_delivered by (apply Hothers; lia).
  cbn [step]. unfold upload_status.
  assert (find_session id (srv w') = None) as ->; [|done].
  apply find_session_None. split; [done|].
  unfold readSessionMeta. by rewrite Ht.
Qed.

Lemma lost_answer_is_reported_as_failure_witness :
  let after := start_click (answer_lost 1) (Some clip_file)
                 (mkWorld empty_server 0) new_client in
  status after.2 = Failed (ChunkFailed 0)
  ∧ final_root (srv after.1)
    = {[ "1001-clip.mp4"%string := mkFile (ascii_bytes "AAABBC") 1001 ]}
  ∧ known "u1" (srv after.1) = None
  ∧ lastUploadId after.2 = Some "u1"%string
  ∧ status (resume_click (answer_lost 1) (Some clip_file) after.1 after.2).2
    = Failed SessionNotFound.
Proof.
  apply (lost_answer_is_reported_as_failure (answer_lost 1) clip_file
           (mkWorld empty_server 0) new_client).
  - discriminate.
  - discriminate.
  - discriminate.
  - reflexivity.
  - intros k Hk. unfold answer_lost. cbn [snd].
    change (0 + Z.to_nat (chunk_count (fileSize clip_file)))%nat with 1%nat in Hk.
    by rewrite decide_False.
Defined.

(** ** The client: an empty file, and the number of requests *)

(** X16: An empty file.  [init] is sent with [totalChunks] 0, the loop has no
    turn, and the status line reads 'Upload finished.'; nothing is written
    to [uploads/final], the session stays on the server with nothing
    received, and [localStorage] keeps its id. *)
Theorem empty_file_is_finished_without_a_file net f w c :
  fileName f ≠ "" → fileBytes f = [] → (net (sent w)).2 = Delivered →
  let id := uuid (net (sent w)).1 in
  let after := start_click net (Some f) w c in
  status after.2 = UploadFinished
  ∧ sent after.1 = S (sent w)
  ∧ final_root (srv after.1) = final_root (srv w)
  ∧ lastUploadId after.2 = Some id
  ∧ ∃ x, known id (srv after.1) = Some x
         ∧ totalChunks x = JNum 0 ∧ receivedChunks x = [].
Proof.
  intros Hname Hbytes Hd id after. subst after.
  unfold start_click, uploadFile, initSession.
  rewrite fetch_delivered by done. cbn [step].
  rewrite upload_init_ok by done. cbn [fst snd]. fold id.
  assert (fileSize f = 0) as Hsize by (unfold fileSize; by rewrite Hbytes).
  rewrite Hsize, (chunk_count_zero 0) by done.
  change (Z.to_nat 0) with 0%nat.
  cbn [upload_from fst snd status setStatus lastUploadId srv sent
       final_root].
  do 4 (split; [done|]). eexists. split.
  - unfold known. cbn [sessions srv]. by rewrite lookup_insert_eq.
  - done.
Qed.

Lemma empty_file_is_finished_without_a_file_witness :
  let after := start_click (reliable (λ k, at_time (1000 + Z.of_nat k) "u1"))
                 (Some (mkPicked "empty.bin" "" []))
                 (mkWorld empty_server 0) new_client in
  status after.2 = UploadFinished
  ∧ sent after.1 = 1%nat
  ∧ final_root (srv after.1) = ∅
  ∧ lastUploadId after.2 = Some "u1"%string
  ∧ ∃ x, known "u1" (srv after.1) = Some x
         ∧ totalChunks x = JNum 0 ∧ receivedChunks x = [].
Proof.
  apply (empty_file_is_finished_without_a_file
           (reliable (λ k, at_time (1000 + Z.of_nat k) "u1"))
           (mkPicked "empty.bin" "" []) (mkWorld empty_server 0) new_client).
  - discriminate.
  - reflexivity.
  - reflexivity.
Defined.

Lemma refreshSavedFiles_sent net w c :
  sent (refreshSavedFiles net w c).1.1 = S (sent w).
Proof.
  destruct (refreshSavedFiles_spec net w c)
    as (w' & c' & res & -> & _ & Hsent & _). done.
Qed.

Lemma sendChunk_sent net id f index w :
  sent (sendChunk net id f index w).1 = S (sent w).
Proof.
  unfold sendChunk.
  pose proof (fetch_sent net
    (UploadChunk id (JNum index) (Some (chunk_blob f index))) w) as Hs.
  destruct (fetch _ _ _) as [w' [o|]]; [|done]. by destruct o.
Qed.

(** One index costs at most [left] chunk requests and one listing. *)
Lemma send_retrying_sent net id f index total : ∀ left attempts w c,
  (sent w ≤ sent (send_retrying net id f index total left attempts w c).1.1
   ≤ sent w + left + 1)%nat.
Proof.
  induction left as [|left IH]; intros attempts w c; cbn [send_retrying];
    [cbn; lia|].
  pose proof (sendChunk_sent net id f index w) as Hs.
  destruct (sendChunk net id f index w) as [w1 [m|[complete output]]];
    cbn [fst] in Hs.
  - case_bool_decide; [cbn; lia|].
    specialize (IH (S attempts) w1
      (setStatus (Uploading (index + 1) total (S attempts)) c)). lia.
  - destruct complete; [|cbn; lia].
    match goal with |- context [refreshSavedFiles net w1 ?c1] =>
      pose proof (refreshSavedFiles_sent net w1 c1) as Hr;
      destruct (refreshSavedFiles net w1 c1) as [[w2 c2] [m|]] end;
      cbn [fst] in Hr; [case_bool_decide|]; cbn; lia.
Qed.

Lemma upload_from_sent net id f total U : ∀ left index w c,
  (sent w ≤ sent (upload_from net id f total U left index w c).1.1
   ≤ sent w + left * (MAX_RETRIES + 1))%nat.
Proof.
  induction left as [|left IH]; intros index w c; cbn [upload_from];
    [cbn; lia|].
  case_bool_decide.
  - specialize (IH (index + 1) w c). lia.
  - pose proof (send_retrying_sent net id f index total MAX_RETRIES 0%nat w c)
      as Hs.
    destruct (send_retrying net id f index total MAX_RETRIES 0 w c)
      as [[w1 c1] [| |m]]; cbn [fst] in Hs |- *; [|lia..].
    specialize (IH (index + 1) w1 c1). lia.
Qed.

(** X17: Whatever the network and the server do, a click on the start button
    sends at least one request and at most one [init], and for each chunk
    of the file [MAX_RETRIES] chunk requests and one listing. *)
Theorem start_click_sends_bounded_requests net f w c :
  let N := Z.to_nat (chunk_count (fileSize f)) in
  (sent w < sent (start_click net (Some f) w c).1
   ≤ sent w + 1 + N * (MAX_RETRIES + 1))%nat.
Proof.
  intros N. unfold start_click, uploadFile, initSession.
  match goal with |- context [fetch net ?r w] =>
    pose proof (fetch_sent net r w) as Hf;
    destruct (fetch net r w) as [w1 o] end.
  cbn [fst] in Hf. fold N.
  destruct o as [[id| | | | | | | | | |]|]; cbn [fst]; try lia.
  match goal with |- context [upload_from net id f ?t ∅ N 0 w1 ?c1] =>
    pose proof (upload_from_sent net id f t ∅ N 0 w1 c1) as Hu;
    destruct (upload_from net id f t ∅ N 0 w1 c1) as [[w2 c2] [m|]] end;
    cbn [fst] in Hu |- *; lia.
Qed.

(** ** Refused requests, and sanitised names *)

(** X10: A request that is refused, on any route, leaves the maps and the two
    directories as they were. *)
Theorem refused_request_changes_nothing e r s :
  refused (step e r s).2 = true → (step e r s).1 = s.
Proof.
  destruct r as [fn sz ch mi|id|id index chunk|fn mi|id chunk|id|];
    cbn [step].
  - unfold upload_init. by destruct fn as [[|a fn]|].
  - unfold upload_status. by destruct (find_session id s) as [[x s0]|].
  - unfold upload_chunk.
    destruct (upload_single chunk); [|done]. cbn [negb].
    destruct chunk as [buf|]; [|done].
    destruct (chunk_index index) as [i|]; [|done].
    destruct (find_session id s) as [[x s0]|]; [|done].
    destruct (store_chunk id i buf x s0) as [x1 s1].
    destruct (all_received _ _); [|done].
    by destruct (mergeChunks e x1 s1) as [s2 [out|]].
  - done.
  - unfold stream_chunk.
    destruct (upload_single chunk); [|done]. cbn [negb].
    destruct (liveStreams s !! id) as [st|]; [|done].
    by destruct chunk.
  - unfold stream_finish. by destruct (liveStreams s !! id).
  - done.
Qed.

Lemma refused_request_changes_nothing_witness :
  let s := (run two_uploads_same_ms empty_server).1 in
  (step (at_time 3000 "") (StreamChunk "s9" (Some (ascii_bytes "AAA"))) s).1
  = s.
Proof.
  intros s.
  apply (refused_request_changes_nothing (at_time 3000 "")
           (StreamChunk "s9" (Some (ascii_bytes "AAA"))) s).
  reflexivity.
Defined.

Lemma replace_unsafe_length s :
  String.length (replace_unsafe s) = String.length s.
Proof. induction s as [|c s IH]; cbn; [done|by rewrite IH]. Qed.

Lemma replace_unsafe_fixed s :
  Forall (λ c, safe_char c = true) (String.list_ascii_of_string s) →
  replace_unsafe s = s.
Proof.
  induction s as [|c s IH]; cbn; [done|]. intros [Hc Hs]%Forall_cons.
  by rewrite Hc, IH.
Qed.

(** X11: [safeName] gives a name made of letters, digits, dots, underscores and
    dashes only, and applying it again changes nothing.  Of a name that is
    not empty it keeps the length, and a name that is made of these
    characters already is left as it is. *)
Theorem safeName_keeps_safe_names name :
  Forall (λ c, safe_char c = true)
    (String.list_ascii_of_string (safeName name))
  ∧ safeName (Some (safeName name)) = safeName name
  ∧ ∀ s, name = Some s → s ≠ "" →
      String.length (safeName name) = String.length s
      ∧ (Forall (λ c, safe_char c = true) (String.list_ascii_of_string s) →
         safeName name = s).
Proof.
  split; [apply safeName_safe|]. split; [apply safeName_idemp|].
  intros s -> Hs. destruct s as [|c s]; [done|]. unfold safeName.
  split; [apply replace_unsafe_length|apply replace_unsafe_fixed].
Qed.

Lemma safeName_keeps_safe_names_witness :
  String.length (safeName (Some "clip_1.mp4"%string)) = 10%nat
  ∧ safeName (Some "clip_1.mp4"%string) = "clip_1.mp4"%string.
Proof.
  destruct (safeName_keeps_safe_names (Some "clip_1.mp4"%string))
    as (_ & _ & H).
  destruct (H "clip_1.mp4"%string eq_refl ltac:(discriminate)) as [Hl Hf].
  split; [exact Hl|]. apply Hf. repeat constructor.
Defined.

Lemma file_is_cut_into_chunks_witness :
  in_index_order (λ k, chunk_blob clip_file (Z.of_nat k)) 1
  = ascii_bytes "AAABBC"
  ∧ 0 < Z.of_nat (length (chunk_blob clip_file 0)) ≤ CHUNK_SIZE.
Proof.
  destruct (file_is_cut_into_chunks clip_file) as [Hall Hone].
  split; [exact Hall|]. apply (Hone 0). split; [lia|reflexivity].
Defined.

Lemma final_name_determines_time_and_name_witness :
  now (at_time 5 "a") = now (at_time 5 "b")
  ∧ safeName (Some "x y"%string) = safeName (Some "x_y"%string).
Proof.
  apply (proj1 (final_name_determines_time_and_name (at_time 5 "a")
                  (at_time 5 "b") (Some "x y"%string) (Some "x_y"%string))).
  reflexivity.
Defined.
